(** * Persona Prompt Builder (app.py): data model and operations

    A shallow embedding of the pure core of [src/app.py]: the text
    aggregation (pandas [groupby]), the best-effort JSON extraction
    ([parse_json_safely]), the streaming sink ([stream_generate_text]), the
    persona prompt ([build_final_prompt]), the relationship graph
    ([plot_ontology_3d]) and the per-name result cache
    ([analyze_and_render_streaming] and the button handler).

    Python [str] values are sequences of Unicode code points; they are
    modelled as [list N].  Literals are written as UTF-8 string literals and
    decoded by [u]. *)

From Stdlib Require Import String Ascii.
From Stdlib Require Import List NArith ZArith Bool Lia Sorted Permutation.
Import ListNotations.

Local Open Scope N_scope.

(* ================================================================== *)
(** ** Python strings *)
(* ================================================================== *)

Definition str := list N.

Fixpoint bytes_of (s : string) : list N :=
  match s with
  | EmptyString => []
  | String a r => N_of_ascii a :: bytes_of r
  end.

(** UTF-8 decoding of a literal (well-formed input only: the literals of
    this file). *)
Fixpoint utf8_decode (bs : list N) : str :=
  match bs with
  | [] => []
  | b :: r =>
    if b <? 128 then b :: utf8_decode r
    else if b <? 224 then
      match r with
      | b1 :: r1 => ((b mod 32) * 64 + b1 mod 64) :: utf8_decode r1
      | _ => []
      end
    else if b <? 240 then
      match r with
      | b1 :: b2 :: r2 =>
        ((b mod 16) * 4096 + (b1 mod 64) * 64 + b2 mod 64) :: utf8_decode r2
      | _ => []
      end
    else
      match r with
      | b1 :: b2 :: b3 :: r3 =>
        ((b mod 8) * 262144 + (b1 mod 64) * 4096 + (b2 mod 64) * 64 + b3 mod 64)
          :: utf8_decode r3
      | _ => []
      end
  end.

Definition u (s : string) : str := utf8_decode (bytes_of s).

(** Code points used by the program text. *)
Definition c_nl : N := 10.
Definition c_dquote : N := 34.
Definition c_backtick : N := 96.
Definition c_lbrace : N := 123.
Definition c_rbrace : N := 125.

Fixpoint str_eqb (a b : str) : bool :=
  match a, b with
  | [], [] => true
  | x :: a', y :: b' => (x =? y) && str_eqb a' b'
  | _, _ => false
  end.

(** [a < b] on [str]: lexicographic on code points. *)
Fixpoint str_compare (a b : str) : comparison :=
  match a, b with
  | [], [] => Eq
  | [], _ :: _ => Lt
  | _ :: _, [] => Gt
  | x :: a', y :: b' =>
    match x ?= y with
    | Eq => str_compare a' b'
    | c => c
    end
  end.

Definition str_lt (a b : str) : Prop := str_compare a b = Lt.

(** Truth value of a [str]: the empty string is false. *)
Definition nonempty (x : str) : bool :=
  match x with
  | [] => false
  | _ :: _ => true
  end.

(** [sep.join(l)] *)
Fixpoint join (sep : str) (l : list str) : str :=
  match l with
  | [] => []
  | x :: rest =>
    match rest with
    | [] => x
    | _ :: _ => x ++ sep ++ join sep rest
    end
  end.

(** [str.isspace] on one code point (the Unicode whitespace of CPython). *)
Definition is_space (c : N) : bool :=
  ((9 <=? c) && (c <=? 13)) || ((28 <=? c) && (c <=? 32))
  || (c =? 133) || (c =? 160) || (c =? 5760)
  || ((8192 <=? c) && (c <=? 8202))
  || (c =? 8232) || (c =? 8233) || (c =? 8239) || (c =? 8287) || (c =? 12288).

Fixpoint lstrip (s : str) : str :=
  match s with
  | [] => []
  | c :: r => if is_space c then lstrip r else s
  end.

Definition rstrip (s : str) : str := rev (lstrip (rev s)).

(** [s.strip()] *)
Definition strip (s : str) : str := rstrip (lstrip s).

(* ================================================================== *)
(** ** Text Aggregator: [df.groupby("이름")["텍스트"].apply(...)] *)
(* ================================================================== *)

(** A row as [fetch_notion_rows] appends it: the two columns of the frame. *)
Record PersonRecord := { name : str; text : str }.

(** One group per key; a row joins the group of its key, at the end. *)
Fixpoint add_row (k x : str) (groups : list (str * list str)) : list (str * list str) :=
  match groups with
  | [] => [(k, [x])]
  | (k', xs) :: rest =>
    if str_eqb k k' then (k', xs ++ [x]) :: rest
    else (k', xs) :: add_row k x rest
  end.

Definition split_groups_from (acc : list (str * list str)) (rows : list PersonRecord) :=
  fold_left (fun g r => add_row (name r) (text r) g) rows acc.

Definition split_groups (rows : list PersonRecord) := split_groups_from [] rows.

(** [groupby] is called with its default [sort=True]: the groups come out
    ordered by key. *)
Fixpoint insert_group (g : str * list str) (gs : list (str * list str)) :=
  match gs with
  | [] => [g]
  | h :: rest =>
    match str_compare (fst g) (fst h) with
    | Gt => h :: insert_group g rest
    | _ => g :: gs
    end
  end.

Definition sort_groups (gs : list (str * list str)) := fold_right insert_group [] gs.

Definition groupby (rows : list PersonRecord) := sort_groups (split_groups rows).

(** [lambda s: "\n\n".join([x for x in s if x])] *)
Definition join_texts (s : list str) : str := join [c_nl; c_nl] (filter nonempty s).

(** [grouped]: one row (name, joined text) per group, after [reset_index]. *)
Definition grouped (rows : list PersonRecord) : list (str * str) :=
  map (fun g => (fst g, join_texts (snd g))) (groupby rows).

(** The identifiers of the input in the order they are first seen. *)
Definition first_seen (rows : list PersonRecord) : list str :=
  map fst (split_groups rows).

(** The texts of the rows named [k], in input order. *)
Definition texts_of (k : str) (rows : list PersonRecord) : list str :=
  map text (filter (fun r => str_eqb (name r) k) rows).

(** The group stored under [k] (empty when there is none). *)
Fixpoint group_get (k : str) (gs : list (str * list str)) : list str :=
  match gs with
  | [] => []
  | (k', xs) :: rest => if str_eqb k k' then xs else group_get k rest
  end.

Definition key_lt (g h : str * list str) : Prop := str_lt (fst g) (fst h).

(** The rows [("b", "x"); ("a", "y")]: "b" is seen first, "a" sorts first. *)
Definition rows_b_a : list PersonRecord :=
  [ {| name := u "b"; text := u "x" |}; {| name := u "a"; text := u "y" |} ].

(* ================================================================== *)
(** ** Python values and dictionaries *)
(* ================================================================== *)

(** A [float] read from a decimal literal is kept as that decimal
    ([m]·10^[e], with its sign); the float is its correctly rounded value. *)
Inductive pyfloat :=
| FDec (neg : bool) (m : N) (e : Z)
| FNaN
| FInf (neg : bool).

(** The values [json.loads] can return. *)
#[warnings="-register-all"]
Inductive pyval :=
| PyNone
| PyBool (b : bool)
| PyInt (z : Z)
| PyFloat (f : pyfloat)
| PyStr (s : str)
| PyList (l : list pyval)
| PyDict (d : list (str * pyval)).

(** A [dict] with [str] keys: the entries in insertion order, one per key. *)
Definition dict (V : Type) := list (str * V).

Fixpoint dict_get {V : Type} (k : str) (d : dict V) : option V :=
  match d with
  | [] => None
  | (k', v) :: rest => if str_eqb k k' then Some v else dict_get k rest
  end.

(** [d[k] = v]: an existing key keeps its place. *)
Fixpoint dict_set {V : Type} (k : str) (v : V) (d : dict V) : dict V :=
  match d with
  | [] => [(k, v)]
  | (k', v') :: rest =>
    if str_eqb k k' then (k', v) :: rest else (k', v') :: dict_set k v rest
  end.

Definition dict_mem {V : Type} (k : str) (d : dict V) : bool :=
  match dict_get k d with
  | Some _ => true
  | None => false
  end.

(** [dict(pairs)] *)
Definition dict_of_pairs {V : Type} (pairs : list (str * V)) : dict V :=
  fold_left (fun d kv => dict_set (fst kv) (snd kv) d) pairs [].

(** [bool(f)] of a float: zero is false.  A decimal m·10^e with m > 0 is
    read as 0.0 exactly when it is at most 2^-1075 (half the least
    subnormal). *)
Definition float_nonzero (f : pyfloat) : bool :=
  match f with
  | FDec _ m e =>
    if m =? 0 then false
    else if (0 <=? e)%Z then true
    else negb (Z.of_N m * 2 ^ 1075 <=? 10 ^ (- e))%Z
  | FNaN => true
  | FInf _ => true
  end.

(** [bool(v)] *)
Definition truthy (v : pyval) : bool :=
  match v with
  | PyNone => false
  | PyBool b => b
  | PyInt z => negb (z =? 0)%Z
  | PyFloat f => float_nonzero f
  | PyStr s => nonempty s
  | PyList l => match l with [] => false | _ :: _ => true end
  | PyDict d => match d with [] => false | _ :: _ => true end
  end.

(* ================================================================== *)
(** ** Operations on Python values that may raise *)
(* ================================================================== *)

(** The outcome of an expression that may raise. *)
Inductive result (A : Type) :=
| Returns (a : A)
| Raises.
Arguments Returns {A} a.
Arguments Raises {A}.

Definition and_then {A B : Type} (r : result A) (k : A -> result B) : result B :=
  match r with
  | Returns a => k a
  | Raises => Raises
  end.

(** [v.get(k, default)]: only a mapping has [get]. *)
Definition py_get (v : pyval) (k : str) (default : pyval) : result pyval :=
  match v with
  | PyDict d =>
    Returns (match dict_get k d with
             | Some x => x
             | None => default
             end)
  | _ => Raises
  end.

(** [v[0]]: the first element of a list, the first character of a string;
    anything else raises (a mapping has no key [0]). *)
Definition py_first (v : pyval) : result pyval :=
  match v with
  | PyList (x :: _) => Returns x
  | PyStr (c :: _) => Returns (PyStr [c])
  | _ => Raises
  end.

(** [for x in v]: the elements of a list, the characters of a string, the
    keys of a mapping; anything else is not iterable. *)
Definition py_iter (v : pyval) : result (list pyval) :=
  match v with
  | PyList l => Returns l
  | PyStr s => Returns (map (fun c => PyStr [c]) s)
  | PyDict d => Returns (map (fun kv => PyStr (fst kv)) d)
  | _ => Raises
  end.

(** [a or b] *)
Definition py_or (a b : pyval) : pyval := if truthy a then a else b.

(** [s.encode("utf-8")] succeeds unless [s] holds a surrogate code point
    (U+D800 to U+DFFF), which [json.loads] reads from a lone escape such
    as \ud83d. *)
Definition is_surrogate (c : N) : bool := (55296 <=? c) && (c <=? 57343).

Definition encodable (s : str) : bool := forallb (fun c => negb (is_surrogate c)) s.

(** Every string of a value, keys included, can be encoded: the text
    [json.dumps(v, ensure_ascii=False)] can. *)
Fixpoint encodable_value (v : pyval) : bool :=
  match v with
  | PyStr s => encodable s
  | PyList l => forallb encodable_value l
  | PyDict d => forallb (fun kv => encodable (fst kv) && encodable_value (snd kv)) d
  | _ => true
  end.

(* ================================================================== *)
(** ** [json.loads] *)
(* ================================================================== *)

Inductive presult (A : Type) :=
| Parsed (a : A) (rest : str)
| Invalid
| NoFuel.
Arguments Parsed {A} a rest.
Arguments Invalid {A}.
Arguments NoFuel {A}.

(** JSON whitespace: space, tab, line feed, carriage return. *)
Definition is_json_ws (c : N) : bool :=
  (c =? 32) || (c =? 9) || (c =? 10) || (c =? 13).

Fixpoint skip_ws (s : str) : str :=
  match s with
  | [] => []
  | c :: r => if is_json_ws c then skip_ws r else s
  end.

(** [s.startswith(p)]: the rest of [s] after the prefix [p]. *)
Fixpoint starts_with (p s : str) : option str :=
  match p with
  | [] => Some s
  | x :: p' =>
    match s with
    | [] => None
    | y :: s' => if x =? y then starts_with p' s' else None
    end
  end.

Definition is_digit (c : N) : bool := (48 <=? c) && (c <=? 57).

Definition hex_value (c : N) : option N :=
  if is_digit c then Some (c - 48)
  else if (97 <=? c) && (c <=? 102) then Some (c - 87)
  else if (65 <=? c) && (c <=? 70) then Some (c - 55)
  else None.

Definition hex4 (h1 h2 h3 h4 : N) : option N :=
  match hex_value h1, hex_value h2, hex_value h3, hex_value h4 with
  | Some a, Some b, Some c, Some d => Some (a * 4096 + b * 256 + c * 16 + d)
  | _, _, _, _ => None
  end.

(** The characters a backslash may introduce, besides [u]. *)
Definition backslash (e : N) : option N :=
  if e =? 34 then Some 34            (* quote *)
  else if e =? 92 then Some 92       (* backslash *)
  else if e =? 47 then Some 47       (* slash *)
  else if e =? 98 then Some 8        (* b: backspace *)
  else if e =? 102 then Some 12      (* f: form feed *)
  else if e =? 110 then Some 10      (* n: line feed *)
  else if e =? 114 then Some 13      (* r: carriage return *)
  else if e =? 116 then Some 9       (* t: tab *)
  else None.

(** One unit of a string literal: a character, or the value of a \uXXXX
    escape. *)
Inductive unit_ := UChar (c : N) | UEsc (v : N).

(** The body of a string literal, after the opening quote, up to and
    including the closing quote (strict mode: no raw control character). *)
Fixpoint scan_units (s : str) : option (list unit_ * str) :=
  match s with
  | [] => None
  | c :: r =>
    if c =? 34 then Some ([], r)
    else if c =? 92 then
      match r with
      | [] => None
      | e :: r1 =>
        if e =? 117 then
          match r1 with
          | h1 :: h2 :: h3 :: h4 :: r2 =>
            match hex4 h1 h2 h3 h4 with
            | Some v =>
              match scan_units r2 with
              | Some (us, rest) => Some (UEsc v :: us, rest)
              | None => None
              end
            | None => None
            end
          | _ => None
          end
        else
          match backslash e with
          | Some ch =>
            match scan_units r1 with
            | Some (us, rest) => Some (UChar ch :: us, rest)
            | None => None
            end
          | None => None
          end
      end
    else if c <? 32 then None
    else
      match scan_units r with
      | Some (us, rest) => Some (UChar c :: us, rest)
      | None => None
      end
  end.

(** A high surrogate escape directly followed by a low surrogate escape is
    one character; any other escape is the character of its value. *)
Fixpoint join_surrogates (us : list unit_) : str :=
  match us with
  | [] => []
  | UChar c :: rest => c :: join_surrogates rest
  | UEsc v :: rest =>
    match rest with
    | UEsc v2 :: rest2 =>
      if (55296 <=? v) && (v <=? 56319) && (56320 <=? v2) && (v2 <=? 57343)
      then (65536 + ((v - 55296) * 1024 + (v2 - 56320))) :: join_surrogates rest2
      else v :: join_surrogates rest
    | _ => v :: join_surrogates rest
    end
  end.

(** [scanstring(s, end)], called just after the opening quote. *)
Definition scanstring (s : str) : option (str * str) :=
  match scan_units s with
  | Some (us, rest) => Some (join_surrogates us, rest)
  | None => None
  end.

(** The longest run of decimal digits at the head of [s]. *)
Fixpoint take_digits (s : str) : str * str :=
  match s with
  | [] => ([], [])
  | c :: r =>
    if is_digit c then let (ds, rest) := take_digits r in (c :: ds, rest)
    else ([], s)
  end.

Definition digits_value (ds : str) : N :=
  fold_left (fun a d => 10 * a + (d - 48)) ds 0.

(** [(\.\d+)?] *)
Definition scan_frac (s : str) : str * str :=
  match s with
  | c :: r =>
    if c =? 46 then
      match take_digits r with
      | ([], _) => ([], s)
      | (ds, rest) => (ds, rest)
      end
    else ([], s)
  | [] => ([], s)
  end.

(** [([eE][-+]?\d+)?]: the sign and the digits of the exponent. *)
Definition scan_exp (s : str) : option (bool * str) * str :=
  match s with
  | c :: r =>
    if (c =? 101) || (c =? 69) then
      let (sg, r1) :=
        match r with
        | x :: r' =>
          if x =? 45 then (true, r') else if x =? 43 then (false, r') else (false, r)
        | [] => (false, r)
        end in
      match take_digits r1 with
      | ([], _) => (None, s)
      | (ds, rest) => (Some (sg, ds), rest)
      end
    else (None, s)
  | [] => (None, s)
  end.

(** The digits of the integer part: a single 0, or a non-zero digit
    followed by digits. *)
Definition scan_int_digits (neg : bool) (s : str) : option (bool * str * str) :=
  match s with
  | d :: r =>
    if d =? 48 then Some (neg, [d], r)
    else if is_digit d then let (ds, rest) := take_digits r in Some (neg, d :: ds, rest)
    else None
  | [] => None
  end.

(** The integer part: an optional minus sign, then the digits. *)
Definition scan_int (s : str) : option (bool * str * str) :=
  match s with
  | c :: r => if c =? 45 then scan_int_digits true r else scan_int_digits false s
  | [] => None
  end.

(** [match_number]: an [int] when there is neither fraction nor exponent,
    a [float] otherwise. *)
Definition scan_number (s : str) : option (pyval * str) :=
  match scan_int s with
  | None => None
  | Some (neg, ids, r) =>
    let (fds, r1) := scan_frac r in
    let (ex, r2) := scan_exp r1 in
    match fds, ex with
    | [], None =>
      let z := Z.of_N (digits_value ids) in
      Some (PyInt (if neg then - z else z)%Z, r2)
    | _, _ =>
      let ev := match ex with
                | Some (sg, eds) =>
                  let z := Z.of_N (digits_value eds) in (if sg then - z else z)%Z
                | None => 0%Z
                end in
      Some (PyFloat (FDec neg (digits_value (ids ++ fds))
                          (ev - Z.of_nat (length fds))), r2)
    end
  end.

Definition lit_null : str := Eval vm_compute in u "null".
Definition lit_true : str := Eval vm_compute in u "true".
Definition lit_false : str := Eval vm_compute in u "false".
Definition lit_NaN : str := Eval vm_compute in u "NaN".
Definition lit_Infinity : str := Eval vm_compute in u "Infinity".
Definition lit_minus_Infinity : str := Eval vm_compute in u "-Infinity".

(** The values that are neither string, object nor array, in the order the
    scanner tries them. *)
Definition scan_atom (s : str) : option (pyval * str) :=
  match starts_with lit_null s with
  | Some r => Some (PyNone, r)
  | None =>
  match starts_with lit_true s with
  | Some r => Some (PyBool true, r)
  | None =>
  match starts_with lit_false s with
  | Some r => Some (PyBool false, r)
  | None =>
  match scan_number s with
  | Some res => Some res
  | None =>
  match starts_with lit_NaN s with
  | Some r => Some (PyFloat FNaN, r)
  | None =>
  match starts_with lit_Infinity s with
  | Some r => Some (PyFloat (FInf false), r)
  | None =>
  match starts_with lit_minus_Infinity s with
  | Some r => Some (PyFloat (FInf true), r)
  | None => None
  end end end end end end end.

(** [scan_once], [JSONObject] and [JSONArray]: [object_members] is at the
    opening quote of a key, [array_elements] at the start of an element.
    Every call consumes input, so [fuel] beyond twice the length of the
    text is never used up. *)
Fixpoint scan_once (fuel : nat) (s : str) : presult pyval :=
  match fuel with
  | O => NoFuel
  | S f =>
    match s with
    | [] => Invalid
    | c :: r =>
      if c =? 34 then
        match scanstring r with
        | Some (k, r') => Parsed (PyStr k) r'
        | None => Invalid
        end
      else if c =? 123 then
        match skip_ws r with
        | c1 :: r1 =>
          if c1 =? 125 then Parsed (PyDict []) r1
          else object_members f (c1 :: r1) []
        | [] => Invalid
        end
      else if c =? 91 then
        match skip_ws r with
        | c1 :: r1 =>
          if c1 =? 93 then Parsed (PyList []) r1
          else array_elements f (c1 :: r1) []
        | [] => Invalid
        end
      else
        match scan_atom s with
        | Some (v, r') => Parsed v r'
        | None => Invalid
        end
    end
  end

with object_members (fuel : nat) (s : str) (pairs : list (str * pyval)) : presult pyval :=
  match fuel with
  | O => NoFuel
  | S f =>
    match s with
    | [] => Invalid
    | c :: r =>
      if c =? 34 then
        match scanstring r with
        | None => Invalid
        | Some (key, r1) =>
          match skip_ws r1 with
          | [] => Invalid
          | c2 :: r2 =>
            if c2 =? 58 then
              match scan_once f (skip_ws r2) with
              | Parsed v r3 =>
                match skip_ws r3 with
                | [] => Invalid
                | c4 :: r4 =>
                  if c4 =? 125 then Parsed (PyDict (dict_of_pairs (pairs ++ [(key, v)]))) r4
                  else if c4 =? 44 then object_members f (skip_ws r4) (pairs ++ [(key, v)])
                  else Invalid
                end
              | Invalid => Invalid
              | NoFuel => NoFuel
              end
            else Invalid
          end
        end
      else Invalid
    end
  end

with array_elements (fuel : nat) (s : str) (values : list pyval) : presult pyval :=
  match fuel with
  | O => NoFuel
  | S f =>
    match scan_once f s with
    | Parsed v r =>
      match skip_ws r with
      | [] => Invalid
      | c :: r1 =>
        if c =? 93 then Parsed (PyList (values ++ [v])) r1
        else if c =? 44 then array_elements f (skip_ws r1) (values ++ [v])
        else Invalid
      end
    | Invalid => Invalid
    | NoFuel => NoFuel
    end
  end.

Definition json_fuel (s : str) : nat := 2 * length s + 1.

(** [json.loads(s)]: [None] stands for a raised [JSONDecodeError].  Integers
    of any length and nesting of any depth are read; CPython gives up on
    either beyond its limits with an exception of its own. *)
Definition json_loads (s : str) : option pyval :=
  let s1 := skip_ws s in
  match scan_once (json_fuel s1) s1 with
  | Parsed v r => match skip_ws r with [] => Some v | _ :: _ => None end
  | _ => None
  end.

(* ================================================================== *)
(** ** Safe JSON Extractor: [parse_json_safely] *)
(* ================================================================== *)

(** The first occurrence of [p] in [s]: what is before it and after it. *)
Fixpoint find_sub (p s : str) : option (str * str) :=
  match starts_with p s with
  | Some rest => Some ([], rest)
  | None =>
    match s with
    | [] => None
    | c :: r =>
      match find_sub p r with
      | Some (a, b) => Some (c :: a, b)
      | None => None
      end
    end
  end.

Definition fence_open : str := Eval vm_compute in u "```json".
Definition fence_close : str := Eval vm_compute in u "```".

(** [re.search(r"```json(.*?)```", text, flags=re.S)]: group 1 of the
    leftmost match, the text between the first "```json" and the first
    "```" after it. *)
Definition re_search_fence (text : str) : option str :=
  match find_sub fence_open text with
  | Some (_, r) =>
    match find_sub fence_close r with
    | Some (g, _) => Some g
    | None => None
    end
  | None => None
  end.

(** The suffix of [s] that starts at the first [c]. *)
Fixpoint from_first (c : N) (s : str) : option str :=
  match s with
  | [] => None
  | x :: r => if x =? c then Some s else from_first c r
  end.

(** The prefix of [s] that ends at the last [c]. *)
Definition up_to_last (c : N) (s : str) : option str :=
  match from_first c (rev s) with
  | Some r => Some (rev r)
  | None => None
  end.

(** [re.search(r"\{.*\}", text, flags=re.S)]: group 0, from the first "{"
    to the last "}" after it. *)
Definition re_search_braces (text : str) : option str :=
  match from_first c_lbrace text with
  | Some (b :: rest) =>
    match up_to_last c_rbrace rest with
    | Some body => Some (b :: body)
    | None => None
    end
  | _ => None
  end.

Definition parse_json_safely (text : str) : pyval :=
  if negb (nonempty text) then PyDict []
  else
    let text1 := match re_search_fence text with
                 | Some g => strip g
                 | None => text
                 end in
    let text2 := match re_search_braces text1 with
                 | Some g0 => g0
                 | None => text1
                 end in
    match json_loads text2 with
    | Some v => v
    | None => PyDict []
    end.

(** A JSON text inside a fenced block tagged [json]. *)
Definition wrap_in_fence (json_text : str) : str :=
  fence_open ++ [c_nl] ++ json_text ++ [c_nl] ++ fence_close.

(** A literal written with ' for each double quote. *)
Definition q (s : string) : str :=
  map (fun c => if c =? 39 then c_dquote else c) (u s).


(** The text [{"a": 1}], which contains no backtick. *)
Definition json_a_1 : str := q "{'a': 1}".

(** [s] is empty or its first character satisfies [p]. *)
Definition headb (p : N -> bool) (s : str) : bool :=
  match s with
  | [] => true
  | c :: _ => p c
  end.

(** What may follow a value inside a JSON text: whitespace, a comma, a
    closing bracket or brace, or the end of the text. *)
Definition is_follow (c : N) : bool :=
  is_json_ws c || (c =? 44) || (c =? 93) || (c =? 125).

Definition stop (s : str) : bool := headb is_follow s.

Definition nondigit (c : N) : bool := negb (is_digit c).
Definition is_e (c : N) : bool := (c =? 101) || (c =? 69).
Definition is_num_start (c : N) : bool := (c =? 45) || is_digit c.

(** A successful scan reads a non-empty prefix [c] of its input and does
    not depend on what follows it, as long as that may follow a value; any
    fuel above twice the length of [c] does. *)
Definition scan_once_local (f : nat) : Prop :=
  forall s v r, scan_once f s = Parsed v r ->
    exists c, s = c ++ r /\ c <> [] /\
      (forall d, v = PyDict d -> exists body, c = c_lbrace :: body ++ [c_rbrace]) /\
      forall f' x, stop x = true -> (2 * length c < f')%nat ->
                   scan_once f' (c ++ x) = Parsed v x.

Definition object_members_local (f : nat) : Prop :=
  forall s pairs v r, object_members f s pairs = Parsed v r ->
    exists c, s = c ++ r /\ (exists body, c = body ++ [c_rbrace]) /\
      forall f' x, (2 * length c < f')%nat ->
                   object_members f' (c ++ x) pairs = Parsed v x.

Definition array_elements_local (f : nat) : Prop :=
  forall s values v r, array_elements f s values = Parsed v r ->
    exists c, s = c ++ r /\ c <> [] /\ (forall d, v <> PyDict d) /\
      forall f' x, (2 * length c < f')%nat ->
                   array_elements f' (c ++ x) values = Parsed v x.

(** The fuel is enough: above twice the length of the input (plus one for
    the elements of an array) no scan ends for lack of fuel. *)
Definition fuel_suffices (f : nat) : Prop :=
  (forall s, (2 * length s < f)%nat -> scan_once f s <> NoFuel) /\
  (forall s pairs, (2 * length s < f)%nat -> object_members f s pairs <> NoFuel) /\
  (forall s values, (2 * length s + 1 < f)%nat -> array_elements f s values <> NoFuel).

(* ================================================================== *)
(** ** Ontology *)
(* ================================================================== *)

(** A relationship: a mapping whose values are strings or [None]. *)
Definition Relationship := dict (option str).

(** The ontology mapping; [None] is a key that is absent (for
    [relationships] also a null value). *)
Record Ontology := {
  themes : option (list str);
  keywords : option (list str);
  relationships : option (list Relationship)
}.

Definition k_source : str := Eval vm_compute in u "source".
Definition k_target : str := Eval vm_compute in u "target".
Definition k_relation : str := Eval vm_compute in u "relation".
Definition k_themes : str := Eval vm_compute in u "themes".
Definition k_keywords : str := Eval vm_compute in u "keywords".
Definition k_relationships : str := Eval vm_compute in u "relationships".

(** [v or ""] *)
Definition or_empty (v : option str) : str :=
  match v with
  | Some s => s
  | None => []
  end.

(** [r.get(k)]: [None] when the key is absent. *)
Definition get (r : Relationship) (k : str) : option str :=
  match dict_get k r with
  | Some v => v
  | None => None
  end.

(** [r.get(k, default)] *)
Definition get_default (r : Relationship) (k : str) (default : option str) : option str :=
  match dict_get k r with
  | Some v => v
  | None => default
  end.

(** [ontology.get(k, [])] and [ontology.get(k) or []], for a key that
    holds a list when present. *)
Definition get_list {A : Type} (field : option (list A)) : list A :=
  match field with
  | Some l => l
  | None => []
  end.

(* ================================================================== *)
(** ** Persona prompt: the template and the relationship lines *)
(* ================================================================== *)

Definition arrow : str := u " ↔ ".
Definition no_relationships : str := u "- (관계 없음)".

(** The body of the loop over the relationships: the line appended for [r],
    if any. *)
Definition rel_line (r : Relationship) : option str :=
  let s := strip (or_empty (get r k_source)) in
  let t := strip (or_empty (get r k_target)) in
  let rel := strip (or_empty (get r k_relation)) in
  if nonempty s && nonempty t then
    Some (if nonempty rel
          then u "- " ++ s ++ arrow ++ t ++ u " : " ++ rel
          else u "- " ++ s ++ arrow ++ t)
  else None.

(** [for r in ...: ... rel_lines.append(...)] *)
Fixpoint rel_lines_loop (rs : list Relationship) (rel_lines : list str) : list str :=
  match rs with
  | [] => rel_lines
  | r :: rest =>
    match rel_line r with
    | Some line => rel_lines_loop rest (rel_lines ++ [line])
    | None => rel_lines_loop rest rel_lines
    end
  end.

Definition relationships_bullets (ontology : Ontology) : str :=
  let rel_lines := rel_lines_loop (get_list (relationships ontology)) [] in
  match rel_lines with
  | [] => no_relationships
  | _ :: _ => join [c_nl] rel_lines
  end.

Definition prompt_seg0 : str := u "당신은 이제부터 **".

Definition prompt_seg1 : str := u "** 이며, 컨설팅을 받으러 온 **고객**입니다.
당신은 AI 어시스턴트가 아닙니다. 시뮬레이션 대화에 고객 역할로 참여합니다.
**모든 발화는 반드시 한국어로만** 하세요.

[퍼소나 & 근거자료]
- ".

Definition prompt_seg2 : str := u "의 말투/관심사/표현을 유지하세요.
- 아래 온톨로지와 과거 요약에 **반드시 기반**하여 말하세요.
- 근거 밖의 내용은 절대 추정하지 말고 “나는 잘 모른다.”라고 답하세요.

[온톨로지(Themes/Keywords/Relations)]
- 주제(5): ".

Definition prompt_seg3 : str := u "
- 키워드(10~50): ".

Definition prompt_seg4 : str := u "
- 관계(에지):
".

Definition prompt_seg5 : str := u "

[과거 요약]
".

Definition prompt_seg6 : str := u "

[대화 목표]
- 당신(고객)은 **자신의 사업**에 대한 컨설팅을 받으러 왔습니다.
- 당신의 임무는 **좋은 질문을 많이 던지는 것**이며, 필요할 때만 간결한 맥락을 제공합니다.

[대화 스타일 규칙 (한국어 전용)]
1) **질문 중심**: 거의 매 턴마다 내 사업의 목표·지표·고객·제약·타임라인·리스크에 대해 **핵심 질문 1~2개**를 던지세요.
2) **짧고 구체적으로**: 본인의 설명은 2~5문장 이내로 간결하게. 장문의 강의/설명 금지.
3) **퍼소나 유지**: ".

Definition prompt_seg7 : str := u "의 과거 요약과 온톨로지에 맞는 어휘/톤을 사용.
4) **근거만 사용**: 온톨로지/과거 요약에 없는 사실은 말하지 마세요. 모르면 “나는 잘 모른다.”
5) **티칭 모드 금지**: 프레임워크 강의/일방적 조언 대신 **묻고 확인**하는 대화로 이끕니다.
6) **점진적 파고들기**: 넓게 시작 → 빠르게 좁혀서 (시장/고객/가설/수치/예산/조직/리스크)로 파고드세요.
7) **역할 유지**: 시뮬레이션을 절대 깨지 말고, AI/시뮬레이션 언급 금지.

[오프닝 턴 가이드]
- 먼저 현재 상황을 **1~2문장**으로 요약하세요(온톨로지/과거 요약에 근거).
- 이어서 **핵심 질문 1~2개**를 던지세요.
".

(** The formatted string that [build_final_prompt] returns. *)
Definition prompt_template (name themes_list keywords_list relationships_bullets summary : str)
  : str :=
  prompt_seg0 ++ name ++ prompt_seg1 ++ name ++ prompt_seg2 ++ themes_list
  ++ prompt_seg3 ++ keywords_list ++ prompt_seg4 ++ relationships_bullets
  ++ prompt_seg5 ++ summary ++ prompt_seg6 ++ name ++ prompt_seg7.

(** The prompt for an ontology of the expected shape: what
    [build_final_prompt] returns on a mapping that [as_ontology] reads. *)
Definition build_final_prompt_shaped (name : str) (ontology : Ontology) (summary : str)
  : str :=
  let themes_list := join (u ", ") (get_list (themes ontology)) in
  let keywords_list := join (u ", ") (get_list (keywords ontology)) in
  prompt_template name themes_list keywords_list (relationships_bullets ontology) summary.

(** A relationship qualifies when its source and its target are non-empty
    after trimming. *)
Definition qualifies (r : Relationship) : bool :=
  nonempty (strip (or_empty (get r k_source)))
  && nonempty (strip (or_empty (get r k_target))).

(** The bullet line of a relationship, from its trimmed values. *)
Definition bullet (r : Relationship) : str :=
  let s := strip (or_empty (get r k_source)) in
  let t := strip (or_empty (get r k_target)) in
  let rel := strip (or_empty (get r k_relation)) in
  u "- " ++ s ++ arrow ++ t ++ (if nonempty rel then u " : " ++ rel else []).

(* ================================================================== *)
(** ** Request prompts *)
(* ================================================================== *)

Definition request_ontology_prompt (all_text : str) : str :=
  q "
다음 텍스트를 분석하여 **온톨로지(지식그래프)** 를 JSON으로 산출하라.

[출력 요구]
1) 'themes': 문자열 배열 (정확히 5개)
2) 'keywords': 문자열 배열 (최소 10, 최대 50)
3) 'relationships': 배열 (원소는 { 'source': 단어, 'target': 단어, 'relation': 관계설명 })

[예시]
{
  'themes': ['건강','자기관리','성취감','도전','실패'],
  'keywords': ['러닝','습관','목표','체력','멘탈','도전','실패','성장','꾸준함','회복력'],
  'relationships': [
    {'source':'건강','target':'자기관리','relation':'자기 관리를 통해 건강을 지킨다'},
    {'source':'도전','target':'성취감','relation':'도전을 통해 성취감을 얻는다'}
  ]
}

[분석 텍스트]
"
  ++ all_text ++
  q "
".

Definition request_summary_prompt (all_text : str) : str :=
  u "
아래 텍스트를 바탕으로, 이 사람의 **과거 경험·관심사·반복 주제·말투**를 한국어로 간결하게 요약하라.
- 불필요한 일반론 금지, 텍스트 내용에 근거할 것.
- 5~10문장 이내.

텍스트:
"
  ++ all_text ++
  u "
".

(* ================================================================== *)
(** ** Streaming Completion Sink: the stream *)
(* ================================================================== *)

(** What [model.generate_content(prompt, stream=True)] gives when it is
    iterated: a chunk (whose [text] may be missing or [None]) and the rest,
    the end of the stream, or an exception with its message.  A call that
    raises before any chunk is [StreamRaise] alone. *)
Inductive response :=
| StreamEnd
| StreamRaise (e : str)
| StreamChunk (t : option str) (rest : response).

(** The texts of the chunks that arrive before the stream ends or fails. *)
Fixpoint arrived (resp : response) : list str :=
  match resp with
  | StreamEnd => []
  | StreamRaise _ => []
  | StreamChunk chunk rest => or_empty chunk :: arrived rest
  end.

(** The exception that ends the stream, if it fails. *)
Fixpoint failure (resp : response) : option str :=
  match resp with
  | StreamEnd => None
  | StreamRaise e => Some e
  | StreamChunk _ rest => failure rest
  end.

(** The buffers shown while the texts [ts] are added to [buffer] one by
    one. *)
Fixpoint running (buffer : str) (ts : list str) : list str :=
  match ts with
  | [] => []
  | t :: rest => (buffer ++ t) :: running (buffer ++ t) rest
  end.

(* ================================================================== *)
(** ** Graph Builder: [nx.Graph] *)
(* ================================================================== *)

(** The [label] attribute of an edge: [rel.get("relation", "")]. *)
Definition label := option str.

(** The adjacency [G._adj]: node, then neighbour, then the edge data.  The
    nodes [G._node] are its keys, in the same order. *)
Definition Graph := dict (dict label).

Definition nodes (G : Graph) : list str := map fst G.

(** [G._adj[n]], empty for a node that is not in the graph. *)
Definition neighbours (n : str) (G : Graph) : dict label :=
  match dict_get n G with
  | Some nbrs => nbrs
  | None => []
  end.

(** [if n not in self._node: self._adj[n] = {}; self._node[n] = {}] *)
Definition add_node (n : str) (G : Graph) : Graph :=
  if dict_mem n G then G else dict_set n [] G.

(** [G.add_edge(u, v, label=lbl)] *)
Definition add_edge (u_of_edge v_of_edge : str) (lbl : label) (G : Graph) : Graph :=
  let G := add_node u_of_edge G in
  let G := add_node v_of_edge G in
  let G := dict_set u_of_edge (dict_set v_of_edge lbl (neighbours u_of_edge G)) G in
  dict_set v_of_edge (dict_set u_of_edge lbl (neighbours v_of_edge G)) G.

Definition mem (x : str) (l : list str) : bool := existsb (str_eqb x) l.

(** [G.edges()]: each node in turn with its neighbours, but for those
    already seen as a node. *)
Fixpoint edges_from (rows : Graph) (seen : list str) : list (str * str) :=
  match rows with
  | [] => []
  | (n, nbrs) :: rest =>
    map (fun nbr => (n, nbr)) (filter (fun nbr => negb (mem nbr seen)) (map fst nbrs))
    ++ edges_from rest (n :: seen)
  end.

Definition edges (G : Graph) : list (str * str) := edges_from G [].

(** [G[a][b]["label"]], when there is an edge between [a] and [b]. *)
Definition edge_label (G : Graph) (a b : str) : option label :=
  dict_get b (neighbours a G).

(** [if s and t] on values that are strings or [None]. *)
Definition truthy_str (v : option str) : bool := nonempty (or_empty v).

(** The body of [for rel in edges]. *)
Definition add_relationship (G : Graph) (rel : Relationship) : Graph :=
  let s := get rel k_source in
  let t := get rel k_target in
  let lbl := get_default rel k_relation (Some []) in
  if truthy_str s && truthy_str t then add_edge (or_empty s) (or_empty t) lbl G
  else G.

Definition build_graph (edges : list Relationship) : Graph :=
  fold_left add_relationship edges [].

(** An entry of [G.edges()] joins [a] and [b], in either direction. *)
Definition joins (a b : str) (e : str * str) : bool :=
  (str_eqb (fst e) a && str_eqb (snd e) b) || (str_eqb (fst e) b && str_eqb (snd e) a).

(** A relationship the builder keeps and that joins [a] and [b]. *)
Definition connects (a b : str) (rel : Relationship) : bool :=
  truthy_str (get rel k_source) && truthy_str (get rel k_target)
  && joins a b (or_empty (get rel k_source), or_empty (get rel k_target)).

(** The label of the last relationship of the list that connects [a] and
    [b]. *)
Definition last_label (rels : list Relationship) (a b : str) : option label :=
  match find (connects a b) (rev rels) with
  | Some rel => Some (get_default rel k_relation (Some []))
  | None => None
  end.

(** A graph as [add_edge] leaves it: each node once, each neighbour of a
    node once. *)
Definition graph_wf (G : Graph) : Prop :=
  NoDup (nodes G) /\ forall n, NoDup (map fst (neighbours n G)).

(** The entries of [G.edges()] that join [a] and [b]. *)
Definition edges_between (G : Graph) (a b : str) : list (str * str) :=
  filter (joins a b) (edges G).

(** The entries [G.edges()] lists for the node [n]. *)
Definition row_edges (n : str) (nbrs : dict label) (seen : list str) : list (str * str) :=
  map (fun nbr => (n, nbr)) (filter (fun nbr => negb (mem nbr seen)) (map fst nbrs)).

(** [b] is a neighbour of [a] in the rows. *)
Definition adjacent (rows : Graph) (a b : str) : Prop :=
  dict_get b (neighbours a rows) <> None.

(** The relationship [{"source": s, "target": t, "relation": r}]. *)
Definition rel3 (s t r : str) : Relationship :=
  [(k_source, Some s); (k_target, Some t); (k_relation, Some r)].

(** A relationship whose source is a single space. *)
Definition rel_blank_source : Relationship := rel3 (u " ") (u "B") (u "r").

(* ================================================================== *)
(** ** The page: display, layout, cache *)
(* ================================================================== *)

(** [parse_json_safely] hands back what [json.loads] read; the functions
    that render an ontology take it as a mapping of the Ontology shape.
    [as_relationship] and [as_ontology] read such a mapping off the parsed
    value; they answer [None] for a value of another shape. *)
Definition as_field (d : dict pyval) (k : str) : option (list (str * option str)) :=
  match dict_get k d with
  | None => Some []
  | Some PyNone => Some [(k, None)]
  | Some (PyStr s) => Some [(k, Some s)]
  | Some _ => None
  end.

Definition as_relationship (v : pyval) : option Relationship :=
  match v with
  | PyDict d =>
    match as_field d k_source, as_field d k_target, as_field d k_relation with
    | Some a, Some b, Some c => Some (a ++ b ++ c)
    | _, _, _ => None
    end
  | _ => None
  end.

Fixpoint all_some {A : Type} (l : list (option A)) : option (list A) :=
  match l with
  | [] => Some []
  | Some a :: rest =>
    match all_some rest with
    | Some r => Some (a :: r)
    | None => None
    end
  | None :: _ => None
  end.

Definition as_str (v : pyval) : option str :=
  match v with
  | PyStr s => Some s
  | _ => None
  end.

Definition as_str_list (d : dict pyval) (k : str) : option (option (list str)) :=
  match dict_get k d with
  | None => Some None
  | Some (PyList l) =>
    match all_some (map as_str l) with
    | Some strs => Some (Some strs)
    | None => None
    end
  | Some _ => None
  end.

Definition as_ontology (d : dict pyval) : option Ontology :=
  match as_str_list d k_themes, as_str_list d k_keywords with
  | Some th, Some kw =>
    match dict_get k_relationships d with
    | None => Some {| themes := th; keywords := kw; relationships := None |}
    | Some PyNone => Some {| themes := th; keywords := kw; relationships := None |}
    | Some (PyList l) =>
      match all_some (map as_relationship l) with
      | Some rels => Some {| themes := th; keywords := kw; relationships := Some rels |}
      | None => None
      end
    | Some _ => None
    end
  | _, _ => None
  end.

(* ================================================================== *)
(** ** Persona prompt: [build_final_prompt] *)
(* ================================================================== *)

(** [sep.join(v)]: [v] is iterated and every item has to be a string. *)
Definition py_join (sep : str) (v : pyval) : result str :=
  and_then (py_iter v) (fun items =>
  match all_some (map as_str items) with
  | Some strs => Returns (join sep strs)
  | None => Raises
  end).

(** [(r.get(k) or "").strip()]: a truthy value that is no string has no
    [strip]. *)
Definition stripped (r : pyval) (k : str) : result str :=
  and_then (py_get r k PyNone) (fun x =>
  match py_or x (PyStr []) with
  | PyStr s => Returns (strip s)
  | _ => Raises
  end).

(** The body of the loop over the relationships: the line appended for [r],
    if any. *)
Definition py_rel_line (r : pyval) : result (option str) :=
  and_then (stripped r k_source) (fun s =>
  and_then (stripped r k_target) (fun t =>
  and_then (stripped r k_relation) (fun rel =>
  Returns (if nonempty s && nonempty t then
             Some (if nonempty rel
                   then u "- " ++ s ++ arrow ++ t ++ u " : " ++ rel
                   else u "- " ++ s ++ arrow ++ t)
           else None)))).

Fixpoint py_rel_lines_loop (rs : list pyval) (rel_lines : list str) : result (list str) :=
  match rs with
  | [] => Returns rel_lines
  | r :: rest =>
    and_then (py_rel_line r) (fun line =>
    match line with
    | Some l => py_rel_lines_loop rest (rel_lines ++ [l])
    | None => py_rel_lines_loop rest rel_lines
    end)
  end.

(** [build_final_prompt(name, ontology, summary)] on the value that
    [parse_json_safely] returned. *)
Definition build_final_prompt (name : str) (ontology : pyval) (summary : str)
  : result str :=
  and_then (py_get ontology k_themes (PyList [])) (fun th =>
  and_then (py_join (u ", ") th) (fun themes_list =>
  and_then (py_get ontology k_keywords (PyList [])) (fun kw =>
  and_then (py_join (u ", ") kw) (fun keywords_list =>
  and_then (py_get ontology k_relationships PyNone) (fun rels =>
  and_then (py_iter (py_or rels (PyList []))) (fun rs =>
  and_then (py_rel_lines_loop rs []) (fun rel_lines =>
  let relationships_bullets :=
    match rel_lines with
    | [] => no_relationships
    | _ :: _ => join [c_nl] rel_lines
    end in
  Returns (prompt_template name themes_list keywords_list relationships_bullets
                           summary)))))))).

(** One entry of [st.session_state.analysis]. *)
Record AnalysisResult := {
  ontology : pyval;
  summary : str;
  final_prompt : str
}.

Section App.

(** The layout library.  A coordinate is a float; [rng] is the state of a
    random generator, [RandomState seed] the generator started from an
    integer seed, and [fruchterman_reingold G dim g] the force-directed
    layout computed with the generator [g]: the positions and the
    generator afterwards. *)
Context {coord : Type} {rng : Type}.
Variable RandomState : N -> rng.
Variable fruchterman_reingold :
  Graph -> nat -> rng -> (str -> coord * coord * coord) * rng.

(** The completion service: the response of its [n]-th call to a
    prompt. *)
Variable generate_content : nat -> str -> response.

(** [go.Figure] with its two traces and its title. *)
Record figure := {
  x_nodes : list coord;
  y_nodes : list coord;
  z_nodes : list coord;
  node_text : list str;
  edge_x : list (option coord);
  edge_y : list (option coord);
  edge_z : list (option coord);
  fig_title : str
}.

(** What the page is asked to do, in order: the display calls, and the
    calls of the layout.  [Title] and [CodeBlock] are the two
    placeholders of [stream_generate_text]. *)
Inductive event :=
| Markdown (body : str)
| Code (body lang : str)
| JsonCode (v : pyval)
| Write (body : str)
| Dataframe (rows : list Relationship)
| Info (msg : str)
| Error (msg : str)
| DownloadButton (file_name data key : str)
| Title (body : str)
| CodeBlock (body lang : str)
| SpringLayout (G : Graph) (dim : nat) (seed : option N)
| PlotlyChart (fig : figure).

(** Rendering is dynamically typed: on a mapping that is not of the
    Ontology shape the table and the chart end in some display, or raise
    ([None]).  Which of these happens is left open. *)
Variable render_other : str -> dict pyval -> option (list event).

(** *** [stream_generate_text] *)

Definition title_generating : str := u "**📡 실시간 출력(원문)** — 생성 중…".
Definition title_received : str := u "**📡 실시간 출력(원문)** — ✅ 수신 완료".
Definition title_error : str := u "**📡 실시간 출력(원문)** — ❌ 오류".
Definition streaming_error (e : str) : str := u "Streaming error: " ++ e.

(** The [for chunk in resp] loop: the buffer when the loop is left, what
    was shown meanwhile, and the exception that ended the loop, if any. *)
Fixpoint consume (resp : response) (lang_hint : str) (buffer : str)
  : str * list event * option str :=
  match resp with
  | StreamEnd => (buffer, [], None)
  | StreamRaise e => (buffer, [], Some e)
  | StreamChunk chunk rest =>
    let t := or_empty chunk in
    if negb (nonempty t) then consume rest lang_hint buffer
    else
      let buffer := buffer ++ t in
      let '(final, shown, exc) := consume rest lang_hint buffer in
      (final, CodeBlock buffer lang_hint :: shown, exc)
  end.

(** [stream_generate_text(model, prompt, lang_hint)]: the returned buffer
    and what was shown. *)
Definition stream_generate_text (model : str -> response)
    (prompt : str) (lang_hint : str) : str * list event :=
  let '(buffer, shown, exc) := consume (model prompt) lang_hint [] in
  (buffer,
   [Title title_generating] ++ shown ++
   match exc with
   | None => [Title title_received]
   | Some e => [Title title_error; CodeBlock (streaming_error e) (u "text")]
   end).

(** *** The state of the page *)

Record world := {
  analysis : dict AnalysisResult;   (* st.session_state.analysis *)
  calls : nat;                      (* calls of the completion service so far *)
  generator : rng;                  (* the global random generator *)
  shown : list event
}.

Inductive outcome (A : Type) :=
| Done (a : A)
| Raised.
Arguments Done {A} a.
Arguments Raised {A}.

Definition M (A : Type) := world -> outcome A * world.

Definition ret {A : Type} (a : A) : M A := fun w => (Done a, w).

Definition bind {A B : Type} (m : M A) (k : A -> M B) : M B :=
  fun w =>
    match m w with
    | (Done a, w') => k a w'
    | (Raised, w') => (Raised, w')
    end.

Definition raise {A : Type} : M A := fun w => (Raised, w).

Notation "x <- m ;; k" := (bind m (fun x => k))
  (at level 61, m at next level, right associativity).
Notation "m ;; k" := (bind m (fun _ => k))
  (at level 61, right associativity).

Definition show_all (es : list event) : M unit :=
  fun w => (Done tt, {| analysis := analysis w; calls := calls w;
                        generator := generator w; shown := shown w ++ es |}).

Definition show (e : event) : M unit := show_all [e].

(** A display call sends its text to the browser encoded as UTF-8: the
    call raises on a text that cannot be encoded. *)
Definition encodable_relationship (r : Relationship) : bool :=
  forallb (fun kv => encodable (fst kv) && encodable (or_empty (snd kv))) r.

Definition displayable (e : event) : bool :=
  match e with
  | Markdown body => encodable body
  | Code body lang => encodable body && encodable lang
  | JsonCode v => encodable_value v
  | Write body => encodable body
  | Dataframe rows => forallb encodable_relationship rows
  | Info msg => encodable msg
  | Error msg => encodable msg
  | DownloadButton file_name _ key => encodable file_name && encodable key
  | Title body => encodable body
  | CodeBlock body lang => encodable body && encodable lang
  | SpringLayout _ _ _ => true
  | PlotlyChart fig => encodable (fig_title fig) && forallb encodable (node_text fig)
  end.

(** A display call whose text comes from the data.  The call is recorded
    whether it raises or not.  ([show] is used for the calls whose text is a
    literal of the source, which can be encoded.) *)
Definition display (e : event) : M unit :=
  fun w => (if displayable e then Done tt else Raised,
            {| analysis := analysis w; calls := calls w;
               generator := generator w; shown := shown w ++ [e] |}).

(** [s.encode("utf-8")], evaluated for the data of the download button. *)
Definition encode_utf8 (s : str) : M unit :=
  fun w => (if encodable s then Done tt else Raised, w).

(** One streamed call of the completion service. *)
Definition stream (prompt lang_hint : str) : M str :=
  fun w =>
    let (buffer, es) := stream_generate_text (generate_content (calls w)) prompt lang_hint in
    (Done buffer, {| analysis := analysis w; calls := S (calls w);
                     generator := generator w; shown := shown w ++ es |}).

(** [st.session_state.analysis[name] = entry] *)
Definition cache_set (name : str) (entry : AnalysisResult) : M unit :=
  fun w => (Done tt, {| analysis := dict_set name entry (analysis w); calls := calls w;
                        generator := generator w; shown := shown w |}).

(** *** [plot_ontology_3d] *)

(** [nx.spring_layout(G, dim=dim, seed=seed)]: an integer seed starts a
    generator of its own; without a seed the global generator is used. *)
Definition spring_layout (G : Graph) (dim : nat) (seed : option N)
  : M (str -> coord * coord * coord) :=
  fun w =>
    let w1 := {| analysis := analysis w; calls := calls w; generator := generator w;
                 shown := shown w ++ [SpringLayout G dim seed] |} in
    match seed with
    | Some n => (Done (fst (fruchterman_reingold G dim (RandomState n))), w1)
    | None =>
      let (pos, g) := fruchterman_reingold G dim (generator w) in
      (Done pos, {| analysis := analysis w1; calls := calls w1; generator := g;
                    shown := shown w1 |})
    end.

Definition no_edges_msg : str := u "관계(에지)가 없어 그래프를 그릴 수 없습니다.".

Definition coord_x (p : coord * coord * coord) : coord := fst (fst p).
Definition coord_y (p : coord * coord * coord) : coord := snd (fst p).
Definition coord_z (p : coord * coord * coord) : coord := snd p.

(** The figure drawn from the graph and the positions of its nodes; after
    the two ends of each edge comes the gap [None]. *)
Definition make_figure (G : Graph) (pos : str -> coord * coord * coord) (title : str)
  : figure :=
  {| x_nodes := map (fun n => coord_x (pos n)) (nodes G);
     y_nodes := map (fun n => coord_y (pos n)) (nodes G);
     z_nodes := map (fun n => coord_z (pos n)) (nodes G);
     node_text := nodes G;
     edge_x := flat_map (fun e => [Some (coord_x (pos (fst e)));
                                   Some (coord_x (pos (snd e))); None]) (edges G);
     edge_y := flat_map (fun e => [Some (coord_y (pos (fst e)));
                                   Some (coord_y (pos (snd e))); None]) (edges G);
     edge_z := flat_map (fun e => [Some (coord_z (pos (fst e)));
                                   Some (coord_z (pos (snd e))); None]) (edges G);
     fig_title := title |}.

Definition plot_ontology_3d (ontology : Ontology) (title : str) : M unit :=
  let edges := get_list (relationships ontology) in
  match edges with
  | [] => show (Info no_edges_msg)
  | _ :: _ =>
    let G := build_graph edges in
    pos <- spring_layout G 3 (Some 42) ;;
    show (PlotlyChart (make_figure G pos title))
  end.

(** What [plot_ontology_3d] adds to the display: for a list that is not
    empty, the layout call with the fixed seed and the chart. *)
Definition plot_events (ontology : Ontology) (title : str) : list event :=
  match get_list (relationships ontology) with
  | [] => [Info no_edges_msg]
  | r :: rels =>
    let G := build_graph (r :: rels) in
    [SpringLayout G 3 (Some 42);
     PlotlyChart (make_figure G (fst (fruchterman_reingold G 3 (RandomState 42))) title)]
  end.

(** *** [analyze_and_render_streaming] *)

Definition graph_title (name : str) : str := name ++ u " 온톨로지 그래프".

(** [if ontology.get("relationships"): ...]: the table and the graph. *)
Definition render_relationships (name : str) (ontology : pyval) : M unit :=
  match ontology with
  | PyDict d =>
    match as_ontology d with
    | Some o =>
      match relationships o with
      | Some (r :: rels) =>
        show (Markdown (u "#### 📌 온톨로지 (관계 테이블)")) ;;
        show (Dataframe (r :: rels)) ;;
        show (Markdown (u "#### 📌 온톨로지 3D 그래프")) ;;
        plot_ontology_3d o (graph_title name)
      | _ => ret tt
      end
    | None =>
      match render_other name d with
      | Some es => show_all es
      | None => raise
      end
    end
  | _ => raise
  end.

(** [build_final_prompt(name, ontology, summary)], called by the page. *)
Definition final_prompt_of (name : str) (ontology : pyval) (summary : str) : M str :=
  match build_final_prompt name ontology summary with
  | Returns p => ret p
  | Raises => raise
  end.

Definition download_button (name final_prompt key : str) : event :=
  DownloadButton (name ++ u "_final_prompt.txt") final_prompt key.

(** The table and the chart come after the JSON of the ontology has been
    displayed, so the strings of the ontology they show can be encoded; the
    name has been displayed by the expander that holds the button. *)
Definition analyze_and_render_streaming (name all_text : str) : M unit :=
  show (Markdown (u "#### 📡 온톨로지 생성 스트림")) ;;
  raw_ontology_text <- stream (request_ontology_prompt all_text) (u "json") ;;
  let ontology := parse_json_safely raw_ontology_text in
  if negb (truthy ontology) then
    show (Error (u "온톨로지 JSON 파싱 실패 (스트림 원문을 확인하세요)."))
  else
    show (Markdown (u "#### 📌 온톨로지 (JSON)")) ;;
    display (JsonCode ontology) ;;
    render_relationships name ontology ;;
    show (Markdown (u "#### 📡 과거 요약 생성 스트림")) ;;
    raw_summary_text <- stream (request_summary_prompt all_text) (u "markdown") ;;
    let summary := strip raw_summary_text in
    show (Markdown (u "#### 📌 과거 요약")) ;;
    display (Write summary) ;;
    final_prompt <- final_prompt_of name ontology summary ;;
    show (Markdown (u "#### 🧾 최종 프롬프트 (한국어·고객역할)")) ;;
    display (Code final_prompt (u "markdown")) ;;
    encode_utf8 final_prompt ;;
    display (download_button name final_prompt (u "dl_" ++ name)) ;;
    cache_set name {| ontology := ontology; summary := summary;
                      final_prompt := final_prompt |}.

(** *** The button of one person *)

(** The branch taken when [name in st.session_state.analysis]. *)
Definition show_cached (name : str) (cached : AnalysisResult) : M unit :=
  show (Info (u "이미 분석된 결과가 있어 캐시를 사용합니다. 재분석하려면 페이지 새로고침.")) ;;
  show (Markdown (u "#### 📌 온톨로지 (JSON)")) ;;
  display (JsonCode (ontology cached)) ;;
  render_relationships name (ontology cached) ;;
  show (Markdown (u "#### 📌 과거 요약")) ;;
  display (Write (summary cached)) ;;
  show (Markdown (u "#### 🧾 최종 프롬프트 (한국어·고객역할)")) ;;
  display (Code (final_prompt cached) (u "markdown")) ;;
  encode_utf8 (final_prompt cached) ;;
  display (download_button name (final_prompt cached) (u "dl_cached_" ++ name)).

(** What a press of the button of [name] runs; [model] is false when no
    model could be set up. *)
Definition extract_button (model : bool) (name all_text : str) : M unit :=
  fun w =>
    if negb model then
      show (Error (u "Gemini API Key를 입력하거나 모델을 다시 선택하세요.")) w
    else
      match dict_get name (analysis w) with
      | Some cached => show_cached name cached w
      | None => analyze_and_render_streaming name all_text w
      end.

(** *** What a computation does to the cache and to the service *)

(** The ontology that an analysis started in [w] reads from the service. *)
Definition ontology_of_run (w : world) (all_text : str) : pyval :=
  parse_json_safely
    (fst (stream_generate_text (generate_content (calls w))
                               (request_ontology_prompt all_text) (u "json"))).

(** [m] neither writes the cache nor calls the service. *)
Definition quiet {A : Type} (m : M A) : Prop :=
  forall w, analysis (snd (m w)) = analysis w /\ calls (snd (m w)) = calls w.

(** [m] does not write the cache. *)
Definition no_write {A : Type} (m : M A) : Prop :=
  forall w, analysis (snd (m w)) = analysis w /\ (calls w <= calls (snd (m w)))%nat.

(** [m] writes the entry of [name], holding the ontology [ont], when it
    runs to its end, and leaves the cache as it is when it raises. *)
Definition writes_when_done (name : str) (ont : pyval) (m : M unit) : Prop :=
  forall w,
    (calls w <= calls (snd (m w)))%nat /\
    match fst (m w) with
    | Done _ => exists entry, ontology entry = ont /\
                              analysis (snd (m w)) = dict_set name entry (analysis w)
    | Raised => analysis (snd (m w)) = analysis w
    end.

End App.

Arguments figure : clear implicits.
Arguments event : clear implicits.
Arguments world : clear implicits.
Arguments M : clear implicits.
Arguments Done {A} a.
Arguments Raised {A}.

(** A relationship whose source is the empty string, and the ontology that
    has this relationship alone. *)
Definition rel_no_source : Relationship :=
  [(k_source, Some []); (k_target, Some (u "B"))].

Definition ontology_invalid_only : Ontology :=
  {| themes := None; keywords := None; relationships := Some [rel_no_source] |}.


Definition origin_layout (G : Graph) (dim : nat) (g : unit)
  : (str -> unit * unit * unit) * unit :=
  (fun _ => (tt, tt, tt), g).


(* ================================================================== *)
(** ** Row Source: [fetch_notion_rows] *)
(* ================================================================== *)

(** What the Notion client returns is parsed JSON; the function reads it
    with [.get], indexing and truth tests, each of which may raise. *)

Definition k_properties : str := Eval vm_compute in u "properties".
Definition k_name : str := Eval vm_compute in u "이름".
Definition k_text : str := Eval vm_compute in u "텍스트".
Definition k_title : str := Eval vm_compute in u "title".
Definition k_rich_text : str := Eval vm_compute in u "rich_text".
Definition k_plain_text : str := Eval vm_compute in u "plain_text".
Definition k_text_obj : str := Eval vm_compute in u "text".
Definition k_content : str := Eval vm_compute in u "content".
Definition k_results : str := Eval vm_compute in u "results".
Definition k_has_more : str := Eval vm_compute in u "has_more".
Definition k_next_cursor : str := Eval vm_compute in u "next_cursor".
Definition unnamed : str := Eval vm_compute in u "이름없음".

(** The value read inside one [try] block, for the property [key] and its
    list [kind] ([title] or [rich_text]). *)
Definition plain_text_try (props : pyval) (key kind : str) : result pyval :=
  and_then (py_get props key (PyDict [])) (fun prop =>
  and_then (py_get prop kind (PyList [])) (fun items =>
  if truthy items then
    and_then (py_first items) (fun item =>
    and_then (py_get item k_plain_text PyNone) (fun plain =>
    if truthy plain then Returns plain
    else
      and_then (py_first items) (fun item' =>
      and_then (py_get item' k_text_obj (PyDict [])) (fun t =>
      py_get t k_content (PyStr [])))))
  else Returns (PyStr []))).

(** [name = ""; try: ... except Exception: pass]: an exception leaves the
    empty string. *)
Definition plain_text_of (props : pyval) (key kind : str) : pyval :=
  match plain_text_try props key kind with
  | Returns v => v
  | Raises => PyStr []
  end.

(** One appended row, [{"이름": ..., "텍스트": ...}]. *)
Record fetched_row := { row_name : pyval; row_text : pyval }.

(** The body of [for row in resp.get("results", [])]; [row.get] is outside
    the [try] blocks. *)
Definition row_of (row : pyval) : result fetched_row :=
  and_then (py_get row k_properties (PyDict [])) (fun props =>
  let name := plain_text_of props k_name k_title in
  let text := plain_text_of props k_text k_rich_text in
  Returns {| row_name := py_or name (PyStr unnamed);
             row_text := py_or text (PyStr []) |}).

Fixpoint rows_of (items : list pyval) : result (list fetched_row) :=
  match items with
  | [] => Returns []
  | row :: rest =>
    and_then (row_of row) (fun r =>
    and_then (rows_of rest) (fun rs => Returns (r :: rs)))
  end.

(** The rows of one response. *)
Definition page_rows (resp : pyval) : result (list fetched_row) :=
  and_then (py_get resp k_results (PyList [])) (fun results =>
  and_then (py_iter results) rows_of).

(** After the rows: [None] to leave the loop, or the next cursor. *)
Definition page_next (resp : pyval) : result (option pyval) :=
  and_then (py_get resp k_has_more PyNone) (fun has_more =>
  if truthy has_more then
    and_then (py_get resp k_next_cursor PyNone) (fun c => Returns (Some c))
  else Returns None).

(** [start_cursor=cursor] is passed only [if cursor]. *)
Definition cursor_arg (cursor : pyval) : option pyval :=
  if truthy cursor then Some cursor else None.

Inductive fetched :=
| Fetched (rows : list fetched_row)
| FetchRaises
| FetchNoFuel.

(** The [while True] loop; [query n c] is what the [n]-th call of
    [notion.databases.query] returns for the cursor argument [c] ([None]
    when it raises).  The loop may go on for ever: [fuel] bounds the number
    of queries. *)
Fixpoint fetch_loop (fuel : nat) (query : nat -> option pyval -> option pyval)
    (n : nat) (cursor : pyval) (rows : list fetched_row) : fetched :=
  match fuel with
  | O => FetchNoFuel
  | S f =>
    match query n (cursor_arg cursor) with
    | None => FetchRaises
    | Some resp =>
      match page_rows resp with
      | Raises => FetchRaises
      | Returns new =>
        match page_next resp with
        | Raises => FetchRaises
        | Returns None => Fetched (rows ++ new)
        | Returns (Some c) => fetch_loop f query (S n) c (rows ++ new)
        end
      end
    end
  end.

Definition fetch_notion_rows (fuel : nat) (query : nat -> option pyval -> option pyval)
  : fetched :=
  fetch_loop fuel query 0 PyNone [].

(** [query] serves the pages [pages], one per call from the [n]-th call
    on: each page but the last says [has_more] and gives the cursor of the
    next one. *)
Fixpoint serves (query : nat -> option pyval -> option pyval) (n : nat)
    (cursor : pyval) (pages : list pyval) : Prop :=
  match pages with
  | [] => False
  | resp :: rest =>
    query n (cursor_arg cursor) = Some resp /\
    match rest with
    | [] => page_next resp = Returns None
    | _ :: _ => exists c, page_next resp = Returns (Some c) /\ serves query (S n) c rest
    end
  end.

(** The rows of the pages, in order. *)
Fixpoint pages_rows (pages : list pyval) : result (list fetched_row) :=
  match pages with
  | [] => Returns []
  | resp :: rest =>
    and_then (page_rows resp) (fun rs =>
    and_then (pages_rows rest) (fun rs' => Returns (rs ++ rs')))
  end.

(** A row as the database gives it, with one title and one text item. *)
Definition notion_row (name text : str) : pyval :=
  PyDict [(k_properties,
           PyDict [(k_name, PyDict [(k_title, PyList [PyDict [(k_plain_text, PyStr name)]])]);
                   (k_text, PyDict [(k_rich_text, PyList [PyDict [(k_plain_text, PyStr text)]])])])].

(** A response with its rows, [has_more] and [next_cursor]. *)
Definition notion_page (rows : list pyval) (has_more : bool) (next : pyval) : pyval :=
  PyDict [(k_results, PyList rows); (k_has_more, PyBool has_more); (k_next_cursor, next)].

(** A database of two pages: the second is asked for with the cursor "c1". *)
Definition two_pages : list pyval :=
  [ notion_page [notion_row (u "Kim") (u "a"); notion_row [] (u "b")] true (PyStr (u "c1"));
    notion_page [notion_row (u "Lee") []] false PyNone ].

Definition two_pages_query (n : nat) (c : option pyval) : option pyval :=
  match c with
  | None => nth_error two_pages 0
  | Some _ => nth_error two_pages 1
  end.

(** A service that always answers the first page, saying [has_more]
    without a cursor. *)
Definition stuck_page : pyval := notion_page [notion_row (u "Kim") (u "a")] true PyNone.
Definition stuck_query (n : nat) (c : option pyval) : option pyval := Some stuck_page.

Definition is_dict (v : pyval) : bool :=
  match v with
  | PyDict _ => true
  | _ => false
  end.


(** What every appended row satisfies. *)
Definition row_ok (r : fetched_row) : Prop :=
  truthy (row_name r) = true /\ (truthy (row_text r) = true \/ row_text r = PyStr []).

(* ================================================================== *)
(** ** Safe JSON Extractor: the text that is searched for braces *)
(* ================================================================== *)

(** [text] after the fence step of [parse_json_safely]: the stripped group
    of the fence match, or [text] itself. *)
Definition fence_or_text (text : str) : str :=
  match re_search_fence text with
  | Some g => strip g
  | None => text
  end.

(** Two objects one after the other, as a model may answer. *)
Definition two_objects : str := q "{'a':1} {'b':2}".
Definition answer_in_prose : str := q "Here it is: {'a':1} - done.".

(* ================================================================== *)
(** ** Streaming Completion Sink: what the code placeholder shows *)
(* ================================================================== *)

(** The bodies the code placeholder is filled with, in order. *)
Fixpoint code_blocks {coord : Type} (es : list (event coord)) : list str :=
  match es with
  | [] => []
  | CodeBlock b _ :: rest => b :: code_blocks rest
  | _ :: rest => code_blocks rest
  end.

(** A stream of three chunks, the second without text, that fails after
    them. *)
Definition broken_stream : response :=
  StreamChunk (Some (q "{'a'")) (StreamChunk None (StreamChunk (Some (u ": 1}"))
    (StreamRaise (u "503")))).

(* ================================================================== *)
(** ** Graph Builder: the nodes and their order *)
(* ================================================================== *)

(** The test of [if s and t]: the builder keeps the relationship. *)
Definition kept (rel : Relationship) : bool :=
  truthy_str (get rel k_source) && truthy_str (get rel k_target).

(** The ends of the kept relationships, as they are written, in the order
    of the list. *)
Definition endpoints (rels : list Relationship) : list str :=
  flat_map (fun rel =>
              if kept rel
              then [or_empty (get rel k_source); or_empty (get rel k_target)]
              else []) rels.

Definition add_uniq (x : str) (l : list str) : list str :=
  if mem x l then l else l ++ [x].

(** Each string once, in the order of the first occurrences. *)
Definition uniq (l : list str) : list str :=
  fold_left (fun acc x => add_uniq x acc) l [].

(** Four relationships: a repeated pair, a blank target that the prompt
    drops, and one without source that the builder drops. *)
Definition rels_mixed : list Relationship :=
  [ rel3 (u "B") (u "A") (u "r1"); rel3 (u "C") (u " ") (u "r2");
    rel3 (u "A") (u "B") (u "r3"); rel3 [] (u "D") (u "r4") ].

(* ================================================================== *)
(** ** The page: a run on an ontology of the expected shape *)
(* ================================================================== *)

(** A service that answers the first call with a fenced ontology and the
    later ones with a summary in two chunks. *)
Definition answering_service (n : nat) (prompt : str) : response :=
  match n with
  | O =>
    StreamChunk (Some (q "```json
{'themes': ['a'], 'relationships': [{'source': 'A', 'target': 'B', 'relation': 'r'}]}
```")) StreamEnd
  | S _ => StreamChunk (Some (u " She runs.")) (StreamChunk (Some [c_nl]) StreamEnd)
  end.

Definition answered_ontology : dict pyval :=
  [(k_themes, PyList [PyStr (u "a")]);
   (k_relationships, PyList [PyDict [(k_source, PyStr (u "A")); (k_target, PyStr (u "B"));
                                     (k_relation, PyStr (u "r"))]])].

Definition answered : Ontology :=
  {| themes := Some [u "a"]; keywords := None;
     relationships := Some [rel3 (u "A") (u "B") (u "r")] |}.

Definition empty_page : world unit unit :=
  {| analysis := []; calls := 0; generator := tt; shown := [] |}.

(** The page after the analysis of "Kim" has been stored. *)
Definition page_with_kim : world unit unit :=
  {| analysis := [(u "Kim", {| ontology := PyDict answered_ontology;
                               summary := u "She runs.";
                               final_prompt := u "prompt" |})];
     calls := 2; generator := tt; shown := [] |}.

(** The analysis of "Kim" started on the empty page, and a press for
    "Lee" on the page that holds the entry of "Kim". *)
Definition run_kim : outcome unit * world unit unit :=
  analyze_and_render_streaming (fun _ => tt) origin_layout answering_service
                               (fun _ _ => None)
                               (u "Kim") (u "I love running.") empty_page.

Definition press_lee : outcome unit * world unit unit :=
  extract_button (fun _ => tt) origin_layout answering_service
                 (fun _ _ => None)
                 true (u "Lee") (u "I cook.")
                 {| analysis := analysis page_with_kim; calls := 0;
                    generator := tt; shown := [] |}.

(* ================================================================== *)
(** ** Further examples *)
(* ================================================================== *)

(** An answer with prose, braces included, around the fenced object. *)
Definition fenced_in_prose : str :=
  q "Sure {draft}: " ++ wrap_in_fence json_a_1 ++ q " (see {notes}).".

(** The same rows in two interleavings that keep the order of the rows of
    each name. *)
Definition rows_interleaved_1 : list PersonRecord :=
  [ {| name := u "b"; text := u "x" |}; {| name := u "a"; text := u "y" |};
    {| name := u "b"; text := u "z" |} ].
Definition rows_interleaved_2 : list PersonRecord :=
  [ {| name := u "a"; text := u "y" |}; {| name := u "b"; text := u "x" |};
    {| name := u "b"; text := u "z" |} ].

(** A fetched row as a row of the frame, when name and text are strings. *)
Definition as_record (r : fetched_row) : option PersonRecord :=
  match row_name r, row_text r with
  | PyStr n, PyStr t => Some {| name := n; text := t |}
  | _, _ => None
  end.

Definition as_records (rows : list fetched_row) : option (list PersonRecord) :=
  all_some (map as_record rows).

(* ================================================================== *)
(** ** The page: the blocks that show a result *)
(* ================================================================== *)

(** What [if ontology.get("relationships"): ...] shows for an ontology:
    the table and the chart of a list that is not empty. *)
Definition relationships_events {coord rng : Type} (RandomState : N -> rng)
    (fruchterman_reingold : Graph -> nat -> rng -> (str -> coord * coord * coord) * rng)
    (name : str) (o : Ontology) : list (event coord) :=
  match relationships o with
  | Some (r :: rels) =>
    [Markdown (u "#### 📌 온톨로지 (관계 테이블)");
     Dataframe (r :: rels);
     Markdown (u "#### 📌 온톨로지 3D 그래프")]
    ++ plot_events RandomState fruchterman_reingold o (graph_title name)
  | _ => []
  end.

(** The ontology blocks: the JSON, then the relationships. *)
Definition ontology_events {coord rng : Type} (RandomState : N -> rng)
    (fruchterman_reingold : Graph -> nat -> rng -> (str -> coord * coord * coord) * rng)
    (name : str) (d : dict pyval) (o : Ontology) : list (event coord) :=
  [Markdown (u "#### 📌 온톨로지 (JSON)"); JsonCode (PyDict d)]
  ++ relationships_events RandomState fruchterman_reingold name o.

(** The summary and prompt blocks, with the key of the download button. *)
Definition summary_events {coord : Type} (name summary final_prompt key : str)
  : list (event coord) :=
  [Markdown (u "#### 📌 과거 요약");
   Write summary;
   Markdown (u "#### 🧾 최종 프롬프트 (한국어·고객역할)");
   Code final_prompt (u "markdown");
   download_button name final_prompt key].

(** Two presses of the button of "Kim" in a row, from the empty page. *)
Definition press_kim (w : world unit unit) : outcome unit * world unit unit :=
  extract_button (fun _ => tt) origin_layout answering_service
                 (fun _ _ => None)
                 true (u "Kim") (u "I love running.") w.

(** A service that answers with a JSON list. *)
Definition list_service (n : nat) (prompt : str) : response :=
  StreamChunk (Some (q "[1, 2]")) StreamEnd.

Definition run_on_list : outcome unit * world unit unit :=
  analyze_and_render_streaming (fun _ => tt) origin_layout list_service
                               (fun _ _ => None)
                               (u "Kim") (u "I love running.") empty_page.

(* ================================================================== *)
(** ** Ontologies that raise *)
(* ================================================================== *)

(** The mapping {"themes": null}. *)
Definition ontology_null_themes : pyval := PyDict [(k_themes, PyNone)].

(** The mapping {"relationships": null}. *)
Definition ontology_null_relationships : pyval := PyDict [(k_relationships, PyNone)].

(** A service whose first answer holds a lone surrogate escape and whose
    later answers are a summary. *)
Definition surrogate_service (n : nat) (prompt : str) : response :=
  match n with
  | O => StreamChunk (Some (q "{'themes': ['\ud83d']}")) StreamEnd
  | S _ => StreamChunk (Some (u "She runs.")) StreamEnd
  end.

Definition surrogate_ontology : dict pyval := [(k_themes, PyList [PyStr [55357]])].

Definition press_surrogate (w : world unit unit) : outcome unit * world unit unit :=
  extract_button (fun _ => tt) origin_layout surrogate_service (fun _ _ => None)
                 true (u "Kim") (u "I love running.") w.

Definition run_surrogate : outcome unit * world unit unit :=
  analyze_and_render_streaming (fun _ => tt) origin_layout surrogate_service
                               (fun _ _ => None)
                               (u "Kim") (u "I love running.") empty_page.

(* ################################################################## *)
(** * Properties *)
(* ################################################################## *)

(* ================================================================== *)
(** ** Strings *)
(* ================================================================== *)

Example u_arrow : u " ↔ " = [32; 8596; 32].
Proof. reflexivity. Qed.

Lemma str_eqb_eq (a b : str) : str_eqb a b = true <-> a = b.
Proof.
  revert b; induction a as [|x a IH]; intros [|y b]; simpl;
    try (split; congruence).
  rewrite andb_true_iff, N.eqb_eq, IH.
  split.
  - intros [-> ->]; reflexivity.
  - intros E; injection E; auto.
Qed.

Lemma str_eqb_refl (a : str) : str_eqb a a = true.
Proof. apply str_eqb_eq; reflexivity. Qed.

Lemma str_eqb_neq (a b : str) : str_eqb a b = false <-> a <> b.
Proof.
  rewrite <- str_eqb_eq. destruct (str_eqb a b); split; congruence.
Qed.

Lemma str_eqb_sym (a b : str) : str_eqb a b = str_eqb b a.
Proof.
  destruct (str_eqb a b) eqn:E.
  - apply str_eqb_eq in E; subst; symmetry; apply str_eqb_refl.
  - apply str_eqb_neq in E. symmetry; apply str_eqb_neq; congruence.
Qed.

Lemma str_compare_eq (a b : str) : str_compare a b = Eq <-> a = b.
Proof.
  revert b; induction a as [|x a IH]; intros [|y b]; simpl;
    try (split; congruence).
  destruct (x ?= y) eqn:E.
  - apply N.compare_eq_iff in E; subst. rewrite IH.
    split; [intros ->; reflexivity | intros H; injection H; auto].
  - split; [discriminate|]. intros H; injection H as -> _.
    rewrite N.compare_refl in E; discriminate.
  - split; [discriminate|]. intros H; injection H as -> _.
    rewrite N.compare_refl in E; discriminate.
Qed.

Lemma str_compare_antisym (a b : str) :
  str_compare b a = CompOpp (str_compare a b).
Proof.
  revert b; induction a as [|x a IH]; intros [|y b]; simpl; auto.
  rewrite (N.compare_antisym x y).
  destruct (x ?= y); simpl; auto.
Qed.

Lemma str_lt_trans (a b c : str) : str_lt a b -> str_lt b c -> str_lt a c.
Proof.
  unfold str_lt. revert b c; induction a as [|x a IH]; intros [|y b] [|z c];
    simpl; try congruence.
  destruct (x ?= y) eqn:Exy; try discriminate.
  - apply N.compare_eq_iff in Exy; subst y.
    destruct (x ?= z); try congruence. apply IH.
  - intros _. destruct (y ?= z) eqn:Eyz; try discriminate.
    + apply N.compare_eq_iff in Eyz; subst z. now rewrite Exy.
    + intros _. rewrite N.compare_lt_iff in *.
      assert (H : x < z) by lia. apply N.compare_lt_iff in H. now rewrite H.
Qed.

Lemma str_lt_irrefl (a : str) : ~ str_lt a a.
Proof.
  unfold str_lt. intros H.
  assert (E : str_compare a a = Eq) by (apply str_compare_eq; reflexivity).
  congruence.
Qed.

(* ================================================================== *)
(** ** Proof tactics *)
(* ================================================================== *)

(** Lengths of appended lists, then linear arithmetic. *)
Ltac len_lia :=
  cbn [length] in *;
  repeat (rewrite length_app in *; cbn [length] in *);
  lia.

(** Case analysis on a comparison of two strings, in both orientations. *)
Ltac str_eqb_case x y :=
  let E := fresh "E" in
  destruct (str_eqb x y) eqn:E;
  [ apply str_eqb_eq in E; subst; rewrite ?str_eqb_refl in *
  | let E' := fresh "E" in
    assert (E' : str_eqb y x = false) by (rewrite str_eqb_sym; exact E);
    rewrite ?E, ?E' in * ].

Ltac str_eqb_cases :=
  repeat match goal with
         | |- context [str_eqb ?x ?y] => str_eqb_case x y
         end.


(* ================================================================== *)
(** ** Text Aggregator *)
(* ================================================================== *)

Example grouped_ex :
  grouped [ {| name := u "b"; text := u "x" |};
            {| name := u "a"; text := u "y" |};
            {| name := u "b"; text := [] |};
            {| name := u "b"; text := u "z" |} ]
  = [ (u "a", u "y"); (u "b", u "x" ++ [10; 10] ++ u "z") ].
Proof. reflexivity. Qed.

Lemma add_row_keys (k x : str) (gs : list (str * list str)) :
  map fst (add_row k x gs)
  = if existsb (str_eqb k) (map fst gs) then map fst gs else map fst gs ++ [k].
Proof.
  induction gs as [|[k' xs] rest IH]; simpl; auto.
  destruct (str_eqb k k') eqn:E; simpl; auto.
  rewrite IH. destruct (existsb (str_eqb k) (map fst rest)); reflexivity.
Qed.

Lemma existsb_str_eqb (k : str) (l : list str) :
  existsb (str_eqb k) l = true <-> In k l.
Proof.
  rewrite existsb_exists. split.
  - intros [y [Hy E]]. apply str_eqb_eq in E; subst; auto.
  - intros H. exists k. split; auto. apply str_eqb_refl.
Qed.

Lemma add_row_NoDup (k x : str) (gs : list (str * list str)) :
  NoDup (map fst gs) -> NoDup (map fst (add_row k x gs)).
Proof.
  intros H. rewrite add_row_keys.
  destruct (existsb (str_eqb k) (map fst gs)) eqn:E; auto.
  apply NoDup_app; auto.
  - constructor; [intros []| constructor].
  - intros y Hy [<-|[]].
    apply existsb_str_eqb in Hy. congruence.
Qed.

Lemma add_row_In (k x k0 : str) (gs : list (str * list str)) :
  In k0 (map fst (add_row k x gs)) <-> In k0 (map fst gs) \/ k0 = k.
Proof.
  rewrite add_row_keys.
  destruct (existsb (str_eqb k) (map fst gs)) eqn:E.
  - apply existsb_str_eqb in E. split; auto. intros [H| ->]; auto.
  - rewrite in_app_iff. simpl. intuition congruence.
Qed.

Lemma group_get_add_row (k x k0 : str) (gs : list (str * list str)) :
  group_get k0 (add_row k x gs)
  = if str_eqb k k0 then group_get k0 gs ++ [x] else group_get k0 gs.
Proof.
  induction gs as [|[k' xs] rest IH]; simpl.
  - rewrite (str_eqb_sym k0 k). destruct (str_eqb k k0); reflexivity.
  - destruct (str_eqb k k') eqn:E; simpl.
    + apply str_eqb_eq in E; subst k'.
      rewrite (str_eqb_sym k0 k). destruct (str_eqb k k0); reflexivity.
    + rewrite IH. destruct (str_eqb k0 k') eqn:E0; auto.
      apply str_eqb_eq in E0; subst k'. now rewrite E.
Qed.

Lemma split_groups_from_spec (rows : list PersonRecord) :
  forall acc,
    NoDup (map fst acc) ->
    NoDup (map fst (split_groups_from acc rows)) /\
    (forall k, In k (map fst (split_groups_from acc rows))
               <-> In k (map fst acc) \/ In k (map name rows)) /\
    (forall k, group_get k (split_groups_from acc rows)
               = group_get k acc ++ texts_of k rows).
Proof.
  unfold split_groups_from, texts_of.
  induction rows as [|r rows IH]; intros acc Hnd; simpl.
  - repeat split; auto; try tauto. intros k. now rewrite app_nil_r.
  - destruct (IH (add_row (name r) (text r) acc)) as (H1 & H2 & H3).
    { now apply add_row_NoDup. }
    repeat split; auto.
    + intros H. apply H2 in H. rewrite add_row_In in H. intuition auto.
    + intros H. apply H2. rewrite add_row_In. intuition auto.
    + intros k. rewrite H3, group_get_add_row.
      destruct (str_eqb (name r) k); simpl; auto.
      now rewrite <- app_assoc.
Qed.

Lemma group_get_In (k : str) (xs : list str) (gs : list (str * list str)) :
  NoDup (map fst gs) -> In (k, xs) gs -> group_get k gs = xs.
Proof.
  induction gs as [|[k' ys] rest IH]; simpl; [tauto|].
  intros Hnd [E|Hin].
  - injection E as -> ->. now rewrite str_eqb_refl.
  - inversion Hnd as [|? ? Hni Hnd']; subst.
    destruct (str_eqb k k') eqn:E.
    + apply str_eqb_eq in E; subst k'. exfalso; apply Hni.
      apply (in_map fst) in Hin. exact Hin.
    + auto.
Qed.

Lemma insert_group_perm (g : str * list str) (gs : list (str * list str)) :
  Permutation (insert_group g gs) (g :: gs).
Proof.
  induction gs as [|h rest IH]; simpl; auto.
  destruct (str_compare (fst g) (fst h)); auto.
  rewrite IH. apply perm_swap.
Qed.

Lemma sort_groups_perm (gs : list (str * list str)) :
  Permutation (sort_groups gs) gs.
Proof.
  induction gs as [|g gs IH]; simpl; auto.
  rewrite insert_group_perm. now constructor.
Qed.

Lemma insert_group_sorted (g : str * list str) (gs : list (str * list str)) :
  StronglySorted key_lt gs -> ~ In (fst g) (map fst gs) ->
  StronglySorted key_lt (insert_group g gs).
Proof.
  induction gs as [|h rest IH]; simpl; intros Hs Hni.
  - constructor; constructor.
  - inversion Hs as [|? ? Hs' Hall]; subst.
    destruct (str_compare (fst g) (fst h)) eqn:E.
    + apply str_compare_eq in E. exfalso; apply Hni; auto.
    + constructor; auto. constructor; [exact E|].
      eapply Forall_impl; [|exact Hall].
      intros a Ha. unfold key_lt in *. eapply str_lt_trans; eauto.
    + constructor.
      * apply IH; auto.
      * assert (Hhg : key_lt h g).
        { unfold key_lt, str_lt. rewrite str_compare_antisym, E. reflexivity. }
        rewrite Forall_forall. intros a Ha.
        apply (Permutation_in _ (insert_group_perm g rest)) in Ha.
        destruct Ha as [<-|Ha]; auto.
        rewrite Forall_forall in Hall; auto.
Qed.

Lemma sort_groups_sorted (gs : list (str * list str)) :
  NoDup (map fst gs) -> StronglySorted key_lt (sort_groups gs).
Proof.
  induction gs as [|g gs IH]; simpl; intros Hnd.
  - constructor.
  - inversion Hnd as [|? ? Hni Hnd']; subst.
    apply insert_group_sorted; auto.
    intros Hin. apply Hni.
    eapply Permutation_in; [|exact Hin].
    apply Permutation_map, sort_groups_perm.
Qed.

Lemma StronglySorted_lt_NoDup (l : list str) :
  StronglySorted str_lt l -> NoDup l.
Proof.
  induction 1 as [|a l Hs IH Hall]; constructor; auto.
  intros Hin. rewrite Forall_forall in Hall.
  apply (str_lt_irrefl a); auto.
Qed.

Lemma grouped_keys (rows : list PersonRecord) :
  map fst (grouped rows) = map fst (groupby rows).
Proof.
  unfold grouped. rewrite map_map. reflexivity.
Qed.

Lemma StronglySorted_map_fst (gs : list (str * list str)) :
  StronglySorted key_lt gs -> StronglySorted str_lt (map fst gs).
Proof.
  induction 1 as [|a l Hs IH Hall]; simpl; constructor; auto.
  rewrite Forall_forall in *. intros k Hk.
  apply in_map_iff in Hk. destruct Hk as [h [<- Hh]]. now apply Hall.
Qed.

(** C1, as stated: the entries of [grouped] would come in the first-seen
    order of the identifiers.  On [rows_b_a] the first-seen order is
    ["b"; "a"], and [grouped] lists "a" before "b". *)
Lemma grouped_not_first_seen_order :
  first_seen rows_b_a = [u "b"; u "a"] /\
  map fst (grouped rows_b_a) = [u "a"; u "b"] /\
  map fst (grouped rows_b_a) <> first_seen rows_b_a.
Proof.
  repeat split; try reflexivity. discriminate.
Qed.

Lemma map_fst_rebuild {A B : Type} (f : A -> B) (l : list (A * B)) :
  (forall k t, In (k, t) l -> t = f k) ->
  l = map (fun k => (k, f k)) (map fst l).
Proof.
  induction l as [|[k t] l IH]; intros H; simpl; auto.
  rewrite <- IH by (intros; apply H; simpl; auto).
  rewrite <- (H k t) by (simpl; auto). reflexivity.
Qed.

(** C1 (amended): for every sequence of rows, [grouped] has exactly one
    entry per distinct identifier of the input (its names are duplicate-free
    and are exactly the names that occur), the entries are in ascending
    code-point order of the identifiers, and the text of each entry is the
    double-newline join of the non-empty texts of that identifier's rows in
    input order. *)
Theorem grouped_one_corpus_per_name_sorted (rows : list PersonRecord) :
  NoDup (map fst (grouped rows)) /\
  (forall k, In k (map fst (grouped rows)) <-> In k (map name rows)) /\
  StronglySorted str_lt (map fst (grouped rows)) /\
  grouped rows
  = map (fun k => (k, join [c_nl; c_nl] (filter nonempty (texts_of k rows))))
        (map fst (grouped rows)).
Proof.
  destruct (split_groups_from_spec rows [] (NoDup_nil _)) as (Hnd & Hin & Hget).
  fold (split_groups rows) in Hnd, Hin, Hget.
  assert (Hs : StronglySorted str_lt (map fst (grouped rows))).
  { rewrite grouped_keys. apply StronglySorted_map_fst.
    unfold groupby. now apply sort_groups_sorted. }
  repeat split.
  - now apply StronglySorted_lt_NoDup.
  - rewrite grouped_keys. unfold groupby. intros H.
    apply (Permutation_in _ (Permutation_map fst (sort_groups_perm _))) in H.
    apply Hin in H. simpl in H. tauto.
  - rewrite grouped_keys. unfold groupby. intros H.
    apply (Permutation_in _ (Permutation_sym (Permutation_map fst (sort_groups_perm _)))).
    apply Hin. auto.
  - exact Hs.
  - apply map_fst_rebuild.
    intros k t H. unfold grouped in H. apply in_map_iff in H.
    destruct H as [[k' xs] [E Hg]]. simpl in E. injection E as -> <-.
    unfold groupby in Hg.
    apply (Permutation_in _ (sort_groups_perm _)) in Hg.
    apply group_get_In in Hg; auto.
    rewrite Hget in Hg. simpl in Hg. subst xs. reflexivity.
Qed.

(* ================================================================== *)
(** ** JSON *)
(* ================================================================== *)

Example loads_ex1 :
  json_loads (q " {'a': [1, -2.50e3, true, null], 'b': {'c': 'xé\n'}, 'a': 'z'} ")
  = Some (PyDict [ (u "a", PyStr (u "z"));
                   (u "b", PyDict [(u "c", PyStr (u "x" ++ [233; 10]))]) ]).
Proof. vm_compute. reflexivity. Qed.

Example loads_ex2 : json_loads (q "{'a':1,}") = None.
Proof. vm_compute. reflexivity. Qed.

Example loads_ex3 : json_loads (q "[1.5e-3, -0, NaN, -Infinity, '😀']")
  = Some (PyList [PyFloat (FDec false 15 (-4)); PyInt 0; PyFloat FNaN;
                  PyFloat (FInf true); PyStr [128512]]).
Proof. vm_compute. reflexivity. Qed.

Example loads_ex4 : json_loads (q "1.") = None /\ json_loads (q "01") = None
  /\ json_loads (q "[1 2]") = None /\ json_loads (q "") = None
  /\ json_loads (q "{'a' 1}") = None /\ json_loads (q "'abc") = None.
Proof. vm_compute. repeat split. Qed.

Example extract_ex1 : parse_json_safely (u "not json at all") = PyDict [].
Proof. vm_compute. reflexivity. Qed.

Example extract_ex2 :
  parse_json_safely (q "prefix {'a':1} suffix") = PyDict [(u "a", PyInt 1)].
Proof. vm_compute. reflexivity. Qed.

Example extract_ex3 :
  parse_json_safely (wrap_in_fence (q "{'a':'```'}")) = PyDict [].
Proof. vm_compute. reflexivity. Qed.

Example extract_ex4 :
  parse_json_safely (q "[1, 2]") = PyList [PyInt 1; PyInt 2].
Proof. vm_compute. reflexivity. Qed.

(** *** Whitespace and prefixes *)

Lemma skip_ws_split (s : str) :
  exists w, s = w ++ skip_ws s /\ forallb is_json_ws w = true.
Proof.
  induction s as [|c r IH]; simpl.
  - exists []; auto.
  - destruct (is_json_ws c) eqn:E.
    + destruct IH as [w [H1 H2]]. exists (c :: w). simpl.
      rewrite E, H2. split; auto. now rewrite <- H1.
    + exists []; auto.
Qed.

Lemma skip_ws_head (s : str) : headb (fun c => negb (is_json_ws c)) (skip_ws s) = true.
Proof.
  induction s as [|c r IH]; simpl; auto.
  destruct (is_json_ws c) eqn:E; auto. simpl. now rewrite E.
Qed.

Lemma skip_ws_app (w s : str) :
  forallb is_json_ws w = true -> skip_ws (w ++ s) = skip_ws s.
Proof.
  induction w as [|c w IH]; simpl; auto.
  intros H. apply andb_true_iff in H. destruct H as [-> H]. auto.
Qed.

Lemma skip_ws_nonws (c : N) (s : str) :
  is_json_ws c = false -> skip_ws (c :: s) = c :: s.
Proof. intros H; simpl; now rewrite H. Qed.

Lemma skip_ws_nil_iff (s : str) : skip_ws s = [] <-> forallb is_json_ws s = true.
Proof.
  induction s as [|c r IH]; simpl; [tauto|].
  destruct (is_json_ws c); simpl; auto. split; discriminate.
Qed.

Lemma skip_ws_length (s : str) : (length (skip_ws s) <= length s)%nat.
Proof.
  destruct (skip_ws_split s) as [w [H _]].
  rewrite H at 2. rewrite length_app. lia.
Qed.

Lemma starts_with_app (p x : str) : starts_with p (p ++ x) = Some x.
Proof.
  induction p as [|c p IH]; simpl; auto. now rewrite N.eqb_refl.
Qed.

Lemma starts_with_split (p s r : str) : starts_with p s = Some r -> s = p ++ r.
Proof.
  revert s; induction p as [|c p IH]; simpl; intros s H.
  - congruence.
  - destruct s as [|y s]; [discriminate|].
    destruct (c =? y) eqn:E; [|discriminate].
    apply N.eqb_eq in E; subst y. f_equal; auto.
Qed.

(** *** String literals *)

Lemma scan_units_local_aux (n : nat) :
  forall s us r,
    (length s <= n)%nat ->
    scan_units s = Some (us, r) ->
    exists c, s = c ++ r /\ c <> [] /\
              forall r', scan_units (c ++ r') = Some (us, r').
Proof.
  induction n as [|n IH]; intros s us r Hlen H.
  - destruct s; simpl in *; [discriminate | lia].
  - destruct s as [|c s]; simpl in H; [discriminate|].
    destruct (c =? 34) eqn:Eq.
    { injection H as <- <-. exists [c]. simpl. rewrite Eq.
      repeat split; auto; discriminate. }
    destruct (c =? 92) eqn:Eb.
    + destruct s as [|e s1]; [discriminate|].
      destruct (e =? 117) eqn:Eu.
      * destruct s1 as [|h1 [|h2 [|h3 [|h4 s2]]]]; try discriminate.
        destruct (hex4 h1 h2 h3 h4) as [v|] eqn:Eh; [|discriminate].
        destruct (scan_units s2) as [[us' rest]|] eqn:Es; [|discriminate].
        injection H as <- <-.
        apply IH in Es; [|simpl in Hlen; lia].
        destruct Es as [c' [-> [_ Hc]]].
        exists (c :: e :: h1 :: h2 :: h3 :: h4 :: c').
        repeat split; try discriminate.
        intros r'. simpl. rewrite Eq, Eb, Eu, Eh, Hc. reflexivity.
      * destruct (backslash e) as [ch|] eqn:Ebs; [|discriminate].
        destruct (scan_units s1) as [[us' rest]|] eqn:Es; [|discriminate].
        injection H as <- <-.
        apply IH in Es; [|simpl in Hlen; lia].
        destruct Es as [c' [-> [_ Hc]]].
        exists (c :: e :: c').
        repeat split; try discriminate.
        intros r'. simpl. rewrite Eq, Eb, Eu, Ebs, Hc. reflexivity.
    + destruct (c <? 32) eqn:Ec; [discriminate|].
      destruct (scan_units s) as [[us' rest]|] eqn:Es; [|discriminate].
      injection H as <- <-.
      apply IH in Es; [|simpl in Hlen; lia].
      destruct Es as [c' [-> [_ Hc]]].
      exists (c :: c').
      repeat split; try discriminate.
      intros r'. simpl. rewrite Eq, Eb, Ec, Hc. reflexivity.
Qed.

Lemma scanstring_local (s k r : str) :
  scanstring s = Some (k, r) ->
  exists c, s = c ++ r /\ c <> [] /\
            forall r', scanstring (c ++ r') = Some (k, r').
Proof.
  unfold scanstring. intros H.
  destruct (scan_units s) as [[us rest]|] eqn:E; [|discriminate].
  injection H as <- <-.
  apply (scan_units_local_aux (length s)) in E; auto.
  destruct E as [c [-> [Hne Hc]]]. exists c. repeat split; auto.
  intros r'. now rewrite Hc.
Qed.

(** *** Numbers *)

Lemma take_digits_local (s ds rest : str) :
  take_digits s = (ds, rest) ->
  s = ds ++ rest /\ forallb is_digit ds = true /\
  forall x, headb nondigit x = true -> take_digits (ds ++ x) = (ds, x).
Proof.
  revert ds rest; induction s as [|c s IH]; simpl; intros ds rest H.
  - injection H as <- <-. repeat split; auto.
    intros [|y x]; simpl; auto. unfold nondigit. intros Hy.
    apply negb_true_iff in Hy. now rewrite Hy.
  - destruct (is_digit c) eqn:E.
    + destruct (take_digits s) as [ds' rest'] eqn:Et.
      injection H as <- <-.
      destruct (IH _ _ eq_refl) as (-> & Hd & Hx).
      repeat split; auto.
      * simpl. now rewrite E, Hd.
      * intros x Hhx. simpl. rewrite E, (Hx x Hhx). reflexivity.
    + injection H as <- <-. repeat split; auto.
      intros [|y x]; simpl; auto. unfold nondigit. intros Hy.
      apply negb_true_iff in Hy. now rewrite Hy.
Qed.

Lemma is_follow_cases (c : N) :
  is_follow c = true ->
  c = 32 \/ c = 9 \/ c = 10 \/ c = 13 \/ c = 44 \/ c = 93 \/ c = 125.
Proof.
  unfold is_follow, is_json_ws.
  rewrite !orb_true_iff, !N.eqb_eq. tauto.
Qed.

Lemma stop_nondigit (x : str) : stop x = true -> headb nondigit x = true.
Proof.
  destruct x as [|y x]; simpl; auto. intros H.
  apply is_follow_cases in H.
  destruct H as [-> | [-> | [-> | [-> | [-> | [-> | ->]]]]]]; reflexivity.
Qed.

Lemma stop_not (k : N) (x : str) :
  is_follow k = false -> stop x = true -> headb (fun y => negb (y =? k)) x = true.
Proof.
  destruct x as [|y x]; simpl; auto. intros Hk H.
  destruct (y =? k) eqn:E; auto. apply N.eqb_eq in E; subst. congruence.
Qed.

Lemma scan_frac_nil (x : str) :
  headb (fun y => negb (y =? 46)) x = true -> scan_frac x = ([], x).
Proof.
  destruct x as [|y x]; simpl; auto. intros H.
  apply negb_true_iff in H. now rewrite H.
Qed.

Lemma scan_frac_local (s fds r1 : str) :
  scan_frac s = (fds, r1) ->
  exists c, s = c ++ r1 /\
    (c = [] \/ exists t, c = 46 :: t) /\
    forall x, headb nondigit x = true ->
              (c = [] -> headb (fun y => negb (y =? 46)) x = true) ->
              scan_frac (c ++ x) = (fds, x).
Proof.
  assert (Hnil : forall x, headb nondigit x = true ->
            ([] = @nil N -> headb (fun y => negb (y =? 46)) x = true) ->
            scan_frac ([] ++ x) = ([], x)).
  { intros x _ H. apply scan_frac_nil; auto. }
  intros H. destruct s as [|c0 r]; simpl in H.
  - injection H as <- <-. exists []. repeat split; auto.
  - destruct (c0 =? 46) eqn:E.
    + destruct (take_digits r) as [ds rest] eqn:Et.
      destruct ds as [|d ds].
      * injection H as <- <-. exists []. repeat split; auto.
      * injection H as <- <-.
        apply N.eqb_eq in E; subst c0.
        destruct (take_digits_local _ _ _ Et) as (-> & _ & Hx).
        exists (46 :: d :: ds). repeat split; eauto.
        intros x Hx1 _. simpl app. unfold scan_frac.
        change (46 =? 46) with true. cbv iota.
        change (d :: ds ++ x) with ((d :: ds) ++ x).
        rewrite (Hx x Hx1). reflexivity.
    + injection H as <- <-. exists []. repeat split; auto.
Qed.

Lemma scan_exp_nil (x : str) :
  headb (fun y => negb (is_e y)) x = true -> scan_exp x = (None, x).
Proof.
  destruct x as [|y x]; simpl; auto. intros H.
  apply negb_true_iff in H. unfold is_e in H. now rewrite H.
Qed.

Lemma scan_exp_local (s r2 : str) (ex : option (bool * str)) :
  scan_exp s = (ex, r2) ->
  exists c, s = c ++ r2 /\
    (c = [] \/ exists y t, c = y :: t /\ is_e y = true) /\
    forall x, headb nondigit x = true ->
              (c = [] -> headb (fun y => negb (is_e y)) x = true) ->
              scan_exp (c ++ x) = (ex, x).
Proof.
  assert (Hnil : forall x, headb nondigit x = true ->
            ([] = @nil N -> headb (fun y => negb (is_e y)) x = true) ->
            scan_exp ([] ++ x) = (None, x)).
  { intros x _ H. apply scan_exp_nil; auto. }
  intros H. destruct s as [|c0 r]; simpl in H.
  - injection H as <- <-. exists []. repeat split; auto.
  - change ((c0 =? 101) || (c0 =? 69)) with (is_e c0) in H.
    destruct (is_e c0) eqn:E.
    + destruct r as [|x0 r'].
      * simpl in H. injection H as <- <-. exists []. repeat split; auto.
      * destruct (x0 =? 45) eqn:E1; [|destruct (x0 =? 43) eqn:E2].
        -- destruct (take_digits r') as [ds rest] eqn:Et.
           destruct ds as [|d ds].
           ++ injection H as <- <-. exists []. repeat split; auto.
           ++ injection H as <- <-.
              destruct (take_digits_local _ _ _ Et) as (-> & _ & Hx).
              exists (c0 :: x0 :: d :: ds). repeat split; eauto.
              intros x Hx1 _. simpl app. unfold scan_exp.
              change ((c0 =? 101) || (c0 =? 69)) with (is_e c0).
              rewrite E, E1.
              change (d :: ds ++ x) with ((d :: ds) ++ x).
              rewrite (Hx x Hx1). reflexivity.
        -- destruct (take_digits r') as [ds rest] eqn:Et.
           destruct ds as [|d ds].
           ++ injection H as <- <-. exists []. repeat split; auto.
           ++ injection H as <- <-.
              destruct (take_digits_local _ _ _ Et) as (-> & _ & Hx).
              exists (c0 :: x0 :: d :: ds). repeat split; eauto.
              intros x Hx1 _. simpl app. unfold scan_exp.
              change ((c0 =? 101) || (c0 =? 69)) with (is_e c0).
              rewrite E, E1, E2.
              change (d :: ds ++ x) with ((d :: ds) ++ x).
              rewrite (Hx x Hx1). reflexivity.
        -- destruct (take_digits (x0 :: r')) as [ds rest] eqn:Et.
           destruct ds as [|d ds].
           ++ injection H as <- <-. exists []. repeat split; auto.
           ++ injection H as <- <-.
              destruct (take_digits_local _ _ _ Et) as (Hs & _ & Hx).
              simpl in Hs. injection Hs as -> ->.
              exists (c0 :: d :: ds). repeat split; eauto.
              intros x Hx1 _. simpl app. unfold scan_exp.
              change ((c0 =? 101) || (c0 =? 69)) with (is_e c0).
              rewrite E, E1, E2.
              change (d :: ds ++ x) with ((d :: ds) ++ x).
              rewrite (Hx x Hx1). reflexivity.
    + injection H as <- <-. exists []. repeat split; auto.
Qed.

Lemma scan_int_digits_local (s ids r : str) (ng neg : bool) :
  scan_int_digits ng s = Some (neg, ids, r) ->
  ng = neg /\
  exists c, s = c ++ r /\
    (exists y t, c = y :: t /\ is_digit y = true) /\
    forall x, headb nondigit x = true ->
              scan_int_digits ng (c ++ x) = Some (neg, ids, x).
Proof.
  destruct s as [|d r0]; simpl; [discriminate|].
  destruct (d =? 48) eqn:E0.
  - intros H; injection H as <- <- <-. split; auto.
    exists [d]. repeat split.
    + exists d, []. split; auto. apply N.eqb_eq in E0; subst; reflexivity.
    + intros x _. simpl. now rewrite E0.
  - destruct (is_digit d) eqn:Ed; [|discriminate].
    destruct (take_digits r0) as [ds rest] eqn:Et.
    intros H; injection H as <- <- <-. split; auto.
    destruct (take_digits_local _ _ _ Et) as (-> & _ & Hx).
    exists (d :: ds). repeat split; eauto.
    intros x Hx1. simpl. rewrite E0, Ed, (Hx x Hx1). reflexivity.
Qed.

Lemma scan_int_local (s ids r : str) (neg : bool) :
  scan_int s = Some (neg, ids, r) ->
  exists c, s = c ++ r /\
    (exists y t, c = y :: t /\ is_num_start y = true) /\
    forall x, headb nondigit x = true -> scan_int (c ++ x) = Some (neg, ids, x).
Proof.
  destruct s as [|c0 s0]; unfold scan_int; [discriminate|].
  destruct (c0 =? 45) eqn:E; intros H;
    apply scan_int_digits_local in H; destruct H as [_ [c [Hc [Hh Hx]]]].
  - subst s0. exists (c0 :: c). repeat split.
    + exists c0, c. split; auto. unfold is_num_start. now rewrite E.
    + intros x Hx1. cbn [app]. rewrite E. auto.
  - exists c. repeat split; auto.
    + destruct Hh as (y & t & -> & Hy). exists y, t. split; auto.
      unfold is_num_start. now rewrite Hy, orb_true_r.
    + intros x Hx1. destruct Hh as (y & t & -> & Hy).
      cbn [app] in Hc. injection Hc as -> _.
      specialize (Hx x Hx1). cbn [app] in *. rewrite E. exact Hx.
Qed.

Lemma scan_number_local (s r : str) (v : pyval) :
  scan_number s = Some (v, r) ->
  (forall d, v <> PyDict d) /\
  exists c, s = c ++ r /\
    (exists y t, c = y :: t /\ is_num_start y = true) /\
    forall x, stop x = true -> scan_number (c ++ x) = Some (v, x).
Proof.
  unfold scan_number. intros H.
  destruct (scan_int s) as [[[neg ids] r0]|] eqn:Ei; [|discriminate].
  destruct (scan_frac r0) as [fds r1] eqn:Ef.
  destruct (scan_exp r1) as [ex r2] eqn:Ee.
  apply scan_int_local in Ei. destruct Ei as (ci & -> & Hci & Hi).
  apply scan_frac_local in Ef. destruct Ef as (cf & -> & Hcf & Hf).
  apply scan_exp_local in Ee. destruct Ee as (ce & -> & Hce & He).
  assert (Hv : (forall d, v <> PyDict d) /\ r = r2 /\
    forall x : str,
      match fds, ex with
      | [], None =>
        let z := Z.of_N (digits_value ids) in
        Some (PyInt (if neg then - z else z)%Z, x)
      | _, _ =>
        let ev := match ex with
                  | Some (sg, eds) =>
                    let z := Z.of_N (digits_value eds) in (if sg then - z else z)%Z
                  | None => 0%Z
                  end in
        Some (PyFloat (FDec neg (digits_value (ids ++ fds))
                            (ev - Z.of_nat (length fds))), x)
      end = Some (v, x)).
  { destruct fds as [|fd fds]; [destruct ex as [[sg eds]|]|];
      injection H as <- <-; repeat split; congruence. }
  destruct Hv as (Hnd & -> & Hv). clear H.
  split; auto.
  exists (ci ++ cf ++ ce). repeat split.
  - now rewrite <- !app_assoc.
  - destruct Hci as (y & t & -> & Hy). exists y, (t ++ cf ++ ce). split; auto.
  - intros x Hx.
    assert (Hx1 : headb nondigit x = true) by now apply stop_nondigit.
    assert (Hx2 : headb (fun y => negb (y =? 46)) x = true)
      by (apply stop_not; auto).
    assert (Hx3 : headb (fun y => negb (is_e y)) x = true).
    { destruct x as [|y x]; simpl in *; auto.
      apply is_follow_cases in Hx.
      destruct Hx as [-> | [-> | [-> | [-> | [-> | [-> | ->]]]]]]; reflexivity. }
    assert (Hce1 : headb nondigit (ce ++ x) = true).
    { destruct Hce as [-> | (y & t & -> & Hy)]; auto. simpl.
      unfold is_e in Hy. apply orb_true_iff in Hy.
      destruct Hy as [Hy|Hy]; apply N.eqb_eq in Hy; subst; reflexivity. }
    assert (Hce2 : headb (fun y => negb (y =? 46)) (ce ++ x) = true).
    { destruct Hce as [-> | (y & t & -> & Hy)]; auto. simpl.
      unfold is_e in Hy. apply orb_true_iff in Hy.
      destruct Hy as [Hy|Hy]; apply N.eqb_eq in Hy; subst; reflexivity. }
    assert (Hcf1 : headb nondigit (cf ++ ce ++ x) = true).
    { destruct Hcf as [-> | (t & ->)]; auto. }
    rewrite <- !app_assoc.
    rewrite (Hi _ Hcf1), (Hf _ Hce1 (fun _ => Hce2)), (He _ Hx1 (fun _ => Hx3)).
    apply Hv.
Qed.

Lemma scan_atom_local (s r : str) (v : pyval) :
  scan_atom s = Some (v, r) ->
  (forall d, v <> PyDict d) /\
  exists c, s = c ++ r /\ c <> [] /\
    forall x, stop x = true -> scan_atom (c ++ x) = Some (v, x).
Proof.
  unfold scan_atom. intros H.
  destruct (starts_with lit_null s) as [r0|] eqn:E1.
  { injection H as <- <-. apply starts_with_split in E1; subst s.
    split; [congruence|]. exists lit_null. repeat split; try discriminate. }
  destruct (starts_with lit_true s) as [r0|] eqn:E2.
  { injection H as <- <-. apply starts_with_split in E2; subst s.
    split; [congruence|]. exists lit_true. repeat split; try discriminate. }
  destruct (starts_with lit_false s) as [r0|] eqn:E3.
  { injection H as <- <-. apply starts_with_split in E3; subst s.
    split; [congruence|]. exists lit_false. repeat split; try discriminate. }
  destruct (scan_number s) as [[v0 r0]|] eqn:E4.
  { injection H as <- <-.
    apply scan_number_local in E4. destruct E4 as (Hnd & c & -> & Hc & Hx).
    split; auto. exists c.
    destruct Hc as (y & t & -> & Hy). repeat split; try discriminate.
    intros x Hsx. rewrite (Hx x Hsx).
    unfold is_num_start, is_digit in Hy.
    assert (Hy' : y = 45 \/ (48 <= y /\ y <= 57)).
    { apply orb_true_iff in Hy. destruct Hy as [Hy|Hy].
      - apply N.eqb_eq in Hy; auto.
      - apply andb_true_iff in Hy. rewrite !N.leb_le in Hy. auto. }
    cbn [app starts_with lit_null lit_true lit_false].
    destruct (110 =? y) eqn:F1; [apply N.eqb_eq in F1; lia|].
    destruct (116 =? y) eqn:F2; [apply N.eqb_eq in F2; lia|].
    destruct (102 =? y) eqn:F3; [apply N.eqb_eq in F3; lia|].
    reflexivity. }
  destruct (starts_with lit_NaN s) as [r0|] eqn:E5.
  { injection H as <- <-. apply starts_with_split in E5; subst s.
    split; [congruence|]. exists lit_NaN. repeat split; try discriminate. }
  destruct (starts_with lit_Infinity s) as [r0|] eqn:E6.
  { injection H as <- <-. apply starts_with_split in E6; subst s.
    split; [congruence|]. exists lit_Infinity. repeat split; try discriminate. }
  destruct (starts_with lit_minus_Infinity s) as [r0|] eqn:E7; [|discriminate].
  injection H as <- <-. apply starts_with_split in E7; subst s.
  split; [congruence|]. exists lit_minus_Infinity. repeat split; try discriminate.
Qed.

(** *** The scanner *)

Lemma scan_once_S (f : nat) (s : str) :
  scan_once (S f) s =
  match s with
  | [] => Invalid
  | c :: r =>
    if c =? 34 then
      match scanstring r with
      | Some (k, r') => Parsed (PyStr k) r'
      | None => Invalid
      end
    else if c =? 123 then
      match skip_ws r with
      | c1 :: r1 =>
        if c1 =? 125 then Parsed (PyDict []) r1
        else object_members f (c1 :: r1) []
      | [] => Invalid
      end
    else if c =? 91 then
      match skip_ws r with
      | c1 :: r1 =>
        if c1 =? 93 then Parsed (PyList []) r1
        else array_elements f (c1 :: r1) []
      | [] => Invalid
      end
    else
      match scan_atom s with
      | Some (v, r') => Parsed v r'
      | None => Invalid
      end
  end.
Proof. reflexivity. Qed.

Lemma object_members_S (f : nat) (s : str) (pairs : list (str * pyval)) :
  object_members (S f) s pairs =
  match s with
  | [] => Invalid
  | c :: r =>
    if c =? 34 then
      match scanstring r with
      | None => Invalid
      | Some (key, r1) =>
        match skip_ws r1 with
        | [] => Invalid
        | c2 :: r2 =>
          if c2 =? 58 then
            match scan_once f (skip_ws r2) with
            | Parsed v r3 =>
              match skip_ws r3 with
              | [] => Invalid
              | c4 :: r4 =>
                if c4 =? 125 then Parsed (PyDict (dict_of_pairs (pairs ++ [(key, v)]))) r4
                else if c4 =? 44 then object_members f (skip_ws r4) (pairs ++ [(key, v)])
                else Invalid
              end
            | Invalid => Invalid
            | NoFuel => NoFuel
            end
          else Invalid
        end
      end
    else Invalid
  end.
Proof. reflexivity. Qed.

Lemma array_elements_S (f : nat) (s : str) (values : list pyval) :
  array_elements (S f) s values =
  match scan_once f s with
  | Parsed v r =>
    match skip_ws r with
    | [] => Invalid
    | c :: r1 =>
      if c =? 93 then Parsed (PyList (values ++ [v])) r1
      else if c =? 44 then array_elements f (skip_ws r1) (values ++ [v])
      else Invalid
    end
  | Invalid => Invalid
  | NoFuel => NoFuel
  end.
Proof. reflexivity. Qed.

Lemma skip_ws_eq (s t : str) (c : N) :
  skip_ws s = c :: t ->
  exists w, s = w ++ c :: t /\ forallb is_json_ws w = true /\ is_json_ws c = false.
Proof.
  intros H. destruct (skip_ws_split s) as [w [H1 H2]].
  exists w. rewrite H in H1. repeat split; auto.
  pose proof (skip_ws_head s) as Hh. rewrite H in Hh. simpl in Hh.
  now apply negb_true_iff in Hh.
Qed.

Lemma skip_ws_fwd (w t : str) (c : N) :
  forallb is_json_ws w = true -> is_json_ws c = false ->
  skip_ws (w ++ c :: t) = c :: t.
Proof.
  intros Hw Hc. rewrite skip_ws_app; auto. now apply skip_ws_nonws.
Qed.

Lemma stop_after_ws (w t : str) (c : N) :
  forallb is_json_ws w = true -> is_follow c = true -> stop (w ++ c :: t) = true.
Proof.
  destruct w as [|y w]; simpl; auto.
  intros H _. apply andb_true_iff in H. destruct H as [H _].
  unfold is_follow. now rewrite H.
Qed.

Lemma skip_ws_eq_app (s c r : str) :
  skip_ws s = c ++ r -> c <> [] ->
  exists w y t, s = w ++ c ++ r /\ c = y :: t /\
                forallb is_json_ws w = true /\ is_json_ws y = false.
Proof.
  intros H Hne. destruct c as [|y t]; [congruence|].
  cbn [app] in H. apply skip_ws_eq in H. destruct H as (w & -> & Hw & Hy).
  exists w, y, t. repeat split; auto.
Qed.

Lemma scan_once_local_step (f : nat) :
  object_members_local f -> array_elements_local f -> scan_once_local (S f).
Proof.
  intros IHo IHa s v r H. rewrite scan_once_S in H.
  destruct s as [|c0 r0]; [discriminate|].
  destruct (c0 =? 34) eqn:E34.
  { (* a string *)
    destruct (scanstring r0) as [[k r']|] eqn:Es; [|discriminate].
    injection H as <- <-.
    apply scanstring_local in Es. destruct Es as (cs & -> & _ & Hcs).
    exists (c0 :: cs). repeat split; try discriminate.
    intros [|f'] x _ Hf; [simpl in Hf; lia|].
    rewrite scan_once_S. cbn [app]. rewrite E34, Hcs. reflexivity. }
  destruct (c0 =? 123) eqn:E123.
  { (* an object *)
    apply N.eqb_eq in E123; subst c0.
    destruct (skip_ws r0) as [|c1 r1] eqn:Ew; [discriminate|].
    apply skip_ws_eq in Ew. destruct Ew as (w & -> & Hw & Hc1).
    destruct (c1 =? 125) eqn:E125.
    - injection H as <- <-. apply N.eqb_eq in E125; subst c1.
      exists (123 :: w ++ [125]). repeat split; try discriminate.
      + cbn [app]. now rewrite <- app_assoc.
      + intros d _. exists w. reflexivity.
      + intros [|f'] x _ Hf; [simpl in Hf; lia|].
        rewrite scan_once_S. cbn [app]. rewrite <- app_assoc. cbn [app].
        change (123 =? 34) with false. change (123 =? 123) with true. cbv iota.
        rewrite skip_ws_fwd; auto.
    - apply IHo in H. destruct H as (cm & Hcm & [body Hb] & Hfwd).
      assert (Hhead : exists t, cm = c1 :: t).
      { destruct cm as [|y t].
        - destruct body; discriminate.
        - cbn [app] in Hcm. injection Hcm as -> _. eauto. }
      destruct Hhead as [t ->]. cbn [app] in Hcm. injection Hcm as ->.
      exists (123 :: w ++ c1 :: t). repeat split; try discriminate.
      + cbn [app]. rewrite <- app_assoc. reflexivity.
      + intros d _. destruct body as [|b body]; cbn [app] in Hb.
        * injection Hb as -> ->. exists w. reflexivity.
        * injection Hb as <- ->. exists (w ++ c1 :: body).
          unfold c_lbrace. rewrite <- app_assoc. reflexivity.
      + intros [|f'] x _ Hf; [simpl in Hf; lia|].
        rewrite scan_once_S. cbn [app]. rewrite <- app_assoc. cbn [app].
        change (123 =? 34) with false. change (123 =? 123) with true. cbv iota.
        rewrite skip_ws_fwd; auto. rewrite E125.
        apply (Hfwd f' x). simpl in Hf. rewrite length_app in Hf. simpl in *. lia. }
  destruct (c0 =? 91) eqn:E91.
  { (* an array *)
    destruct (skip_ws r0) as [|c1 r1] eqn:Ew; [discriminate|].
    apply skip_ws_eq in Ew. destruct Ew as (w & -> & Hw & Hc1).
    destruct (c1 =? 93) eqn:E93.
    - injection H as <- <-.
      exists (c0 :: w ++ [c1]). repeat split; try discriminate.
      + cbn [app]. now rewrite <- app_assoc.
      + intros [|f'] x _ Hf; [simpl in Hf; lia|].
        rewrite scan_once_S. cbn [app]. rewrite <- app_assoc. cbn [app].
        rewrite E34, E123, E91. rewrite skip_ws_fwd; auto. now rewrite E93.
    - apply IHa in H. destruct H as (cm & Hcm & Hne & Hnd & Hfwd).
      destruct cm as [|y t]; [congruence|].
      cbn [app] in Hcm. injection Hcm as <- ->.
      exists (c0 :: w ++ c1 :: t). repeat split; try discriminate.
      + cbn [app]. rewrite <- app_assoc. reflexivity.
      + intros d Hd. exfalso. exact (Hnd d Hd).
      + intros [|f'] x _ Hf; [simpl in Hf; lia|].
        rewrite scan_once_S. cbn [app]. rewrite <- app_assoc. cbn [app].
        rewrite E34, E123, E91. rewrite skip_ws_fwd; auto. rewrite E93.
        apply (Hfwd f' x). simpl in Hf. rewrite length_app in Hf. simpl in *. lia. }
  (* any other value *)
  destruct (scan_atom (c0 :: r0)) as [[v' r']|] eqn:Ea; [|discriminate].
  injection H as <- <-.
  apply scan_atom_local in Ea. destruct Ea as (Hnd & c & Hc & Hne & Hfwd).
  destruct c as [|y t]; [congruence|].
  cbn [app] in Hc. injection Hc as <- ->.
  exists (c0 :: t). repeat split; try discriminate.
  - intros d Hd. exfalso. exact (Hnd d Hd).
  - intros [|f'] x Hx Hf; [simpl in Hf; lia|].
    rewrite scan_once_S. cbn [app]. rewrite E34, E123, E91.
    change (c0 :: t ++ x) with ((c0 :: t) ++ x). rewrite (Hfwd x Hx). reflexivity.
Qed.

Lemma is_follow_not_ws_cases (c : N) :
  (c =? 125) = true \/ (c =? 44) = true \/ (c =? 93) = true -> is_follow c = true.
Proof.
  unfold is_follow. intros [H | [H | H]]; rewrite H;
    repeat rewrite orb_true_r; reflexivity.
Qed.

Lemma object_members_local_step (f : nat) :
  scan_once_local f -> object_members_local f -> object_members_local (S f).
Proof.
  intros IHs IHo s pairs v r H. rewrite object_members_S in H.
  destruct s as [|c0 r0]; [discriminate|].
  destruct (c0 =? 34) eqn:E34; [|discriminate].
  destruct (scanstring r0) as [[key r1]|] eqn:Es; [|discriminate].
  apply scanstring_local in Es. destruct Es as (ck & -> & _ & Hck).
  destruct (skip_ws r1) as [|c2 r2] eqn:Ew1; [discriminate|].
  apply skip_ws_eq in Ew1. destruct Ew1 as (w1 & -> & Hw1 & Hc2).
  destruct (c2 =? 58) eqn:E58; [|discriminate].
  destruct (scan_once f (skip_ws r2)) as [v1 r3| |] eqn:Ev; try discriminate.
  apply IHs in Ev. destruct Ev as (cv & Hcv & Hne & _ & Hfv).
  apply skip_ws_eq_app in Hcv; auto.
  destruct Hcv as (w2 & y & t & -> & -> & Hw2 & Hy).
  destruct (skip_ws r3) as [|c4 r4] eqn:Ew3; [discriminate|].
  apply skip_ws_eq in Ew3. destruct Ew3 as (w3 & -> & Hw3 & Hc4).
  destruct (c4 =? 125) eqn:E125.
  - injection H as <- <-.
    exists (c0 :: ck ++ w1 ++ c2 :: w2 ++ (y :: t) ++ w3 ++ [c4]).
    split; [|split].
    + cbn [app]. repeat (rewrite <- app_assoc; cbn [app]). reflexivity.
    + exists (c0 :: ck ++ w1 ++ c2 :: w2 ++ (y :: t) ++ w3).
      apply N.eqb_eq in E125; subst c4. unfold c_rbrace.
      cbn [app]. repeat (rewrite <- app_assoc; cbn [app]). reflexivity.
    + intros [|f'] x Hf; [simpl in Hf; lia|].
      rewrite object_members_S. cbn [app].
      repeat (rewrite <- app_assoc; cbn [app]).
      rewrite E34, Hck, skip_ws_fwd, E58 by auto.
      rewrite skip_ws_fwd by auto.
      change (y :: t ++ w3 ++ c4 :: x) with ((y :: t) ++ w3 ++ c4 :: x).
      rewrite Hfv.
      * rewrite skip_ws_fwd by auto. now rewrite E125.
      * apply stop_after_ws; auto. apply is_follow_not_ws_cases; auto.
      * len_lia.
  - destruct (c4 =? 44) eqn:E44; [|discriminate].
    apply IHo in H. destruct H as (cm & Hcm & [body Hb] & Hfm).
    assert (Hcmne : cm <> []) by (subst cm; destruct body; discriminate).
    apply skip_ws_eq_app in Hcm; auto.
    destruct Hcm as (w4 & y' & t' & -> & Hcm & Hw4 & Hy').
    exists (c0 :: ck ++ w1 ++ c2 :: w2 ++ (y :: t) ++ w3 ++ c4 :: w4 ++ cm).
    split; [|split].
    + cbn [app]. repeat (rewrite <- app_assoc; cbn [app]). reflexivity.
    + exists (c0 :: ck ++ w1 ++ c2 :: w2 ++ (y :: t) ++ w3 ++ c4 :: w4 ++ body).
      rewrite Hb. cbn [app]. repeat (rewrite <- app_assoc; cbn [app]). reflexivity.
    + intros [|f'] x Hf; [simpl in Hf; lia|].
      rewrite object_members_S. cbn [app].
      repeat (rewrite <- app_assoc; cbn [app]).
      rewrite E34, Hck, skip_ws_fwd, E58 by auto.
      rewrite skip_ws_fwd by auto.
      change (y :: t ++ w3 ++ c4 :: w4 ++ cm ++ x)
        with ((y :: t) ++ w3 ++ c4 :: w4 ++ cm ++ x).
      rewrite Hfv.
      * rewrite skip_ws_fwd by auto. rewrite E125, E44.
        rewrite Hcm at 1. cbn [app]. rewrite skip_ws_fwd by auto.
        change (y' :: t' ++ x) with ((y' :: t') ++ x). rewrite <- Hcm.
        apply Hfm.
        len_lia.
      * apply stop_after_ws; auto. apply is_follow_not_ws_cases; auto.
      * len_lia.
Qed.

Lemma array_elements_local_step (f : nat) :
  scan_once_local f -> array_elements_local f -> array_elements_local (S f).
Proof.
  intros IHs IHa s values v r H. rewrite array_elements_S in H.
  destruct (scan_once f s) as [v1 r1| |] eqn:Ev; try discriminate.
  apply IHs in Ev. destruct Ev as (cv & -> & Hne & _ & Hfv).
  destruct (skip_ws r1) as [|c r2] eqn:Ew; [discriminate|].
  apply skip_ws_eq in Ew. destruct Ew as (w & -> & Hw & Hc).
  destruct (c =? 93) eqn:E93.
  - injection H as <- <-.
    exists (cv ++ w ++ [c]). repeat split.
    + repeat (rewrite <- app_assoc; cbn [app]). reflexivity.
    + destruct cv; [congruence | discriminate].
    + congruence.
    + intros [|f'] x Hf; [simpl in Hf; lia|].
      rewrite array_elements_S.
      repeat (rewrite <- app_assoc; cbn [app]).
      rewrite Hfv.
      * rewrite skip_ws_fwd by auto. now rewrite E93.
      * apply stop_after_ws; auto. apply is_follow_not_ws_cases; auto.
      * len_lia.
  - destruct (c =? 44) eqn:E44; [|discriminate].
    apply IHa in H. destruct H as (cm & Hcm & Hcmne & Hnd & Hfm).
    apply skip_ws_eq_app in Hcm; auto.
    destruct Hcm as (w4 & y' & t' & -> & Hcm & Hw4 & Hy').
    exists (cv ++ w ++ c :: w4 ++ cm). repeat split; auto.
    + repeat (rewrite <- app_assoc; cbn [app]). reflexivity.
    + destruct cv; [congruence | discriminate].
    + intros [|f'] x Hf; [simpl in Hf; lia|].
      rewrite array_elements_S.
      repeat (rewrite <- app_assoc; cbn [app]).
      rewrite Hfv.
      * rewrite skip_ws_fwd by auto. rewrite E93, E44.
        rewrite Hcm at 1. cbn [app]. rewrite skip_ws_fwd by auto.
        change (y' :: t' ++ x) with ((y' :: t') ++ x). rewrite <- Hcm.
        apply Hfm.
        len_lia.
      * apply stop_after_ws; auto. apply is_follow_not_ws_cases; auto.
      * len_lia.
Qed.

Lemma scanner_local (f : nat) :
  scan_once_local f /\ object_members_local f /\ array_elements_local f.
Proof.
  induction f as [|f (IHs & IHo & IHa)].
  - repeat split; intros ? ? ? ?; simpl; discriminate.
  - repeat split.
    + now apply scan_once_local_step.
    + now apply object_members_local_step.
    + now apply array_elements_local_step.
Qed.

(** A text that [json.loads] reads as an object is an object literal, from
    its opening to its closing brace, between JSON whitespace; the literal
    alone reads as the same object. *)
Lemma json_loads_object (j : str) (d : list (str * pyval)) :
  json_loads j = Some (PyDict d) ->
  exists w1 body w2,
    j = w1 ++ (c_lbrace :: body ++ [c_rbrace]) ++ w2 /\
    forallb is_json_ws w1 = true /\ forallb is_json_ws w2 = true /\
    json_loads (c_lbrace :: body ++ [c_rbrace]) = Some (PyDict d).
Proof.
  unfold json_loads. intros H.
  destruct (skip_ws_split j) as [w1 [Hj Hw1]].
  destruct (scan_once (json_fuel (skip_ws j)) (skip_ws j)) as [v r| |] eqn:E;
    try discriminate.
  destruct (skip_ws r) eqn:Er; [|discriminate].
  injection H as ->.
  apply skip_ws_nil_iff in Er.
  destruct (scanner_local (json_fuel (skip_ws j))) as [Hs _].
  apply Hs in E. destruct E as (c & Hc & _ & Hd & Hfwd).
  destruct (Hd d eq_refl) as [body ->].
  exists w1, body, r. repeat split; auto.
  - rewrite Hj at 1. now rewrite Hc.
  - rewrite skip_ws_nonws by reflexivity.
    specialize (Hfwd (json_fuel (c_lbrace :: body ++ [c_rbrace])) [] eq_refl).
    rewrite app_nil_r in Hfwd. rewrite Hfwd; [reflexivity|].
    unfold json_fuel. lia.
Qed.

(** *** [strip] *)

Lemma json_ws_is_space (c : N) : is_json_ws c = true -> is_space c = true.
Proof.
  unfold is_json_ws. rewrite !orb_true_iff, !N.eqb_eq.
  intros [[[-> | ->] | ->] | ->]; reflexivity.
Qed.

Lemma lstrip_app (w s : str) :
  forallb is_space w = true -> lstrip (w ++ s) = lstrip s.
Proof.
  induction w as [|c w IH]; simpl; auto.
  intros H. apply andb_true_iff in H. destruct H as [-> H]. auto.
Qed.

Lemma forallb_rev {A : Type} (p : A -> bool) (l : list A) :
  forallb p (rev l) = forallb p l.
Proof.
  induction l as [|a l IH]; simpl; auto.
  rewrite forallb_app, IH. simpl. rewrite andb_true_r. apply andb_comm.
Qed.

Lemma strip_between (w1 w2 body : str) (a b : N) :
  forallb is_space w1 = true -> forallb is_space w2 = true ->
  is_space a = false -> is_space b = false ->
  strip (w1 ++ (a :: body ++ [b]) ++ w2) = a :: body ++ [b].
Proof.
  intros H1 H2 Ha Hb. unfold strip, rstrip.
  rewrite lstrip_app by auto. cbn [app lstrip]. rewrite Ha.
  change (a :: (body ++ [b]) ++ w2) with ((a :: body ++ [b]) ++ w2).
  rewrite rev_app_distr, lstrip_app by (now rewrite forallb_rev).
  change (a :: body ++ [b]) with ((a :: body) ++ [b]).
  rewrite rev_app_distr. cbn [rev app lstrip]. rewrite Hb.
  change (b :: rev body ++ [a]) with ([b] ++ rev (a :: body)).
  rewrite rev_app_distr, rev_involutive. reflexivity.
Qed.

(** *** The two searches *)

Lemma find_sub_unfold (p s : str) :
  find_sub p s =
  match starts_with p s with
  | Some rest => Some ([], rest)
  | None =>
    match s with
    | [] => None
    | c :: r =>
      match find_sub p r with
      | Some (a, b) => Some (c :: a, b)
      | None => None
      end
    end
  end.
Proof. destruct s; reflexivity. Qed.

Lemma find_sub_prefix (p x : str) : find_sub p (p ++ x) = Some ([], x).
Proof. rewrite find_sub_unfold, starts_with_app. reflexivity. Qed.

Lemma starts_with_fence_close_ext (s x : str) :
  starts_with fence_close s = None ->
  starts_with fence_close (s ++ c_nl :: x) = None.
Proof.
  unfold fence_close, c_nl.
  destruct s as [|a [|b [|c s]]]; cbn [app starts_with];
    change (96 =? 10) with false;
    repeat match goal with
           | |- context [96 =? ?v] => is_var v; destruct (96 =? v)
           end;
    intros H; try reflexivity; try discriminate.
Qed.



Lemma re_search_braces_object (body : str) :
  re_search_braces (c_lbrace :: body ++ [c_rbrace])
  = Some (c_lbrace :: body ++ [c_rbrace]).
Proof.
  unfold re_search_braces, up_to_last.
  cbn [from_first]. change (c_lbrace =? c_lbrace) with true. cbv iota.
  rewrite rev_app_distr. cbn [rev app from_first].
  change (c_rbrace =? c_rbrace) with true. cbv iota.
  change (c_rbrace :: rev body) with ([c_rbrace] ++ rev body).
  rewrite rev_app_distr, rev_involutive. reflexivity.
Qed.

(** *** [parse_json_safely] *)




(** *** The fuel of [json_loads] is never used up *)

Lemma skip_ws_eq_length (s t : str) (c : N) :
  skip_ws s = c :: t -> (length t < length s)%nat.
Proof.
  intros H. apply skip_ws_eq in H. destruct H as (w & -> & _). len_lia.
Qed.

Lemma scanstring_length (s k r : str) :
  scanstring s = Some (k, r) -> (length r < length s)%nat.
Proof.
  intros H. apply scanstring_local in H. destruct H as (c & -> & Hne & _).
  destruct c; [congruence|]. len_lia.
Qed.

Lemma scan_once_length (f : nat) (s r : str) (v : pyval) :
  scan_once f s = Parsed v r -> (length r < length s)%nat.
Proof.
  intros H. destruct (scanner_local f) as [Hs _].
  apply Hs in H. destruct H as (c & -> & Hne & _).
  destruct c; [congruence|]. len_lia.
Qed.

Lemma scanner_fuel (f : nat) : fuel_suffices f.
Proof.
  induction f as [|f (IHs & IHo & IHa)].
  - repeat split; intros; lia.
  - repeat split.
    + intros s Hf. rewrite scan_once_S.
      destruct s as [|c0 r0]; [discriminate|].
      destruct (c0 =? 34).
      { destruct (scanstring r0) as [[k r']|]; discriminate. }
      destruct (c0 =? 123).
      { destruct (skip_ws r0) as [|c1 r1] eqn:Ew; [discriminate|].
        destruct (c1 =? 125); [discriminate|].
        apply IHo. pose proof (skip_ws_length r0) as Hl. rewrite Ew in Hl.
        cbn [length] in *. lia. }
      destruct (c0 =? 91).
      { destruct (skip_ws r0) as [|c1 r1] eqn:Ew; [discriminate|].
        destruct (c1 =? 93); [discriminate|].
        apply IHa. pose proof (skip_ws_length r0) as Hl. rewrite Ew in Hl.
        cbn [length] in *. lia. }
      destruct (scan_atom (c0 :: r0)) as [[v r']|]; discriminate.
    + intros s pairs Hf. rewrite object_members_S.
      destruct s as [|c0 r0]; [discriminate|].
      destruct (c0 =? 34); [|discriminate].
      destruct (scanstring r0) as [[key r1]|] eqn:Es; [|discriminate].
      apply scanstring_length in Es.
      destruct (skip_ws r1) as [|c2 r2] eqn:Ew1; [discriminate|].
      apply skip_ws_eq_length in Ew1.
      destruct (c2 =? 58); [|discriminate].
      pose proof (skip_ws_length r2) as Hl2.
      destruct (scan_once f (skip_ws r2)) as [v r3| |] eqn:Ev; try discriminate.
      * apply scan_once_length in Ev.
        destruct (skip_ws r3) as [|c4 r4] eqn:Ew3; [discriminate|].
        apply skip_ws_eq_length in Ew3.
        destruct (c4 =? 125); [discriminate|].
        destruct (c4 =? 44); [|discriminate].
        apply IHo. pose proof (skip_ws_length r4). cbn [length] in *. lia.
      * exfalso. revert Ev. apply IHs. cbn [length] in *. lia.
    + intros s values Hf. rewrite array_elements_S.
      destruct (scan_once f s) as [v r| |] eqn:Ev; try discriminate.
      * apply scan_once_length in Ev.
        destruct (skip_ws r) as [|c r1] eqn:Ew; [discriminate|].
        apply skip_ws_eq_length in Ew.
        destruct (c =? 93); [discriminate|].
        destruct (c =? 44); [|discriminate].
        apply IHa. pose proof (skip_ws_length r1). lia.
      * exfalso. revert Ev. apply IHs. lia.
Qed.

(** [json_loads] answers [None] only for a text that is not JSON. *)
Lemma json_loads_fuel (s : str) :
  scan_once (json_fuel (skip_ws s)) (skip_ws s) <> NoFuel.
Proof.
  destruct (scanner_fuel (json_fuel (skip_ws s))) as [H _].
  apply H. unfold json_fuel. lia.
Qed.

(** C2: the extractor is documented to return a mapping ([-> Dict[str, Any]])
    and its caller goes on with [ontology.get(...)].  On the text [[1, 2]],
    which has no brace and is valid JSON, it returns the list that
    [json.loads] gives: neither a mapping nor the empty mapping. *)
Theorem parse_json_safely_returns_list :
  parse_json_safely (q "[1, 2]") = PyList [PyInt 1; PyInt 2] /\
  (forall d, parse_json_safely (q "[1, 2]") <> PyDict d) /\
  truthy (parse_json_safely (q "[1, 2]")) = true.
Proof.
  assert (E : parse_json_safely (q "[1, 2]") = PyList [PyInt 1; PyInt 2])
    by (vm_compute; reflexivity).
  rewrite E. repeat split. intros d; discriminate.
Qed.

(** Whatever is returned for a text in which a brace span is found is a
    mapping: a parse of a text that starts with an opening brace. *)
Lemma json_loads_brace_is_dict (s : str) (v : pyval) :
  json_loads (c_lbrace :: s) = Some v -> exists d, v = PyDict d.
Proof.
  unfold json_loads. rewrite skip_ws_nonws by reflexivity.
  unfold json_fuel. cbn [length Nat.mul Nat.add]. rewrite scan_once_S.
  change (c_lbrace =? 34) with false. change (c_lbrace =? 123) with true.
  cbv iota.
  destruct (skip_ws s) as [|c1 r1]; [discriminate|].
  destruct (c1 =? 125).
  - destruct (skip_ws r1); [|discriminate]. intros H; injection H as <-. eauto.
  - match goal with
    | |- context [object_members ?f ?x ?p] =>
      destruct (object_members f x p) as [v' r'| |] eqn:E
    end; try discriminate.
    destruct (skip_ws r'); [|discriminate]. intros H; injection H as <-.
    assert (Hd : forall f x p v r, object_members f x p = Parsed v r ->
                                   exists d, v = PyDict d).
    { clear. induction f as [|f IH]; intros x p v r; [discriminate|].
      rewrite object_members_S.
      destruct x as [|c0 r0]; [discriminate|].
      destruct (c0 =? 34); [|discriminate].
      destruct (scanstring r0) as [[key r1]|]; [|discriminate].
      destruct (skip_ws r1) as [|c2 r2]; [discriminate|].
      destruct (c2 =? 58); [|discriminate].
      destruct (scan_once f (skip_ws r2)) as [v1 r3| |]; try discriminate.
      destruct (skip_ws r3) as [|c4 r4]; [discriminate|].
      destruct (c4 =? 125).
      - intros H; injection H as <- _. eauto.
      - destruct (c4 =? 44); [|discriminate]. apply IH. }
    eapply Hd; eauto.
Qed.

Lemma from_first_head (c : N) (s r : str) :
  from_first c s = Some r -> exists rest, r = c :: rest.
Proof.
  induction s as [|x s IH]; simpl; [discriminate|].
  destruct (x =? c) eqn:E; auto.
  intros H; injection H as <-. apply N.eqb_eq in E; subst. eauto.
Qed.

Lemma re_search_braces_head (text g : str) :
  re_search_braces text = Some g -> exists rest, g = c_lbrace :: rest.
Proof.
  unfold re_search_braces.
  destruct (from_first c_lbrace text) as [[|b rest]|] eqn:E; try discriminate.
  apply from_first_head in E. destruct E as [rest' E]. injection E as -> _.
  destruct (up_to_last c_rbrace rest); [|discriminate].
  intros H; injection H as <-. eauto.
Qed.

(** The extractor returns something else than a mapping only for a text in
    which no brace span is found. *)
Lemma parse_json_safely_not_dict (text : str) :
  (forall d, parse_json_safely text <> PyDict d) ->
  re_search_braces (match re_search_fence text with
                    | Some g => strip g
                    | None => text
                    end) = None.
Proof.
  unfold parse_json_safely. intros H.
  destruct (negb (nonempty text)); [exfalso; eapply H; reflexivity|].
  destruct (re_search_braces _) as [g|] eqn:E; auto.
  exfalso. apply re_search_braces_head in E. destruct E as [rest ->].
  destruct (json_loads (c_lbrace :: rest)) as [v|] eqn:Ev.
  - apply json_loads_brace_is_dict in Ev. destruct Ev as [d ->]. eapply H; reflexivity.
  - eapply H; reflexivity.
Qed.

(* ================================================================== *)
(** ** Persona prompt *)
(* ================================================================== *)

Lemma rel_line_spec (r : Relationship) :
  rel_line r = if qualifies r then Some (bullet r) else None.
Proof.
  unfold rel_line, qualifies, bullet.
  destruct (nonempty (strip (or_empty (get r k_source)))
            && nonempty (strip (or_empty (get r k_target)))); auto.
  destruct (nonempty (strip (or_empty (get r k_relation)))); auto.
  now rewrite app_nil_r.
Qed.

Lemma rel_lines_loop_spec (rs : list Relationship) :
  forall acc, rel_lines_loop rs acc = acc ++ map bullet (filter qualifies rs).
Proof.
  induction rs as [|r rs IH]; intros acc; simpl.
  - now rewrite app_nil_r.
  - rewrite rel_line_spec. destruct (qualifies r); simpl.
    + rewrite IH, <- app_assoc. reflexivity.
    + apply IH.
Qed.

Example build_final_prompt_ex :
  relationships_bullets
    {| themes := Some [u "건강"]; keywords := None;
       relationships := Some [ [(k_source, Some (u " 건강 ")); (k_target, Some (u "자기관리"));
                                (k_relation, Some (u "지킨다"))];
                               [(k_source, Some (u "  ")); (k_target, Some (u "x"))];
                               [(k_source, Some (u "도전")); (k_target, Some (u "성취감"));
                                (k_relation, None)] ] |}
  = u "- 건강 ↔ 자기관리 : 지킨다
- 도전 ↔ 성취감".
Proof. vm_compute. reflexivity. Qed.

(** For an ontology of the expected shape, the relationship section of the
    persona prompt has one bullet line exactly for each relationship whose
    source and target are non-empty after trimming, in order, rendering the
    trimmed source, target and relation; when no relationship qualifies it
    is the sentinel line; and with the three keys absent the prompt is the
    template with empty theme and keyword lists and the sentinel line. *)
Lemma build_final_prompt_shaped_lines (name summary : str) (ontology : Ontology) :
  relationships_bullets ontology
  = match filter qualifies (get_list (relationships ontology)) with
    | [] => no_relationships
    | r :: rs => join [c_nl] (map bullet (r :: rs))
    end /\
  build_final_prompt_shaped name ontology summary
  = prompt_seg0 ++ name ++ prompt_seg1 ++ name ++ prompt_seg2
    ++ join (u ", ") (get_list (themes ontology))
    ++ prompt_seg3 ++ join (u ", ") (get_list (keywords ontology))
    ++ prompt_seg4 ++ relationships_bullets ontology
    ++ prompt_seg5 ++ summary ++ prompt_seg6 ++ name ++ prompt_seg7 /\
  build_final_prompt_shaped name
    {| themes := None; keywords := None; relationships := None |} summary
  = prompt_seg0 ++ name ++ prompt_seg1 ++ name ++ prompt_seg2
    ++ prompt_seg3 ++ prompt_seg4 ++ no_relationships
    ++ prompt_seg5 ++ summary ++ prompt_seg6 ++ name ++ prompt_seg7.
Proof.
  repeat split.
  unfold relationships_bullets. rewrite rel_lines_loop_spec. simpl.
  destruct (filter qualifies (get_list (relationships ontology))); reflexivity.
Qed.

(* ================================================================== *)
(** ** Persona prompt on the parsed value *)
(* ================================================================== *)

Lemma as_relationship_stripped (v : pyval) (rel : Relationship) :
  as_relationship v = Some rel ->
  stripped v k_source = Returns (strip (or_empty (get rel k_source))) /\
  stripped v k_target = Returns (strip (or_empty (get rel k_target))) /\
  stripped v k_relation = Returns (strip (or_empty (get rel k_relation))).
Proof.
  destruct v as [| | | | | |d]; try discriminate.
  unfold as_relationship, as_field, stripped. cbn [py_get and_then].
  destruct (dict_get k_source d) as [[| | | |s| |]|]; try discriminate;
    destruct (dict_get k_target d) as [[| | | |t| |]|]; try discriminate;
    destruct (dict_get k_relation d) as [[| | | |r| |]|]; try discriminate;
    intros H; injection H as <-;
    try destruct s; try destruct t; try destruct r;
    repeat split; reflexivity.
Qed.

Lemma py_rel_line_shaped (v : pyval) (rel : Relationship) :
  as_relationship v = Some rel -> py_rel_line v = Returns (rel_line rel).
Proof.
  intros H. destruct (as_relationship_stripped v rel H) as (Hs & Ht & Hr).
  unfold py_rel_line. rewrite Hs, Ht, Hr. reflexivity.
Qed.

Lemma py_rel_lines_loop_shaped (l : list pyval) :
  forall rels acc,
    all_some (map as_relationship l) = Some rels ->
    py_rel_lines_loop l acc = Returns (rel_lines_loop rels acc).
Proof.
  induction l as [|v l IH]; cbn [map all_some py_rel_lines_loop]; intros rels acc H.
  - injection H as <-. reflexivity.
  - destruct (as_relationship v) as [rel|] eqn:Ev; [|discriminate].
    destruct (all_some (map as_relationship l)) as [rs|] eqn:El; [|discriminate].
    injection H as <-. rewrite (py_rel_line_shaped v rel Ev).
    cbn [and_then rel_lines_loop]. destruct (rel_line rel); now apply IH.
Qed.

Lemma py_join_shaped (sep : str) (d : dict pyval) (k : str) (field : option (list str)) :
  as_str_list d k = Some field ->
  py_join sep (match dict_get k d with Some x => x | None => PyList [] end)
  = Returns (join sep (get_list field)).
Proof.
  unfold as_str_list, py_join.
  destruct (dict_get k d) as [[| | | | |l|]|]; try discriminate.
  - cbn [py_iter and_then].
    destruct (all_some (map as_str l)) as [strs|]; [|discriminate].
    intros H; injection H as <-. reflexivity.
  - intros H; injection H as <-. reflexivity.
Qed.

(** On a mapping of the expected shape [build_final_prompt] returns the
    prompt of the ontology read off the mapping. *)
Lemma build_final_prompt_on_shaped (name summary : str) (d : dict pyval) (o : Ontology) :
  as_ontology d = Some o ->
  build_final_prompt name (PyDict d) summary
  = Returns (build_final_prompt_shaped name o summary).
Proof.
  unfold as_ontology, build_final_prompt. cbn [py_get and_then].
  destruct (as_str_list d k_themes) as [th|] eqn:Eth; [|discriminate].
  destruct (as_str_list d k_keywords) as [kw|] eqn:Ekw; [|discriminate].
  rewrite (py_join_shaped _ d k_themes th Eth), (py_join_shaped _ d k_keywords kw Ekw).
  cbn [and_then].
  destruct (dict_get k_relationships d) as [[| | | | |l|]|]; try discriminate.
  - intros H; injection H as <-.
    cbn [py_or truthy py_iter and_then py_rel_lines_loop].
    unfold build_final_prompt_shaped, relationships_bullets.
    cbn [get_list themes keywords relationships rel_lines_loop].
    reflexivity.
  - destruct (all_some (map as_relationship l)) as [rels|] eqn:El; [|discriminate].
    intros H; injection H as <-.
    assert (Hi : py_iter (py_or (PyList l) (PyList [])) = Returns l)
      by (destruct l; reflexivity).
    rewrite Hi. cbn [and_then]. rewrite (py_rel_lines_loop_shaped l rels [] El).
    cbn [and_then].
    unfold build_final_prompt_shaped, relationships_bullets.
    cbn [get_list themes keywords relationships].
    reflexivity.
  - intros H; injection H as <-.
    cbn [py_or truthy py_iter and_then py_rel_lines_loop].
    unfold build_final_prompt_shaped, relationships_bullets.
    cbn [get_list themes keywords relationships rel_lines_loop].
    reflexivity.
Qed.

(** C10: the builder is to return the prompt for every ontology mapping,
    without ever raising.  A key that is absent is covered by the default
    of [get], and a null under "relationships" by [or []]; a null under
    "themes" (or under "keywords") is not: [", ".join(None)] raises. *)
Theorem build_final_prompt_raises_on_null_themes (name summary : str) :
  build_final_prompt name ontology_null_themes summary = Raises /\
  build_final_prompt name (PyDict [(k_keywords, PyNone)]) summary = Raises /\
  build_final_prompt name ontology_null_relationships summary
  = build_final_prompt name (PyDict []) summary /\
  build_final_prompt name (PyDict []) summary
  = Returns (build_final_prompt_shaped name
               {| themes := None; keywords := None; relationships := None |} summary).
Proof.
  split; [reflexivity|]. split; [reflexivity|]. split; [reflexivity|].
  apply build_final_prompt_on_shaped. reflexivity.
Qed.

(** X20: on every mapping of the expected shape (themes and keywords
    absent or lists of strings; relationships absent, null or a list of
    mappings whose source, target and relation are absent, null or
    strings) [build_final_prompt] does not raise; it returns the template
    filled with the name, the joined themes and keywords, the summary, and
    one bullet line exactly for each relationship whose source and target
    are non-empty after trimming, in order, or the sentinel line when none
    qualifies. *)
Theorem build_final_prompt_on_shaped_mapping
    (name summary : str) (d : dict pyval) (o : Ontology) :
  as_ontology d = Some o ->
  build_final_prompt name (PyDict d) summary
  = Returns (prompt_seg0 ++ name ++ prompt_seg1 ++ name ++ prompt_seg2
             ++ join (u ", ") (get_list (themes o))
             ++ prompt_seg3 ++ join (u ", ") (get_list (keywords o))
             ++ prompt_seg4
             ++ match filter qualifies (get_list (relationships o)) with
                | [] => no_relationships
                | r :: rs => join [c_nl] (map bullet (r :: rs))
                end
             ++ prompt_seg5 ++ summary ++ prompt_seg6 ++ name ++ prompt_seg7).
Proof.
  intros H. rewrite (build_final_prompt_on_shaped name summary d o H).
  destruct (build_final_prompt_shaped_lines name summary o) as (Hb & Hp & _).
  rewrite Hp, Hb. reflexivity.
Qed.

(* ================================================================== *)
(** ** Dictionaries *)
(* ================================================================== *)

Section Dict.
Context {V : Type}.
Implicit Types (d : dict V) (k : str) (v : V).

Lemma dict_get_set_same k v d : dict_get k (dict_set k v d) = Some v.
Proof.
  induction d as [|[k' v'] d IH]; simpl.
  - now rewrite str_eqb_refl.
  - destruct (str_eqb k k') eqn:E; simpl; now rewrite E.
Qed.

Lemma dict_get_set_other k k' v d :
  k <> k' -> dict_get k (dict_set k' v d) = dict_get k d.
Proof.
  intros Hne. induction d as [|[k0 v0] d IH]; simpl.
  - apply str_eqb_neq in Hne. now rewrite Hne.
  - destruct (str_eqb k' k0) eqn:E; simpl.
    + apply str_eqb_eq in E; subst k0.
      apply str_eqb_neq in Hne. now rewrite Hne.
    + now rewrite IH.
Qed.

Lemma dict_get_set k k' v d :
  dict_get k (dict_set k' v d) = if str_eqb k k' then Some v else dict_get k d.
Proof.
  destruct (str_eqb k k') eqn:E.
  - apply str_eqb_eq in E; subst. apply dict_get_set_same.
  - apply str_eqb_neq in E. now apply dict_get_set_other.
Qed.

Lemma dict_get_None k d : dict_get k d = None <-> ~ In k (map fst d).
Proof.
  induction d as [|[k' v'] d IH]; simpl; [tauto|].
  destruct (str_eqb k k') eqn:E.
  - apply str_eqb_eq in E; subst. split; [discriminate | tauto].
  - apply str_eqb_neq in E. rewrite IH. intuition congruence.
Qed.

Lemma dict_get_Some_In k v d : dict_get k d = Some v -> In (k, v) d.
Proof.
  induction d as [|[k' v'] d IH]; simpl; [discriminate|].
  destruct (str_eqb k k') eqn:E.
  - apply str_eqb_eq in E; subst. intros H; injection H as ->. auto.
  - auto.
Qed.

Lemma dict_get_In k v d : NoDup (map fst d) -> In (k, v) d -> dict_get k d = Some v.
Proof.
  induction d as [|[k' v'] d IH]; simpl; [tauto|].
  intros Hnd [E|Hin].
  - injection E as -> ->. now rewrite str_eqb_refl.
  - inversion Hnd as [|? ? Hni Hnd']; subst.
    destruct (str_eqb k k') eqn:E; auto.
    apply str_eqb_eq in E; subst k'. exfalso; apply Hni.
    apply (in_map fst) in Hin. exact Hin.
Qed.

Lemma dict_mem_In k d : dict_mem k d = true <-> In k (map fst d).
Proof.
  unfold dict_mem. destruct (dict_get k d) eqn:E.
  - split; auto. intros _. apply dict_get_Some_In in E.
    apply (in_map fst) in E. exact E.
  - split; [discriminate|]. intros H. apply dict_get_None in E. tauto.
Qed.

Lemma dict_set_keys k v d :
  map fst (dict_set k v d) = if dict_mem k d then map fst d else map fst d ++ [k].
Proof.
  unfold dict_mem. induction d as [|[k' v'] d IH]; simpl; auto.
  destruct (str_eqb k k') eqn:E; simpl; auto.
  rewrite IH. destruct (dict_get k d); reflexivity.
Qed.

Lemma dict_set_NoDup k v d : NoDup (map fst d) -> NoDup (map fst (dict_set k v d)).
Proof.
  intros H. rewrite dict_set_keys.
  destruct (dict_mem k d) eqn:E; auto.
  apply NoDup_app; auto.
  - constructor; [intros []| constructor].
  - intros y Hy [<-|[]]. apply dict_mem_In in Hy. congruence.
Qed.

Lemma dict_set_In_keys k k0 v d :
  In k0 (map fst (dict_set k v d)) <-> k0 = k \/ In k0 (map fst d).
Proof.
  rewrite dict_set_keys. destruct (dict_mem k d) eqn:E.
  - apply dict_mem_In in E. intuition congruence.
  - rewrite in_app_iff. simpl. intuition congruence.
Qed.

End Dict.

(* ================================================================== *)
(** ** Graph Builder *)
(* ================================================================== *)

Lemma mem_In (x : str) (l : list str) : mem x l = true <-> In x l.
Proof. apply existsb_str_eqb. Qed.

Lemma mem_false (x : str) (l : list str) : mem x l = false <-> ~ In x l.
Proof.
  rewrite <- mem_In. destruct (mem x l); split; congruence.
Qed.

Lemma neighbours_set (a k : str) (x : dict label) (G : Graph) :
  neighbours a (dict_set k x G) = if str_eqb a k then x else neighbours a G.
Proof.
  unfold neighbours. rewrite dict_get_set. destruct (str_eqb a k); reflexivity.
Qed.

Lemma neighbours_add_node (a n : str) (G : Graph) :
  neighbours a (add_node n G) = neighbours a G.
Proof.
  unfold add_node, dict_mem.
  destruct (dict_get n G) eqn:E; auto.
  rewrite neighbours_set. destruct (str_eqb a n) eqn:Ea; auto.
  apply str_eqb_eq in Ea; subst. unfold neighbours. now rewrite E.
Qed.

(** After [add_edge u v lbl] the edge between [u] and [v] carries [lbl], in
    both directions, and every other edge is as before. *)
Lemma edge_label_add_edge (u0 v0 a b : str) (lbl : label) (G : Graph) :
  edge_label (add_edge u0 v0 lbl G) a b
  = if joins a b (u0, v0) then Some lbl else edge_label G a b.
Proof.
  unfold edge_label, add_edge, joins. cbn [fst snd].
  rewrite !neighbours_set, !neighbours_add_node.
  str_eqb_cases; cbn [andb orb]; rewrite ?dict_get_set;
    str_eqb_cases; cbn [andb orb]; rewrite ?dict_get_set;
    rewrite ?str_eqb_refl; try reflexivity; try discriminate;
    str_eqb_cases; try reflexivity; try discriminate.
Qed.

Lemma nodes_add_node_NoDup (n : str) (G : Graph) :
  NoDup (nodes G) -> NoDup (nodes (add_node n G)).
Proof.
  unfold add_node, nodes. destruct (dict_mem n G); auto. apply dict_set_NoDup.
Qed.

Lemma nodes_add_edge_NoDup (u0 v0 : str) (lbl : label) (G : Graph) :
  NoDup (nodes G) -> NoDup (nodes (add_edge u0 v0 lbl G)).
Proof.
  intros H. unfold add_edge, nodes.
  apply dict_set_NoDup, dict_set_NoDup.
  apply nodes_add_node_NoDup, nodes_add_node_NoDup, H.
Qed.

Lemma neighbours_add_edge_NoDup (u0 v0 : str) (lbl : label) (G : Graph) :
  (forall n, NoDup (map fst (neighbours n G))) ->
  forall n, NoDup (map fst (neighbours n (add_edge u0 v0 lbl G))).
Proof.
  intros H n. unfold add_edge.
  rewrite !neighbours_set, !neighbours_add_node.
  destruct (str_eqb n v0).
  - apply dict_set_NoDup. destruct (str_eqb v0 u0); auto.
    apply dict_set_NoDup; auto.
  - destruct (str_eqb n u0); auto. apply dict_set_NoDup; auto.
Qed.

Lemma build_graph_snoc (rels : list Relationship) (rel : Relationship) :
  build_graph (rels ++ [rel]) = add_relationship (build_graph rels) rel.
Proof. unfold build_graph. now rewrite fold_left_app. Qed.

Lemma build_graph_wf (rels : list Relationship) : graph_wf (build_graph rels).
Proof.
  induction rels as [|rel rels IH] using rev_ind.
  - split; [constructor | intros n; constructor].
  - rewrite build_graph_snoc. unfold add_relationship.
    destruct (truthy_str (get rel k_source) && truthy_str (get rel k_target)); auto.
    destruct IH as [H1 H2]. split.
    + now apply nodes_add_edge_NoDup.
    + now apply neighbours_add_edge_NoDup.
Qed.

Lemma last_label_snoc (rels : list Relationship) (rel : Relationship) (a b : str) :
  last_label (rels ++ [rel]) a b
  = if connects a b rel then Some (get_default rel k_relation (Some []))
    else last_label rels a b.
Proof.
  unfold last_label. rewrite rev_app_distr. simpl.
  destruct (connects a b rel); reflexivity.
Qed.

Lemma edge_label_build_graph (rels : list Relationship) (a b : str) :
  edge_label (build_graph rels) a b = last_label rels a b.
Proof.
  induction rels as [|rel rels IH] using rev_ind.
  - reflexivity.
  - rewrite build_graph_snoc, last_label_snoc. unfold add_relationship, connects.
    destruct (truthy_str (get rel k_source) && truthy_str (get rel k_target)); auto.
    rewrite edge_label_add_edge, IH. reflexivity.
Qed.

Lemma joins_sym (a b : str) (e : str * str) : joins a b e = joins b a e.
Proof. unfold joins. apply orb_comm. Qed.

Lemma last_label_sym (rels : list Relationship) (a b : str) :
  last_label rels a b = last_label rels b a.
Proof.
  unfold last_label.
  assert (E : forall l, find (connects a b) l = find (connects b a) l).
  { induction l as [|r l IH]; simpl; auto.
    unfold connects at 1 3. rewrite (joins_sym a b). fold (connects b a r).
    destruct (connects b a r); auto. }
  now rewrite E.
Qed.

Lemma nodes_add_node_In (n m : str) (G : Graph) :
  In n (nodes (add_node m G)) <-> n = m \/ In n (nodes G).
Proof.
  unfold add_node, nodes. destruct (dict_mem m G) eqn:E.
  - apply dict_mem_In in E. intuition congruence.
  - apply dict_set_In_keys.
Qed.

Lemma nodes_add_edge_In (n u0 v0 : str) (lbl : label) (G : Graph) :
  In n (nodes (add_edge u0 v0 lbl G)) <-> n = u0 \/ n = v0 \/ In n (nodes G).
Proof.
  unfold add_edge. unfold nodes at 1.
  rewrite !dict_set_In_keys. fold (nodes (add_node v0 (add_node u0 G))).
  rewrite !nodes_add_node_In. tauto.
Qed.

(** The nodes of the graph are the sources and targets, as they are
    written, of the relationships whose source and target are not empty. *)
Lemma build_graph_nodes (rels : list Relationship) (n : str) :
  In n (nodes (build_graph rels)) <->
  exists rel, In rel rels /\
    truthy_str (get rel k_source) && truthy_str (get rel k_target) = true /\
    (n = or_empty (get rel k_source) \/ n = or_empty (get rel k_target)).
Proof.
  induction rels as [|rel rels IH] using rev_ind.
  - simpl. split; [tauto | intros [rel [[] _]]].
  - rewrite build_graph_snoc. unfold add_relationship.
    destruct (truthy_str (get rel k_source) && truthy_str (get rel k_target)) eqn:E.
    + rewrite nodes_add_edge_In, IH. split.
      * intros [-> | [-> | [r [Hr H]]]].
        -- exists rel. rewrite in_app_iff. simpl. auto.
        -- exists rel. rewrite in_app_iff. simpl. auto.
        -- exists r. rewrite in_app_iff. auto.
      * intros [r [Hr [Ht Hn]]]. apply in_app_iff in Hr.
        destruct Hr as [Hr | [<- | []]].
        -- right; right. exists r. auto.
        -- tauto.
    + rewrite IH. split.
      * intros [r [Hr H]]. exists r. rewrite in_app_iff. auto.
      * intros [r [Hr [Ht Hn]]]. apply in_app_iff in Hr.
        destruct Hr as [Hr | [<- | []]].
        -- exists r. auto.
        -- congruence.
Qed.

(** *** [G.edges()] lists each edge once *)

Lemma filter_NoDup_le1 (p : str -> bool) (c : str) (l : list str) :
  NoDup l -> (forall y, In y l -> p y = true -> y = c) ->
  (length (filter p l) <= 1)%nat.
Proof.
  induction 1 as [|x l Hni Hnd IH]; intros Hc; simpl; [lia|].
  destruct (p x) eqn:Ex.
  - assert (x = c) by (apply Hc; simpl; auto). subst x.
    destruct (filter p l) as [|y ys] eqn:Ef; simpl; [lia|].
    exfalso. assert (Hy : In y (filter p l)) by (rewrite Ef; simpl; auto).
    apply filter_In in Hy. destruct Hy as [Hy Hp].
    assert (y = c) by (apply Hc; simpl; auto). subst y. auto.
  - apply IH. intros y Hy. apply Hc. simpl; auto.
Qed.

Lemma joins_true (a b x y : str) :
  joins a b (x, y) = true <-> (x = a /\ y = b) \/ (x = b /\ y = a).
Proof.
  unfold joins. cbn [fst snd].
  rewrite orb_true_iff, !andb_true_iff, !str_eqb_eq. tauto.
Qed.

Lemma edges_from_cons (n : str) (nbrs : dict label) (rest : Graph) (seen : list str) :
  edges_from ((n, nbrs) :: rest) seen
  = row_edges n nbrs seen ++ edges_from rest (n :: seen).
Proof. reflexivity. Qed.

Lemma row_edges_In (n x y : str) (nbrs : dict label) (seen : list str) :
  In (x, y) (row_edges n nbrs seen)
  <-> x = n /\ In y (map fst nbrs) /\ mem y seen = false.
Proof.
  unfold row_edges. rewrite in_map_iff. split.
  - intros [nbr [E H]]. injection E as <- <-.
    apply filter_In in H. destruct H as [H1 H2].
    apply negb_true_iff in H2. auto.
  - intros (-> & H1 & H2). exists y. split; auto.
    apply filter_In. split; auto. now rewrite H2.
Qed.

Lemma row_edges_le1 (a b n : str) (nbrs : dict label) (seen : list str) :
  NoDup (map fst nbrs) ->
  (length (filter (joins a b) (row_edges n nbrs seen)) <= 1)%nat.
Proof.
  intros Hnd. unfold row_edges.
  assert (E : forall l, filter (joins a b) (map (fun nbr => (n, nbr)) l)
                        = map (fun nbr => (n, nbr)) (filter (fun nbr => joins a b (n, nbr)) l)).
  { induction l as [|y l IH]; simpl; auto.
    destruct (joins a b (n, y)); simpl; now rewrite IH. }
  rewrite E, length_map.
  apply (filter_NoDup_le1 _ (if str_eqb n a then b else a)).
  - now apply NoDup_filter.
  - intros y _ Hj. apply joins_true in Hj.
    destruct (str_eqb n a) eqn:En.
    + apply str_eqb_eq in En. destruct Hj as [[_ ->] | [-> ->]]; congruence.
    + apply str_eqb_neq in En. destruct Hj as [[-> _] | [_ ->]]; congruence.
Qed.

Lemma edges_from_In (rows : Graph) :
  forall seen x y,
    In (x, y) (edges_from rows seen) ->
    mem y seen = false /\ exists nbrs, In (x, nbrs) rows /\ In y (map fst nbrs).
Proof.
  induction rows as [|[n nbrs] rest IH]; intros seen x y H; [destruct H|].
  rewrite edges_from_cons in H. apply in_app_iff in H. destruct H as [H|H].
  - apply row_edges_In in H. destruct H as (-> & H1 & H2).
    split; auto. exists nbrs. simpl; auto.
  - apply IH in H. destruct H as [Hs [nb [H1 H2]]]. split.
    + simpl in Hs. apply orb_false_iff in Hs. tauto.
    + exists nb. simpl; auto.
Qed.

Lemma edges_from_not_seen_head (rest : Graph) (n x y : str) (seen : list str) :
  ~ In n (map fst rest) ->
  In (x, y) (edges_from rest (n :: seen)) -> x <> n /\ y <> n.
Proof.
  intros Hni H. apply edges_from_In in H. destruct H as [Hs [nb [H1 H2]]]. split.
  - intros ->. apply Hni. apply (in_map fst) in H1. exact H1.
  - intros ->. simpl in Hs. now rewrite str_eqb_refl in Hs.
Qed.

Lemma edges_from_le1 (a b : str) (rows : Graph) :
  forall seen,
    NoDup (map fst rows) ->
    (forall n nbrs, In (n, nbrs) rows -> NoDup (map fst nbrs)) ->
    (length (filter (joins a b) (edges_from rows seen)) <= 1)%nat.
Proof.
  induction rows as [|[n nbrs] rest IH]; intros seen Hnd Hin; simpl; [lia|].
  fold (row_edges n nbrs seen).
  rewrite filter_app, length_app.
  inversion Hnd as [|? ? Hni Hnd']; subst.
  assert (Hrow := row_edges_le1 a b n nbrs seen (Hin n nbrs (or_introl eq_refl))).
  assert (Hrest := IH (n :: seen) Hnd' (fun n0 nb H => Hin n0 nb (or_intror H))).
  destruct (filter (joins a b) (row_edges n nbrs seen)) as [|[x y] l] eqn:Er;
    simpl in *; [lia|].
  assert (Hxy : In (x, y) (filter (joins a b) (row_edges n nbrs seen)))
    by (rewrite Er; simpl; auto).
  apply filter_In in Hxy. destruct Hxy as [Hr Hj].
  apply row_edges_In in Hr. destruct Hr as (-> & _ & _).
  destruct (filter (joins a b) (edges_from rest (n :: seen))) as [|[x' y'] l'] eqn:Ee;
    simpl; [lia|].
  exfalso.
  assert (H' : In (x', y') (filter (joins a b) (edges_from rest (n :: seen))))
    by (rewrite Ee; simpl; auto).
  apply filter_In in H'. destruct H' as [He Hj'].
  apply edges_from_not_seen_head in He; auto. destruct He as [Hx Hy].
  apply joins_true in Hj. apply joins_true in Hj'.
  destruct Hj as [[-> _] | [-> _]]; destruct Hj' as [[-> ->] | [-> ->]]; congruence.
Qed.

Lemma neighbours_cons (a n : str) (nbrs : dict label) (rest : Graph) :
  neighbours a ((n, nbrs) :: rest) = if str_eqb a n then nbrs else neighbours a rest.
Proof.
  unfold neighbours. simpl. destruct (str_eqb a n); reflexivity.
Qed.

Lemma adjacent_In (nbrs : dict label) (b : str) :
  dict_get b nbrs <> None -> In b (map fst nbrs).
Proof.
  intros H. destruct (in_dec (list_eq_dec N.eq_dec) b (map fst nbrs)) as [Hi|Hi]; auto.
  apply dict_get_None in Hi. congruence.
Qed.

Lemma edges_from_exists (a b : str) (rows : Graph) :
  forall seen,
    mem a seen = false -> mem b seen = false ->
    adjacent rows a b ->
    (forall x y, mem x seen = false -> mem y seen = false ->
                 adjacent rows x y -> adjacent rows y x) ->
    exists e, In e (edges_from rows seen) /\ joins a b e = true.
Proof.
  induction rows as [|[n nbrs] rest IH]; intros seen Ha Hb Hadj Hsym.
  - exfalso. apply Hadj. reflexivity.
  - rewrite edges_from_cons.
    destruct (str_eqb a n) eqn:Ean.
    + apply str_eqb_eq in Ean; subst n.
      unfold adjacent in Hadj. rewrite neighbours_cons, str_eqb_refl in Hadj.
      exists (a, b). split.
      * apply in_app_iff. left. apply row_edges_In. auto using adjacent_In.
      * apply joins_true. auto.
    + destruct (str_eqb b n) eqn:Ebn.
      * apply str_eqb_eq in Ebn; subst n.
        apply Hsym in Hadj; auto.
        unfold adjacent in Hadj. rewrite neighbours_cons, str_eqb_refl in Hadj.
        exists (b, a). split.
        -- apply in_app_iff. left. apply row_edges_In. auto using adjacent_In.
        -- apply joins_true. auto.
      * destruct (IH (n :: seen)) as [e [He Hj]].
        -- simpl. now rewrite Ean, Ha.
        -- simpl. now rewrite Ebn, Hb.
        -- unfold adjacent in *. now rewrite neighbours_cons, Ean in Hadj.
        -- intros x y Hx Hy Hxy. simpl in Hx, Hy.
           apply orb_false_iff in Hx. apply orb_false_iff in Hy.
           destruct Hx as [Hxn Hx], Hy as [Hyn Hy].
           unfold adjacent in *.
           specialize (Hsym x y Hx Hy).
           rewrite !neighbours_cons, Hxn, Hyn in Hsym. auto.
        -- exists e. split; auto. apply in_app_iff. auto.
Qed.

Lemma edges_between_count (G : Graph) (a b : str) :
  graph_wf G ->
  (forall x y, edge_label G x y = edge_label G y x) ->
  length (edges_between G a b)
  = match edge_label G a b with Some _ => 1%nat | None => 0%nat end.
Proof.
  intros [Hnd Hin] Hsym. unfold edges_between, edges.
  assert (Hle : (length (filter (joins a b) (edges_from G [])) <= 1)%nat).
  { apply edges_from_le1; auto.
    intros n nbrs H. specialize (Hin n).
    unfold neighbours in Hin. now rewrite (dict_get_In _ _ _ Hnd H) in Hin. }
  destruct (edge_label G a b) as [l|] eqn:El.
  - destruct (edges_from_exists a b G []) as [e [He Hj]]; auto.
    + unfold adjacent. unfold edge_label in El. congruence.
    + intros x y _ _. unfold adjacent. fold (edge_label G x y) (edge_label G y x).
      now rewrite (Hsym x y).
    + assert (Hf : In e (filter (joins a b) (edges_from G [])))
        by (apply filter_In; auto).
      destruct (filter (joins a b) (edges_from G [])); simpl in *; [tauto | lia].
  - destruct (filter (joins a b) (edges_from G [])) as [|[x y] l] eqn:Ef; auto.
    exfalso.
    assert (Hf : In (x, y) (filter (joins a b) (edges_from G [])))
      by (rewrite Ef; simpl; auto).
    apply filter_In in Hf. destruct Hf as [He Hj].
    apply edges_from_In in He. destruct He as [_ [nbrs [H1 H2]]].
    assert (Hxy : edge_label G x y <> None).
    { unfold edge_label, neighbours. rewrite (dict_get_In _ _ _ Hnd H1).
      intros Hn. apply dict_get_None in Hn. auto. }
    apply joins_true in Hj. destruct Hj as [[-> ->] | [-> ->]].
    + congruence.
    + rewrite Hsym in Hxy. congruence.
Qed.

Example build_graph_ex :
  build_graph [rel3 (u "A") (u "B") (u "r1"); rel3 (u "C") (u "A") (u "r2");
               rel3 (u "B") (u "A") (u "r3"); rel3 (u "C") (u "C") (u "r4")]
  = [ (u "A", [(u "B", Some (u "r3")); (u "C", Some (u "r2"))]);
      (u "B", [(u "A", Some (u "r3"))]);
      (u "C", [(u "A", Some (u "r2")); (u "C", Some (u "r4"))]) ].
Proof. vm_compute. reflexivity. Qed.

(** C5: for every relationship list and every pair of nodes, [G.edges()]
    has one entry between them when some kept relationship connects them
    and none otherwise, never more; the label of the edge, read from either
    end, is the label of the last relationship that connects the pair.  For
    the two relationships A-B "r1" and A-B "r2" the graph has the single
    edge (A, B), labelled "r2". *)
Theorem build_graph_one_edge_last_label (rels : list Relationship) (a b : str) :
  length (edges_between (build_graph rels) a b)
  = match last_label rels a b with Some _ => 1%nat | None => 0%nat end /\
  edge_label (build_graph rels) a b = last_label rels a b /\
  edge_label (build_graph rels) b a = last_label rels a b /\
  edges (build_graph [rel3 (u "A") (u "B") (u "r1"); rel3 (u "A") (u "B") (u "r2")])
  = [(u "A", u "B")] /\
  edge_label (build_graph [rel3 (u "A") (u "B") (u "r1"); rel3 (u "A") (u "B") (u "r2")])
             (u "A") (u "B") = Some (Some (u "r2")).
Proof.
  split; [|split; [|split; [|split]]].
  - rewrite <- edge_label_build_graph. apply edges_between_count.
    + apply build_graph_wf.
    + intros x y. rewrite !edge_label_build_graph. apply last_label_sym.
  - apply edge_label_build_graph.
  - rewrite edge_label_build_graph. apply last_label_sym.
  - vm_compute. reflexivity.
  - vm_compute. reflexivity.
Qed.

(** C4: a relationship whose source is whitespace-only is to be left out of
    the graph, as [build_final_prompt] leaves it out of the prompt (there
    the values are trimmed before the test).  The graph builder tests the
    untrimmed values: the blank string becomes a node and the relationship
    an edge. *)
Theorem build_graph_keeps_blank_source :
  strip (or_empty (get rel_blank_source k_source)) = [] /\
  qualifies rel_blank_source = false /\
  nodes (build_graph [rel_blank_source]) = [u " "; u "B"] /\
  edges (build_graph [rel_blank_source]) = [(u " ", u "B")] /\
  edge_label (build_graph [rel_blank_source]) (u " ") (u "B") = Some (Some (u "r")).
Proof. repeat split. Qed.

(* ================================================================== *)
(** ** Streaming Completion Sink *)
(* ================================================================== *)

Section StreamFacts.
Context {coord : Type}.

Lemma consume_spec (resp : response) (lang : str) :
  forall buffer,
    @consume coord resp lang buffer
    = (buffer ++ concat (arrived resp),
       map (fun b => CodeBlock b lang) (running buffer (filter nonempty (arrived resp))),
       failure resp).
Proof.
  induction resp as [|e|chunk rest IH]; intros buffer; simpl.
  - now rewrite app_nil_r.
  - now rewrite app_nil_r.
  - destruct (or_empty chunk) as [|c t] eqn:E; simpl.
    + apply IH.
    + rewrite IH. simpl. rewrite <- app_assoc. reflexivity.
Qed.

(** C8 (amended): the sink returns the concatenation, in arrival order,
    of the chunk texts that arrive before the stream ends or fails (a
    chunk without text adds nothing), so what was accumulated before a
    failure is kept and returned.  The failure is surfaced to the display
    only: after the running buffers, the title shows the error marker and
    the code block the message, where a stream that ends shows the
    received marker.  The returned string carries no failure marker. *)
Theorem stream_generate_text_spec (model : str -> response) (prompt lang_hint : str) :
  @stream_generate_text coord model prompt lang_hint
  = (concat (arrived (model prompt)),
     [Title title_generating]
     ++ map (fun b => CodeBlock b lang_hint)
            (running [] (filter nonempty (arrived (model prompt))))
     ++ match failure (model prompt) with
        | None => [Title title_received]
        | Some e => [Title title_error; CodeBlock (streaming_error e) (u "text")]
        end).
Proof.
  unfold stream_generate_text. rewrite consume_spec. reflexivity.
Qed.

End StreamFacts.

(** C8, as stated: a failure would reach the caller as a marker distinct
    from a successful empty result.  A stream that raises before any chunk
    and a stream that ends without any chunk return the same value, the
    empty string. *)
Lemma stream_failure_returns_like_empty_success :
  failure (StreamRaise (u "503")) = Some (u "503") /\
  failure StreamEnd = None /\
  fst (@stream_generate_text unit (fun _ => StreamRaise (u "503")) (u "p") (u "json")) = [] /\
  fst (@stream_generate_text unit (fun _ => StreamEnd) (u "p") (u "json")) = [].
Proof. repeat split. Qed.

(* ================================================================== *)
(** ** Layout and plot *)
(* ================================================================== *)

Section PlotFacts.
Context {coord rng : Type}.
Variable RandomState : N -> rng.
Variable fruchterman_reingold :
  Graph -> nat -> rng -> (str -> coord * coord * coord) * rng.

Local Abbreviation layout := (spring_layout RandomState fruchterman_reingold).
Local Abbreviation plot := (plot_ontology_3d RandomState fruchterman_reingold).
Local Abbreviation plot_events := (plot_events RandomState fruchterman_reingold).

Lemma plot_ontology_3d_spec (ontology : Ontology) (title : str) (w : world coord rng) :
  plot ontology title w
  = (Done tt, {| analysis := analysis w; calls := calls w; generator := generator w;
                 shown := shown w ++ plot_events ontology title |}).
Proof.
  unfold plot_ontology_3d, plot_events.
  destruct (get_list (relationships ontology)) as [|r rels]; [reflexivity|].
  unfold bind, spring_layout, show, show_all. cbn [analysis calls generator shown].
  rewrite <- app_assoc. reflexivity.
Qed.

(** C6: with no node in the graph the builder is to report that there is
    nothing to render and to leave the layout alone.  The guard looks at
    the relationship list before the invalid relationships are dropped:
    for a list whose only relationship has an empty source, the graph has
    no node, nothing is reported, and the layout is called on the empty
    graph and its chart shown. *)
Theorem plot_ontology_3d_lays_out_empty_graph (title : str) (w : world coord rng) :
  nodes (build_graph [rel_no_source]) = [] /\
  shown (snd (plot ontology_invalid_only title w))
  = shown w ++
    [SpringLayout [] 3 (Some 42);
     PlotlyChart (make_figure [] (fst (fruchterman_reingold [] 3 (RandomState 42))) title)].
Proof.
  split; [reflexivity|]. rewrite plot_ontology_3d_spec. reflexivity.
Qed.


End PlotFacts.

(** Without a seed the positions follow the global generator: with a layout
    that places every node at the next number drawn, two calls in a row
    give different positions. *)
Remark spring_layout_unseeded_may_differ :
  let fr := fun (_ : Graph) (_ : nat) (g : N) => (fun _ : str => (g, g, g), g + 1) in
  let w := {| analysis := []; calls := 0; generator := 0; shown := @nil (event N) |} in
  let w' := snd (spring_layout (fun n => n) fr [] 3 None w) in
  match fst (spring_layout (fun n => n) fr [] 3 None w),
        fst (spring_layout (fun n => n) fr [] 3 None w') with
  | Done p1, Done p2 => p1 [] <> p2 []
  | _, _ => False
  end.
Proof. cbv. discriminate. Qed.

(* ================================================================== *)
(** ** Analysis and cache *)
(* ================================================================== *)

Section AnalysisFacts.
Context {coord rng : Type}.
Variable RandomState : N -> rng.
Variable fruchterman_reingold :
  Graph -> nat -> rng -> (str -> coord * coord * coord) * rng.
Variable generate_content : nat -> str -> response.
Variable render_other : str -> dict pyval -> option (list (event coord)).

Local Abbreviation plot := (plot_ontology_3d RandomState fruchterman_reingold).
Local Abbreviation render :=
  (render_relationships RandomState fruchterman_reingold render_other).
Local Abbreviation prompt_of := (final_prompt_of (coord := coord) (rng := rng)).
Local Abbreviation stream_call := (stream (coord := coord) (rng := rng) generate_content).
Local Abbreviation analyze :=
  (analyze_and_render_streaming RandomState fruchterman_reingold generate_content
                                render_other).
Local Abbreviation cached_view :=
  (show_cached RandomState fruchterman_reingold render_other).
Local Abbreviation press :=
  (extract_button RandomState fruchterman_reingold generate_content
                  render_other).
Local Abbreviation run_ontology := (ontology_of_run (coord := coord) (rng := rng) generate_content).

Implicit Types (w : world coord rng).

Lemma quiet_ret {A : Type} (a : A) : quiet (ret (coord := coord) (rng := rng) a).
Proof. intros w; split; reflexivity. Qed.

Lemma quiet_raise {A : Type} : quiet (@raise coord rng A).
Proof. intros w; split; reflexivity. Qed.

Lemma quiet_show_all (es : list (event coord)) : quiet (show_all (rng := rng) es).
Proof. intros w; split; reflexivity. Qed.

Lemma quiet_show (e : event coord) : quiet (show (rng := rng) e).
Proof. apply quiet_show_all. Qed.

Lemma quiet_bind {A B : Type} (m : M coord rng A) (k : A -> M coord rng B) :
  quiet m -> (forall a, quiet (k a)) -> quiet (bind m k).
Proof.
  intros Hm Hk w. unfold bind. specialize (Hm w).
  destruct (m w) as [[a|] w1]; cbn [fst snd] in *; auto.
  destruct (Hk a w1) as [H1 H2]. destruct Hm as [H3 H4]. split; congruence.
Qed.

Lemma quiet_plot (o : Ontology) (title : str) : quiet (plot o title).
Proof. intros w. rewrite plot_ontology_3d_spec. split; reflexivity. Qed.

Lemma quiet_render (name : str) (v : pyval) : quiet (render name v).
Proof.
  unfold render_relationships.
  destruct v; try apply quiet_raise.
  destruct (as_ontology d) as [o|].
  - destruct (relationships o) as [[|r rels]|]; try apply quiet_ret.
    repeat (apply quiet_bind; [apply quiet_show | intros _]).
    apply quiet_plot.
  - destruct (render_other name d); [apply quiet_show_all | apply quiet_raise].
Qed.

Lemma quiet_prompt_of (name summary : str) (v : pyval) : quiet (prompt_of name v summary).
Proof.
  unfold final_prompt_of.
  destruct (build_final_prompt name v summary); [apply quiet_ret | apply quiet_raise].
Qed.

Lemma quiet_display (e : event coord) : quiet (display (rng := rng) e).
Proof. intros w; split; reflexivity. Qed.

Lemma quiet_encode_utf8 (s : str) : quiet (encode_utf8 (coord := coord) (rng := rng) s).
Proof. intros w; split; reflexivity. Qed.

Lemma quiet_cached_view (name : str) (cached : AnalysisResult) :
  quiet (cached_view name cached).
Proof.
  unfold show_cached.
  repeat (apply quiet_bind;
          [first [apply quiet_show | apply quiet_display | apply quiet_encode_utf8
                 | apply quiet_render] | intros _]).
  apply quiet_display.
Qed.

Lemma no_write_quiet {A : Type} (m : M coord rng A) : quiet m -> no_write m.
Proof. intros H w. destruct (H w) as [H1 H2]. split; auto. lia. Qed.

Lemma no_write_stream (prompt lang : str) : no_write (stream_call prompt lang).
Proof.
  intros w. unfold stream.
  destruct (stream_generate_text (coord := coord) (generate_content (calls w)) prompt lang).
  cbn. split; auto.
Qed.

Lemma writes_when_done_cache_set (name : str) (entry : AnalysisResult) :
  writes_when_done (coord := coord) (rng := rng) name (ontology entry) (cache_set name entry).
Proof. intros w. cbn. split; eauto. Qed.

Lemma writes_when_done_bind {A : Type} (name : str) (ont : pyval)
    (m : M coord rng A) (k : A -> M coord rng unit) :
  no_write m -> (forall a, writes_when_done name ont (k a)) ->
  writes_when_done name ont (bind m k).
Proof.
  intros Hm Hk w. unfold bind. specialize (Hm w).
  destruct (m w) as [[a|] w1]; cbn [fst snd] in *.
  - destruct Hm as [H1 H2]. destruct (Hk a w1) as [H3 H4]. split; [lia|].
    destruct (fst (k a w1)); now rewrite <- H1.
  - tauto.
Qed.

Lemma bind_show {B : Type} (e : event coord) (k : unit -> M coord rng B) w :
  bind (show e) k w
  = k tt {| analysis := analysis w; calls := calls w; generator := generator w;
            shown := shown w ++ [e] |}.
Proof. reflexivity. Qed.

Lemma bind_stream {B : Type} (prompt lang : str) (k : str -> M coord rng B) w :
  bind (stream_call prompt lang) k w
  = k (fst (stream_generate_text (coord := coord) (generate_content (calls w)) prompt lang))
      {| analysis := analysis w; calls := S (calls w); generator := generator w;
         shown := shown w ++ snd (stream_generate_text (coord := coord) (generate_content (calls w)) prompt lang) |}.
Proof.
  unfold bind, stream.
  destruct (stream_generate_text (coord := coord) (generate_content (calls w)) prompt lang); reflexivity.
Qed.

(** One run of the analysis: the service is called; when the ontology text
    does not parse to a non-empty value the run ends there and the cache is
    as before; otherwise the entry is written if the run reaches its end,
    and the cache is as before if it raises. *)
Lemma analyze_and_render_streaming_cache (name all_text : str) w :
  (calls w < calls (snd (analyze name all_text w)))%nat /\
  if truthy (run_ontology w all_text) then
    match fst (analyze name all_text w) with
    | Done _ => exists entry, ontology entry = run_ontology w all_text /\
                analysis (snd (analyze name all_text w)) = dict_set name entry (analysis w)
    | Raised => analysis (snd (analyze name all_text w)) = analysis w
    end
  else
    fst (analyze name all_text w) = Done tt /\
    analysis (snd (analyze name all_text w)) = analysis w /\
    calls (snd (analyze name all_text w)) = S (calls w).
Proof.
  unfold analyze_and_render_streaming, ontology_of_run.
  rewrite bind_show, bind_stream. cbn [analysis calls generator shown].
  set (ont := parse_json_safely _).
  destruct (truthy ont) eqn:Et; cbn [negb].
  - match goal with
    | |- context [fst (?m ?w0)] =>
      assert (H : writes_when_done name ont m)
    end.
    { repeat (cbv zeta;
              apply writes_when_done_bind;
              [ first [ apply no_write_quiet, quiet_show
                      | apply no_write_quiet, quiet_display
                      | apply no_write_quiet, quiet_encode_utf8
                      | apply no_write_quiet, quiet_render
                      | apply no_write_quiet, quiet_prompt_of
                      | apply no_write_stream ]
              | intros ? ]).
      apply (writes_when_done_cache_set name
               {| ontology := ont; summary := _; final_prompt := _ |}). }
    match goal with
    | |- context [fst (?m ?w0)] => destruct (H w0) as [H1 H2]
    end.
    cbn [calls analysis] in H1, H2. split; [lia | exact H2].
  - cbn. auto.
Qed.


End AnalysisFacts.


(* ================================================================== *)
(** ** Row Source *)
(* ================================================================== *)

Example fetch_two_pages :
  fetch_notion_rows 5 two_pages_query
  = Fetched [ {| row_name := PyStr (u "Kim"); row_text := PyStr (u "a") |};
              {| row_name := PyStr unnamed; row_text := PyStr (u "b") |};
              {| row_name := PyStr (u "Lee"); row_text := PyStr [] |} ].
Proof. vm_compute. reflexivity. Qed.

Example row_of_odd_shapes :
  row_of (PyDict []) = Returns {| row_name := PyStr unnamed; row_text := PyStr [] |} /\
  row_of (PyDict [(k_properties, PyList [])])
  = Returns {| row_name := PyStr unnamed; row_text := PyStr [] |} /\
  row_of (PyDict [(k_properties, PyDict [(k_name, PyDict [(k_title, PyStr (u "xy"))])])])
  = Returns {| row_name := PyStr unnamed; row_text := PyStr [] |} /\
  row_of (PyDict [(k_properties,
            PyDict [(k_name, PyDict [(k_title,
               PyList [PyDict [(k_plain_text, PyStr []);
                               (k_text_obj, PyDict [(k_content, PyStr (u "Z"))])]])])])])
  = Returns {| row_name := PyStr (u "Z"); row_text := PyStr [] |} /\
  row_of (PyList []) = Raises.
Proof. vm_compute. repeat split. Qed.

Lemma py_or_truthy a b : truthy b = true -> truthy (py_or a b) = true.
Proof. unfold py_or. destruct (truthy a) eqn:E; auto. Qed.

Lemma py_or_empty a : truthy (py_or a (PyStr [])) = true \/ py_or a (PyStr []) = PyStr [].
Proof. unfold py_or. destruct (truthy a) eqn:E; auto. Qed.

Lemma row_of_ok row r : row_of row = Returns r -> row_ok r.
Proof.
  unfold row_of, and_then. destruct (py_get row k_properties (PyDict [])); [|discriminate].
  intros H. injection H as <-. split; cbn [row_name row_text].
  - apply py_or_truthy. reflexivity.
  - apply py_or_empty.
Qed.

Lemma rows_of_ok items : forall rs, rows_of items = Returns rs -> Forall row_ok rs.
Proof.
  induction items as [|row rest IH]; cbn [rows_of]; intros rs H.
  - injection H as <-. constructor.
  - unfold and_then in H. destruct (row_of row) as [r|] eqn:Er; [|discriminate].
    destruct (rows_of rest) as [rs'|]; [|discriminate].
    injection H as <-. constructor; [eapply row_of_ok; eauto | auto].
Qed.

Lemma page_rows_ok resp rs : page_rows resp = Returns rs -> Forall row_ok rs.
Proof.
  unfold page_rows, and_then.
  destruct (py_get resp k_results (PyList [])); [|discriminate].
  destruct (py_iter a); [|discriminate]. apply rows_of_ok.
Qed.

Lemma fetch_loop_ok fuel query : forall n cursor acc rows,
  Forall row_ok acc ->
  fetch_loop fuel query n cursor acc = Fetched rows -> Forall row_ok rows.
Proof.
  induction fuel as [|f IH]; cbn [fetch_loop]; intros n cursor acc rows Hacc H; [discriminate|].
  destruct (query n (cursor_arg cursor)) as [resp|]; [|discriminate].
  destruct (page_rows resp) as [new|] eqn:Ep; [|discriminate].
  assert (Forall row_ok (acc ++ new))
    by (apply Forall_app; split; [auto | eapply page_rows_ok; eauto]).
  destruct (page_next resp) as [[c|]|]; [| |discriminate].
  - eapply IH; eauto.
  - injection H as <-. auto.
Qed.



Lemma fetch_loop_pages query pages : forall fuel n cursor acc rows,
  serves query n cursor pages ->
  pages_rows pages = Returns rows ->
  fetch_loop fuel query n cursor acc
  = if (length pages <=? fuel)%nat then Fetched (acc ++ rows) else FetchNoFuel.
Proof.
  induction pages as [|resp rest IH]; intros fuel n cursor acc rows Hs Hr; [destruct Hs|].
  cbn [serves] in Hs. destruct Hs as [Hq Hnext].
  cbn [pages_rows] in Hr. unfold and_then in Hr.
  destruct (page_rows resp) as [rs|] eqn:Ep; [|discriminate].
  destruct (pages_rows rest) as [rs'|] eqn:Er; [|discriminate].
  injection Hr as <-.
  destruct fuel as [|f]; [reflexivity|].
  cbn [fetch_loop length]. rewrite Hq, Ep.
  destruct rest as [|resp' rest'].
  - rewrite Hnext. cbn [pages_rows] in Er. injection Er as <-.
    rewrite app_nil_r. reflexivity.
  - destruct Hnext as (c & Hc & Hs'). rewrite Hc.
    rewrite (IH f (S n) c (acc ++ rs) rs' Hs' eq_refl).
    rewrite app_assoc.
    change (S (length (resp' :: rest')) <=? S f)%nat
      with (length (resp' :: rest') <=? f)%nat. reflexivity.
Qed.

(** X2: when the service hands out a chain of pages, each but the last
    saying [has_more] with the cursor of the next, the rows returned are
    the rows of all pages in page order, after exactly one query per
    page. *)
Theorem fetch_notion_rows_all_pages fuel query pages rows :
  serves query 0 PyNone pages ->
  pages_rows pages = Returns rows ->
  fetch_notion_rows fuel query
  = if (length pages <=? fuel)%nat then Fetched rows else FetchNoFuel.
Proof. intros Hs Hr. unfold fetch_notion_rows. apply (fetch_loop_pages query pages fuel 0 PyNone [] rows Hs Hr). Qed.

Lemma fetch_notion_rows_all_pages_witness :
  fetch_notion_rows 2 two_pages_query
  = Fetched [ {| row_name := PyStr (u "Kim"); row_text := PyStr (u "a") |};
              {| row_name := PyStr unnamed; row_text := PyStr (u "b") |};
              {| row_name := PyStr (u "Lee"); row_text := PyStr [] |} ].
Proof.
  apply (fetch_notion_rows_all_pages 2 two_pages_query two_pages).
  - split; [reflexivity|]. exists (PyStr (u "c1")). split; [reflexivity|].
    split; reflexivity.
  - vm_compute. reflexivity.
Defined.

Lemma fetch_loop_stuck query resp rs c :
  (forall n, query n None = Some resp) ->
  page_rows resp = Returns rs ->
  page_next resp = Returns (Some c) ->
  truthy c = false ->
  forall fuel n cursor acc, truthy cursor = false ->
  fetch_loop fuel query n cursor acc = FetchNoFuel.
Proof.
  intros Hq Hr Hn Hc. induction fuel as [|f IH]; intros n cursor acc Hcur; [reflexivity|].
  cbn [fetch_loop]. unfold cursor_arg. rewrite Hcur, Hq, Hr, Hn. apply IH, Hc.
Qed.

(** X3: a page that says [has_more] but gives no usable (a falsy) next
    cursor makes the loop ask for the first page again; if the service
    keeps answering with that page, the function never returns, however
    many queries it is allowed. *)
Theorem fetch_notion_rows_stuck_without_cursor query resp rs c :
  (forall n, query n None = Some resp) ->
  page_rows resp = Returns rs ->
  page_next resp = Returns (Some c) ->
  truthy c = false ->
  forall fuel, fetch_notion_rows fuel query = FetchNoFuel.
Proof.
  intros Hq Hr Hn Hc fuel. unfold fetch_notion_rows.
  eapply fetch_loop_stuck; eauto.
Qed.

Lemma fetch_notion_rows_stuck_without_cursor_witness :
  fetch_notion_rows 1000 stuck_query = FetchNoFuel.
Proof.
  apply (fetch_notion_rows_stuck_without_cursor stuck_query stuck_page
           [ {| row_name := PyStr (u "Kim"); row_text := PyStr (u "a") |} ] PyNone).
  - intros n. reflexivity.
  - vm_compute. reflexivity.
  - vm_compute. reflexivity.
  - reflexivity.
Defined.







(* ================================================================== *)
(** ** Safe JSON Extractor: brace spans *)
(* ================================================================== *)

Lemma from_first_skip (c : N) (p s : str) :
  ~ In c p -> from_first c (p ++ s) = from_first c s.
Proof.
  induction p as [|x p IH]; cbn [app from_first]; intros H; [reflexivity|].
  destruct (x =? c) eqn:E.
  - apply N.eqb_eq in E. subst. exfalso. apply H. now left.
  - apply IH. intros Hin. apply H. now right.
Qed.

Lemma from_first_here (c : N) (s : str) : from_first c (c :: s) = Some (c :: s).
Proof. cbn [from_first]. now rewrite N.eqb_refl. Qed.

Lemma up_to_last_app (c : N) (s t : str) :
  ~ In c t -> up_to_last c (s ++ c :: t) = Some (s ++ [c]).
Proof.
  intros H. unfold up_to_last. rewrite rev_app_distr. cbn [rev].
  rewrite <- app_assoc. cbn [app].
  rewrite from_first_skip by (now rewrite <- in_rev).
  rewrite from_first_here. cbn [rev]. now rewrite rev_involutive.
Qed.

Lemma re_search_braces_span (prefix body suffix : str) :
  ~ In c_lbrace prefix -> ~ In c_rbrace suffix ->
  re_search_braces (prefix ++ (c_lbrace :: body ++ [c_rbrace]) ++ suffix)
  = Some (c_lbrace :: body ++ [c_rbrace]).
Proof.
  intros Hp Hs. unfold re_search_braces.
  rewrite from_first_skip by exact Hp. cbn [app]. rewrite from_first_here.
  rewrite <- app_assoc. cbn [app]. now rewrite up_to_last_app.
Qed.

Lemma json_ws_no_brace (w : str) :
  forallb is_json_ws w = true -> ~ In c_lbrace w /\ ~ In c_rbrace w.
Proof.
  rewrite forallb_forall. intros H.
  split; intros Hin; apply H in Hin; discriminate.
Qed.

(** X5: an answer that holds one JSON object between prose, with no brace
    before it, no closing brace after it and no json fence, is read as
    that object. *)
Theorem parse_json_safely_object_in_prose (prefix j suffix : str) (d : list (str * pyval)) :
  json_loads j = Some (PyDict d) ->
  re_search_fence (prefix ++ j ++ suffix) = None ->
  ~ In c_lbrace prefix -> ~ In c_rbrace suffix ->
  parse_json_safely (prefix ++ j ++ suffix) = PyDict d.
Proof.
  intros Hj Hf Hp Hs.
  destruct (json_loads_object _ _ Hj) as (w1 & body & w2 & -> & Hw1 & Hw2 & Hcore).
  apply json_ws_no_brace in Hw1, Hw2.
  unfold parse_json_safely. rewrite Hf.
  assert (E : prefix ++ (w1 ++ (c_lbrace :: body ++ [c_rbrace]) ++ w2) ++ suffix
              = (prefix ++ w1) ++ (c_lbrace :: body ++ [c_rbrace]) ++ (w2 ++ suffix))
    by (repeat (rewrite <- app_assoc; cbn [app]); reflexivity).
  rewrite E.
  assert (Hne : nonempty ((prefix ++ w1) ++ (c_lbrace :: body ++ [c_rbrace]) ++ w2 ++ suffix)
                = true) by (destruct (prefix ++ w1); reflexivity).
  rewrite Hne. cbn [negb]. rewrite re_search_braces_span.
  - now rewrite Hcore.
  - rewrite in_app_iff. tauto.
  - rewrite in_app_iff. tauto.
Qed.

Lemma parse_json_safely_object_in_prose_witness :
  parse_json_safely answer_in_prose = PyDict [(u "a", PyInt 1)].
Proof.
  apply (parse_json_safely_object_in_prose (u "Here it is: ") json_a_1 (u " - done.")).
  - vm_compute. reflexivity.
  - vm_compute. reflexivity.
  - vm_compute. intuition discriminate.
  - vm_compute. intuition discriminate.
Defined.

(** X6: [parse_json_safely] returns a mapping for every text in which a
    brace span is found after the fence step; what it returns otherwise is
    a mapping too, or else the value [json.loads] reads from the whole
    text, which contains no brace span. *)
Theorem parse_json_safely_mapping_or_whole_text (text : str) :
  (exists d, parse_json_safely text = PyDict d) \/
  (re_search_braces (fence_or_text text) = None /\
   json_loads (fence_or_text text) = Some (parse_json_safely text)).
Proof.
  unfold parse_json_safely. fold (fence_or_text text).
  destruct (negb (nonempty text)); [left; eauto|].
  destruct (re_search_braces (fence_or_text text)) as [g|] eqn:E.
  - left. apply re_search_braces_head in E. destruct E as [rest ->].
    destruct (json_loads (c_lbrace :: rest)) as [v|] eqn:Ev; [|eauto].
    apply json_loads_brace_is_dict in Ev. destruct Ev as [d ->]. eauto.
  - destruct (json_loads (fence_or_text text)) as [v|]; [right; auto | left; eauto].
Qed.

(** After an object literal has been read, whatever follows it is left
    over unread. *)
Lemma scan_once_object_extra (f : nat) (s r0 : str) (d : list (str * pyval)) :
  scan_once (S f) (c_lbrace :: s) = Parsed (PyDict d) r0 ->
  forall f' x, (2 * length s < f')%nat ->
    scan_once (S f') (c_lbrace :: s ++ x) = Parsed (PyDict d) (r0 ++ x).
Proof.
  intros H f' x Hf. rewrite scan_once_S in *.
  change (c_lbrace =? 34) with false in *. change (c_lbrace =? 123) with true in *.
  cbv iota in *.
  destruct (skip_ws s) as [|c1 r1] eqn:Es; [discriminate|].
  apply skip_ws_eq in Es. destruct Es as (w & -> & Hw & Hc1).
  rewrite <- app_assoc. cbn [app]. rewrite skip_ws_fwd by auto.
  destruct (c1 =? 125).
  - injection H as <- <-. reflexivity.
  - destruct (scanner_local f) as (_ & Ho & _).
    apply Ho in H. destruct H as (c & Hc & _ & Hfwd).
    change (c1 :: r1 ++ x) with ((c1 :: r1) ++ x).
    rewrite Hc, <- app_assoc. apply Hfwd.
    assert (length (c1 :: r1) = length (c ++ r0)) by (now rewrite Hc).
    len_lia.
Qed.

(** [json.loads] rejects an object followed by anything but whitespace
    ("Extra data"). *)
Lemma json_loads_extra_data (body x : str) (d : list (str * pyval)) :
  json_loads (c_lbrace :: body ++ [c_rbrace]) = Some (PyDict d) ->
  forallb is_json_ws x = false ->
  json_loads ((c_lbrace :: body ++ [c_rbrace]) ++ x) = None.
Proof.
  unfold json_loads. cbn [app]. rewrite !skip_ws_nonws by reflexivity.
  unfold json_fuel. intros H Hx.
  replace (2 * length (c_lbrace :: body ++ [c_rbrace]) + 1)%nat
    with (S (2 * length (c_lbrace :: body ++ [c_rbrace]))) in H by lia.
  replace (2 * length (c_lbrace :: (body ++ [c_rbrace]) ++ x) + 1)%nat
    with (S (2 * length (c_lbrace :: (body ++ [c_rbrace]) ++ x))) by lia.
  destruct (scan_once _ (c_lbrace :: body ++ [c_rbrace])) as [v r0| |] eqn:E;
    try discriminate.
  destruct (skip_ws r0) eqn:Er; [|discriminate]. injection H as ->.
  rewrite (scan_once_object_extra _ _ _ _ E) by len_lia.
  apply skip_ws_nil_iff in Er. rewrite skip_ws_app by exact Er.
  destruct (skip_ws x) eqn:Ex; [|reflexivity].
  apply skip_ws_nil_iff in Ex. congruence.
Qed.

(** X7: the brace span is greedy.  When the answer holds a JSON object and
    then more text that ends with a closing brace (a second object, say),
    the span runs from the first brace to the last one, [json.loads]
    rejects it, and the extractor returns the empty mapping: the first
    object is lost. *)
Theorem parse_json_safely_greedy_span_loses_object
    (prefix j more : str) (d : list (str * pyval)) :
  json_loads j = Some (PyDict d) ->
  re_search_fence (prefix ++ j ++ more ++ [c_rbrace]) = None ->
  ~ In c_lbrace prefix ->
  parse_json_safely (prefix ++ j ++ more ++ [c_rbrace]) = PyDict [].
Proof.
  intros Hj Hf Hp.
  destruct (json_loads_object _ _ Hj) as (w1 & body & w2 & -> & Hw1 & Hw2 & Hcore).
  apply json_ws_no_brace in Hw1.
  unfold parse_json_safely. rewrite Hf.
  assert (E : prefix ++ (w1 ++ (c_lbrace :: body ++ [c_rbrace]) ++ w2) ++ more ++ [c_rbrace]
              = (prefix ++ w1)
                ++ (c_lbrace :: (body ++ [c_rbrace] ++ w2 ++ more) ++ [c_rbrace]) ++ [])
    by (rewrite app_nil_r; cbn [app]; repeat (rewrite <- app_assoc; cbn [app]); reflexivity).
  rewrite E.
  assert (Hne : nonempty ((prefix ++ w1)
                 ++ (c_lbrace :: (body ++ [c_rbrace] ++ w2 ++ more) ++ [c_rbrace]) ++ [])
                = true) by (destruct (prefix ++ w1); reflexivity).
  rewrite Hne. cbn [negb]. rewrite re_search_braces_span.
  - replace (c_lbrace :: (body ++ [c_rbrace] ++ w2 ++ more) ++ [c_rbrace])
      with ((c_lbrace :: body ++ [c_rbrace]) ++ (w2 ++ more ++ [c_rbrace]))
      by (cbn [app]; repeat (rewrite <- app_assoc; cbn [app]); reflexivity).
    rewrite (json_loads_extra_data body _ d Hcore); [reflexivity|].
    rewrite !forallb_app. cbn [forallb].
    change (is_json_ws c_rbrace) with false.
    rewrite andb_false_l, !andb_false_r. reflexivity.
  - rewrite in_app_iff. tauto.
  - intros [].
Qed.

Lemma parse_json_safely_greedy_span_loses_object_witness :
  parse_json_safely two_objects = PyDict [].
Proof.
  apply (parse_json_safely_greedy_span_loses_object [] json_a_1 (q " {'b':2") 
           [(u "a", PyInt 1)]).
  - vm_compute. reflexivity.
  - vm_compute. reflexivity.
  - intros [].
Defined.

(* ================================================================== *)
(** ** Streaming Completion Sink: display *)
(* ================================================================== *)

Lemma running_prefix (ts : list str) : forall buffer,
  Forall (fun b => exists t, buffer ++ concat ts = b ++ t) (running buffer ts).
Proof.
  induction ts as [|t ts IH]; intros buffer; cbn [running concat]; constructor.
  - exists (concat ts). now rewrite app_assoc.
  - rewrite app_assoc. apply IH.
Qed.

Lemma last_cons {A : Type} (l : list A) : forall x d, last (x :: l) d = last l x.
Proof.
  induction l as [|y l IH]; intros x d; [reflexivity|].
  change (last (x :: y :: l) d) with (last (y :: l) d). now rewrite !IH.
Qed.

Lemma running_last (ts : list str) : forall buffer,
  last (running buffer ts) buffer = buffer ++ concat ts.
Proof.
  induction ts as [|t ts IH]; intros buffer; cbn [running concat].
  - now rewrite app_nil_r.
  - rewrite last_cons, app_assoc. apply IH.
Qed.

Lemma concat_filter_nonempty (ts : list str) :
  concat (filter nonempty ts) = concat ts.
Proof.
  induction ts as [|t ts IH]; cbn [filter concat]; auto.
  destruct t; cbn [nonempty concat app]; congruence.
Qed.

Section StreamDisplay.
Context {coord : Type}.

Lemma code_blocks_app (es es' : list (event coord)) :
  code_blocks (es ++ es') = code_blocks es ++ code_blocks es'.
Proof.
  induction es as [|e es IH]; cbn [app code_blocks]; auto.
  destruct e; cbn [app]; congruence.
Qed.

Lemma code_blocks_map (lang : str) (bs : list str) :
  code_blocks (map (fun b => @CodeBlock coord b lang) bs) = bs.
Proof. induction bs; cbn [map code_blocks]; congruence. Qed.

(** X8: what the code placeholder shows follows the buffer.  Every body
    it is filled with while the chunks arrive is a prefix of the text
    that [stream_generate_text] returns, and the last of them is that
    text; when the stream fails, the placeholder is then overwritten with
    the error message, which is not part of the returned text. *)
Theorem stream_generate_text_display_follows_buffer
    (model : str -> response) (prompt lang_hint : str) :
  let r := @stream_generate_text coord model prompt lang_hint in
  exists buffers,
    code_blocks (snd r)
    = buffers ++ match failure (model prompt) with
                 | None => []
                 | Some e => [streaming_error e]
                 end /\
    Forall (fun b => exists t, fst r = b ++ t) buffers /\
    last buffers [] = fst r.
Proof.
  cbv zeta. unfold stream_generate_text. rewrite consume_spec. cbn [fst snd app].
  exists (running [] (filter nonempty (arrived (model prompt)))).
  repeat split.
  - cbn [code_blocks]. rewrite code_blocks_app, code_blocks_map.
    destruct (failure (model prompt)); reflexivity.
  - rewrite <- concat_filter_nonempty. apply (running_prefix _ []).
  - rewrite <- concat_filter_nonempty. apply (running_last _ []).
Qed.

End StreamDisplay.

Example stream_broken :
  @stream_generate_text unit (fun _ => broken_stream) (u "p") (u "json")
  = (q "{'a': 1}",
     [Title title_generating;
      CodeBlock (q "{'a'") (u "json");
      CodeBlock (q "{'a': 1}") (u "json");
      Title title_error;
      CodeBlock (u "Streaming error: 503") (u "text")]).
Proof. vm_compute. reflexivity. Qed.

(* ================================================================== *)
(** ** Graph Builder: nodes *)
(* ================================================================== *)

Lemma dict_mem_mem {V : Type} (k : str) (d : dict V) : dict_mem k d = mem k (map fst d).
Proof.
  destruct (dict_mem k d) eqn:E1, (mem k (map fst d)) eqn:E2; auto.
  - apply dict_mem_In in E1. apply mem_false in E2. tauto.
  - apply mem_In in E2. apply dict_mem_In in E2. congruence.
Qed.

Lemma mem_add_uniq_same (x : str) (l : list str) : mem x (add_uniq x l) = true.
Proof.
  unfold add_uniq. destruct (mem x l) eqn:E; auto.
  apply mem_In, in_app_iff. right. now left.
Qed.

Lemma mem_add_uniq_keep (x y : str) (l : list str) :
  mem x l = true -> mem x (add_uniq y l) = true.
Proof.
  unfold add_uniq. destruct (mem y l); auto.
  intros H. apply mem_In, in_app_iff. left. now apply mem_In.
Qed.

Lemma nodes_add_node (n : str) (G : Graph) : nodes (add_node n G) = add_uniq n (nodes G).
Proof.
  unfold add_node, add_uniq, nodes. rewrite <- dict_mem_mem.
  destruct (dict_mem n G) eqn:E; auto.
  now rewrite dict_set_keys, E.
Qed.

Lemma nodes_set_present (k : str) (x : dict label) (G : Graph) :
  mem k (nodes G) = true -> nodes (dict_set k x G) = nodes G.
Proof.
  intros H. unfold nodes in *. rewrite dict_set_keys, dict_mem_mem, H. reflexivity.
Qed.

Lemma nodes_add_edge (u0 v0 : str) (lbl : label) (G : Graph) :
  nodes (add_edge u0 v0 lbl G) = add_uniq v0 (add_uniq u0 (nodes G)).
Proof.
  unfold add_edge.
  rewrite nodes_set_present.
  - rewrite nodes_set_present.
    + now rewrite !nodes_add_node.
    + rewrite !nodes_add_node. apply mem_add_uniq_keep, mem_add_uniq_same.
  - rewrite nodes_set_present.
    + rewrite !nodes_add_node. apply mem_add_uniq_same.
    + rewrite !nodes_add_node. apply mem_add_uniq_keep, mem_add_uniq_same.
Qed.

Lemma endpoints_snoc (rels : list Relationship) (rel : Relationship) :
  endpoints (rels ++ [rel])
  = endpoints rels ++ (if kept rel
                       then [or_empty (get rel k_source); or_empty (get rel k_target)]
                       else []).
Proof. unfold endpoints. rewrite flat_map_app. cbn [flat_map]. now rewrite app_nil_r. Qed.

(** X9: the nodes of the graph, in the order [G.nodes()] lists them (the
    order of the node trace of the figure), are the sources and targets of
    the kept relationships, each once, in the order of their first
    occurrence in the list. *)
Theorem build_graph_nodes_first_occurrence (rels : list Relationship) :
  nodes (build_graph rels) = uniq (endpoints rels).
Proof.
  induction rels as [|rel rels IH] using rev_ind; [reflexivity|].
  rewrite build_graph_snoc, endpoints_snoc. unfold uniq in *.
  rewrite fold_left_app, <- IH. unfold add_relationship. fold (kept rel).
  destruct (kept rel); [|reflexivity].
  cbn [fold_left]. apply nodes_add_edge.
Qed.

Example build_graph_nodes_mixed :
  nodes (build_graph rels_mixed) = [u "B"; u "A"; u "C"; u " "] /\
  edges (build_graph rels_mixed) = [(u "B", u "A"); (u "C", u " ")].
Proof. vm_compute. split; reflexivity. Qed.

Lemma strip_nonempty (s : str) : nonempty (strip s) = true -> nonempty s = true.
Proof. destruct s; [vm_compute; discriminate | reflexivity]. Qed.

Lemma qualifies_kept (rel : Relationship) : qualifies rel = true -> kept rel = true.
Proof.
  unfold qualifies, kept, truthy_str. intros H.
  apply andb_true_iff in H. destruct H as [H1 H2].
  apply strip_nonempty in H1, H2. now rewrite H1, H2.
Qed.

Lemma last_label_connected (rels : list Relationship) (rel : Relationship) (a b : str) :
  In rel rels -> connects a b rel = true -> exists lbl, last_label rels a b = Some lbl.
Proof.
  intros Hin Hc. unfold last_label.
  destruct (find (connects a b) (rev rels)) as [r|] eqn:E; [eauto|].
  rewrite (find_none _ _ E rel) in Hc; [discriminate | now apply in_rev in Hin].
Qed.

Lemma last_label_connects (rels : list Relationship) (a b : str) (lbl : label) :
  last_label rels a b = Some lbl ->
  exists rel, In rel rels /\ connects a b rel = true.
Proof.
  unfold last_label.
  destruct (find (connects a b) (rev rels)) as [r|] eqn:E; [|discriminate].
  intros _. apply find_some in E. destruct E as [Hin Hc].
  exists r. split; auto. now apply in_rev.
Qed.

(** X10: the prompt and the graph agree on every relationship the prompt
    lists.  A relationship of the list that gets a bullet line in
    [build_final_prompt] (source and target non-empty after trimming) is
    an edge of the graph [plot_ontology_3d] builds from the same list: its
    source and target, as written, are joined by exactly one edge. *)
Theorem bullet_relationship_is_edge (rels : list Relationship) (rel : Relationship) :
  In rel rels -> qualifies rel = true ->
  let G := build_graph rels in
  let s := or_empty (get rel k_source) in
  let t := or_empty (get rel k_target) in
  (exists lbl, edge_label G s t = Some lbl) /\
  length (edges_between G s t) = 1%nat /\
  In s (nodes G) /\ In t (nodes G).
Proof.
  intros Hin Hq. cbv zeta. apply qualifies_kept in Hq.
  assert (Hc : connects (or_empty (get rel k_source)) (or_empty (get rel k_target)) rel
               = true).
  { unfold connects, joins. fold (kept rel). rewrite Hq. cbn [fst snd andb].
    now rewrite !str_eqb_refl. }
  destruct (last_label_connected rels rel _ _ Hin Hc) as [lbl Hl].
  repeat split.
  - exists lbl. now rewrite edge_label_build_graph.
  - rewrite edges_between_count.
    + now rewrite edge_label_build_graph, Hl.
    + apply build_graph_wf.
    + intros x y. rewrite !edge_label_build_graph. apply last_label_sym.
  - apply build_graph_nodes. exists rel. auto.
  - apply build_graph_nodes. exists rel. auto.
Qed.

Lemma bullet_relationship_is_edge_witness :
  (exists lbl, edge_label (build_graph rels_mixed) (u "A") (u "B") = Some lbl) /\
  length (edges_between (build_graph rels_mixed) (u "A") (u "B")) = 1%nat /\
  In (u "A") (nodes (build_graph rels_mixed)) /\ In (u "B") (nodes (build_graph rels_mixed)).
Proof.
  apply (bullet_relationship_is_edge rels_mixed (rel3 (u "A") (u "B") (u "r3"))).
  - right; right; left. reflexivity.
  - vm_compute. reflexivity.
Defined.

(** X11: every entry of [G.edges()] joins two nodes of the graph, so the
    position of each end of an edge is among the positions the layout
    returns for [G.nodes()]; and the entry comes from a kept relationship
    of the list that connects the two. *)
Theorem build_graph_edges_join_nodes (rels : list Relationship) (x y : str) :
  In (x, y) (edges (build_graph rels)) ->
  In x (nodes (build_graph rels)) /\ In y (nodes (build_graph rels)) /\
  exists rel, In rel rels /\ connects x y rel = true.
Proof.
  intros H. destruct (build_graph_wf rels) as [Hnd _].
  apply edges_from_In in H. destruct H as (_ & nbrs & Hrow & Hy).
  assert (Hl : edge_label (build_graph rels) x y <> None).
  { unfold edge_label, neighbours. rewrite (dict_get_In _ _ _ Hnd Hrow).
    intros Hn. apply dict_get_None in Hn. auto. }
  rewrite edge_label_build_graph in Hl.
  destruct (last_label rels x y) as [lbl|] eqn:E; [|congruence].
  apply last_label_connects in E. destruct E as (rel & Hin & Hc).
  split; [|split].
  - apply (in_map fst) in Hrow. exact Hrow.
  - unfold connects in Hc. apply andb_true_iff in Hc. destruct Hc as [Hk Hj].
    apply joins_true in Hj. cbn [fst snd] in Hj.
    apply build_graph_nodes. exists rel. split; [auto|]. split; [auto|].
    destruct Hj as [[_ <-] | [<- _]]; auto.
  - eauto.
Qed.

Lemma build_graph_edges_join_nodes_witness :
  In (u "C") (nodes (build_graph rels_mixed)) /\ In (u " ") (nodes (build_graph rels_mixed)) /\
  exists rel, In rel rels_mixed /\ connects (u "C") (u " ") rel = true.
Proof.
  apply (build_graph_edges_join_nodes rels_mixed (u "C") (u " ")).
  vm_compute. right; left. reflexivity.
Defined.

(* ================================================================== *)
(** ** The page: runs and the cache *)
(* ================================================================== *)

Section RunFacts.
Context {coord rng : Type}.
Variable RandomState : N -> rng.
Variable fruchterman_reingold :
  Graph -> nat -> rng -> (str -> coord * coord * coord) * rng.
Variable generate_content : nat -> str -> response.
Variable render_other : str -> dict pyval -> option (list (event coord)).

Local Abbreviation render :=
  (render_relationships RandomState fruchterman_reingold render_other).
Local Abbreviation analyze :=
  (analyze_and_render_streaming RandomState fruchterman_reingold generate_content
                                render_other).
Local Abbreviation press :=
  (extract_button RandomState fruchterman_reingold generate_content
                  render_other).
Local Abbreviation run_ontology := (ontology_of_run (coord := coord) (rng := rng) generate_content).

Implicit Types (w : world coord rng).

Lemma bind_done {A B : Type} (m : M coord rng A) (k : A -> M coord rng B) w (a : A) w' :
  m w = (Done a, w') -> bind m k w = k a w'.
Proof. intros H. unfold bind. now rewrite H. Qed.

Lemma bind_ret {A B : Type} (a : A) (k : A -> M coord rng B) w :
  bind (ret a) k w = k a w.
Proof. reflexivity. Qed.

(** Rendering a mapping of the Ontology shape runs to its end and leaves
    everything but the display as it was. *)
Lemma render_relationships_shaped (name : str) (d : dict pyval) (o : Ontology) w :
  as_ontology d = Some o ->
  render name (PyDict d) w
  = (Done tt, {| analysis := analysis w; calls := calls w; generator := generator w;
                 shown := shown w
                          ++ relationships_events RandomState fruchterman_reingold name o |}).
Proof.
  intros Ho. unfold render_relationships, relationships_events. rewrite Ho.
  destruct (relationships o) as [[|r rels]|].
  - unfold ret. rewrite app_nil_r. now destruct w.
  - rewrite !bind_show. rewrite plot_ontology_3d_spec. cbn [analysis calls generator shown].
    rewrite <- !app_assoc. reflexivity.
  - unfold ret. rewrite app_nil_r. now destruct w.
Qed.

Lemma encodable_app (a b : str) : encodable (a ++ b) = encodable a && encodable b.
Proof. apply forallb_app. Qed.

Lemma bind_display {B : Type} (e : event coord) (k : unit -> M coord rng B) w :
  displayable e = true ->
  bind (display e) k w
  = k tt {| analysis := analysis w; calls := calls w; generator := generator w;
            shown := shown w ++ [e] |}.
Proof. intros H. unfold bind, display. now rewrite H. Qed.

Lemma bind_display_raises {B : Type} (e : event coord) (k : unit -> M coord rng B) w :
  displayable e = false ->
  bind (display e) k w
  = (Raised, {| analysis := analysis w; calls := calls w; generator := generator w;
                shown := shown w ++ [e] |}).
Proof. intros H. unfold bind, display. now rewrite H. Qed.

Lemma bind_encode_utf8 {B : Type} (s : str) (k : unit -> M coord rng B) w :
  encodable s = true -> bind (encode_utf8 s) k w = k tt w.
Proof. intros H. unfold bind, encode_utf8. now rewrite H. Qed.

(** A prompt that can be encoded holds a name and a summary that can. *)
Lemma encodable_app_true (a b : str) :
  encodable (a ++ b) = true -> encodable a = true /\ encodable b = true.
Proof. rewrite encodable_app. apply andb_prop. Qed.

Lemma encodable_prompt_parts (name summary : str) (o : Ontology) :
  encodable (build_final_prompt_shaped name o summary) = true ->
  encodable name = true /\ encodable summary = true.
Proof.
  intros H.
  destruct (build_final_prompt_shaped_lines name summary o) as (_ & Hp & _).
  rewrite Hp in H. clear Hp.
  pose proof (encodable_app_true _ _ H) as [_ H1].
  pose proof (encodable_app_true _ _ H1) as [Hn H2].
  pose proof (encodable_app_true _ _ H2) as [_ H3].
  pose proof (encodable_app_true _ _ H3) as [_ H4].
  pose proof (encodable_app_true _ _ H4) as [_ H5].
  pose proof (encodable_app_true _ _ H5) as [_ H6].
  pose proof (encodable_app_true _ _ H6) as [_ H7].
  pose proof (encodable_app_true _ _ H7) as [_ H8].
  pose proof (encodable_app_true _ _ H8) as [_ H9].
  pose proof (encodable_app_true _ _ H9) as [_ H10].
  pose proof (encodable_app_true _ _ H10) as [_ H11].
  pose proof (encodable_app_true _ _ H11) as [Hs _].
  split; assumption.
Qed.

Lemma displayable_download_button (name final_prompt : str) :
  encodable name = true ->
  displayable (coord := coord) (download_button name final_prompt (u "dl_" ++ name)) = true /\
  displayable (coord := coord) (download_button name final_prompt (u "dl_cached_" ++ name))
  = true.
Proof.
  intros H. unfold download_button. cbn [displayable]. rewrite !encodable_app, H.
  assert (E1 : encodable (u "_final_prompt.txt") = true) by (vm_compute; reflexivity).
  assert (E2 : encodable (u "dl_") = true) by (vm_compute; reflexivity).
  assert (E3 : encodable (u "dl_cached_") = true) by (vm_compute; reflexivity).
  rewrite E1, E2, E3. split; reflexivity.
Qed.

Lemma displayable_code_markdown (body : str) :
  encodable body = true -> displayable (coord := coord) (Code body (u "markdown")) = true.
Proof.
  intros H. cbn [displayable]. rewrite H.
  assert (E : encodable (u "markdown") = true) by (vm_compute; reflexivity).
  now rewrite E.
Qed.

(** The summary of a run started in [w]: the stripped text of the second
    stream. *)
Local Abbreviation summary_of_run w all_text :=
  (strip (fst (stream_generate_text (coord := coord) (generate_content (S (calls w)))
                                    (request_summary_prompt all_text) (u "markdown")))).

(** A run on an ontology of the expected shape whose texts can be encoded,
    in full. *)
Lemma analyze_and_render_streaming_shaped_run
    (name all_text : str) (d : dict pyval) (o : Ontology) w :
  run_ontology w all_text = PyDict d -> d <> [] -> as_ontology d = Some o ->
  encodable_value (PyDict d) = true ->
  encodable (build_final_prompt_shaped name o (summary_of_run w all_text)) = true ->
  analyze name all_text w
  = (Done tt,
     {| analysis :=
          dict_set name
            {| ontology := PyDict d; summary := summary_of_run w all_text;
               final_prompt := build_final_prompt_shaped name o (summary_of_run w all_text) |}
            (analysis w);
        calls := S (S (calls w));
        generator := generator w;
        shown :=
          shown w
          ++ [Markdown (u "#### 📡 온톨로지 생성 스트림")]
          ++ snd (stream_generate_text (coord := coord) (generate_content (calls w))
                                       (request_ontology_prompt all_text) (u "json"))
          ++ ontology_events RandomState fruchterman_reingold name d o
          ++ [Markdown (u "#### 📡 과거 요약 생성 스트림")]
          ++ snd (stream_generate_text (coord := coord) (generate_content (S (calls w)))
                                       (request_summary_prompt all_text) (u "markdown"))
          ++ summary_events name (summary_of_run w all_text)
               (build_final_prompt_shaped name o (summary_of_run w all_text))
               (u "dl_" ++ name) |}).
Proof.
  intros Hd Hne Ho Hed Hep.
  destruct (encodable_prompt_parts _ _ _ Hep) as [Hen Hes].
  destruct (displayable_download_button name
              (build_final_prompt_shaped name o (summary_of_run w all_text)) Hen)
    as [Hdl _].
  unfold analyze_and_render_streaming.
  rewrite bind_show, bind_stream. cbn [analysis calls generator shown].
  unfold ontology_of_run in Hd. rewrite Hd.
  assert (Ht : truthy (PyDict d) = true) by (destruct d; [congruence | reflexivity]).
  rewrite Ht. cbn [negb]. rewrite bind_show. cbn [analysis calls generator shown].
  rewrite (bind_display (JsonCode (PyDict d))) by exact Hed.
  cbn [analysis calls generator shown].
  match goal with
  | |- context [bind (render name (PyDict d)) ?k ?w0] =>
    rewrite (bind_done _ k w0 tt _ (render_relationships_shaped name d o w0 Ho))
  end.
  cbn [analysis calls generator shown].
  rewrite bind_show, bind_stream. cbn [analysis calls generator shown].
  rewrite bind_show. cbn [analysis calls generator shown].
  rewrite (bind_display (Write _)) by exact Hes.
  cbn [analysis calls generator shown].
  unfold final_prompt_of. rewrite (build_final_prompt_on_shaped name _ d o Ho).
  rewrite bind_ret, bind_show. cbn [analysis calls generator shown].
  rewrite (bind_display (Code _ _)) by (apply displayable_code_markdown, Hep).
  rewrite bind_encode_utf8 by exact Hep.
  rewrite (bind_display (download_button _ _ _)) by exact Hdl.
  unfold cache_set. cbn [fst snd analysis calls generator shown].
  unfold ontology_events, summary_events.
  repeat (rewrite <- app_assoc; cbn [app]). reflexivity.
Qed.

(** X12: when the ontology stream parses to a non-empty mapping of the
    Ontology shape, and the JSON of the mapping and the final prompt (so
    also the name and the summary) can be encoded as UTF-8, the analysis
    runs to its end without raising, calls the completion service exactly
    twice (whether or not the second stream fails), leaves the random
    generator alone, and stores under the name the parsed ontology, the
    stripped text of the second stream as the summary, and the prompt
    [build_final_prompt] returns for the two. *)
Theorem analyze_and_render_streaming_shaped
    (name all_text : str) (d : dict pyval) (o : Ontology) w :
  run_ontology w all_text = PyDict d -> d <> [] -> as_ontology d = Some o ->
  let summary :=
    strip (fst (stream_generate_text (coord := coord) (generate_content (S (calls w)))
                                     (request_summary_prompt all_text) (u "markdown"))) in
  encodable_value (PyDict d) = true ->
  encodable (build_final_prompt_shaped name o summary) = true ->
  let r := analyze name all_text w in
  fst r = Done tt /\
  calls (snd r) = S (S (calls w)) /\
  generator (snd r) = generator w /\
  build_final_prompt name (PyDict d) summary
  = Returns (build_final_prompt_shaped name o summary) /\
  analysis (snd r)
  = dict_set name {| ontology := PyDict d; summary := summary;
                     final_prompt := build_final_prompt_shaped name o summary |}
             (analysis w).
Proof.
  intros Hd Hne Ho. cbv zeta. intros Hed Hep.
  rewrite (analyze_and_render_streaming_shaped_run name all_text d o w Hd Hne Ho Hed Hep).
  cbn [fst snd analysis calls generator]. repeat split.
  apply build_final_prompt_on_shaped, Ho.
Qed.

(** X18: the cached branch repeats what the run showed.  After a run on
    an ontology of the expected shape whose JSON and final prompt can be
    encoded as UTF-8, the next press for the same name calls nothing and
    shows, after its notice, the same ontology blocks (JSON, table, and the
    same chart, the layout being seeded) and the same summary and prompt
    blocks as the run did, the key of the download button apart. *)
Theorem cached_view_repeats_run
    (name all_text all_text2 : str) (d : dict pyval) (o : Ontology) w :
  dict_get name (analysis w) = None ->
  run_ontology w all_text = PyDict d -> d <> [] -> as_ontology d = Some o ->
  let summary := summary_of_run w all_text in
  let final_prompt := build_final_prompt_shaped name o summary in
  encodable_value (PyDict d) = true ->
  encodable final_prompt = true ->
  let r := press true name all_text w in
  let r2 := press true name all_text2 (snd r) in
  shown (snd r)
  = shown w
    ++ [Markdown (u "#### 📡 온톨로지 생성 스트림")]
    ++ snd (stream_generate_text (coord := coord) (generate_content (calls w))
                                 (request_ontology_prompt all_text) (u "json"))
    ++ ontology_events RandomState fruchterman_reingold name d o
    ++ [Markdown (u "#### 📡 과거 요약 생성 스트림")]
    ++ snd (stream_generate_text (coord := coord) (generate_content (S (calls w)))
                                 (request_summary_prompt all_text) (u "markdown"))
    ++ summary_events name summary final_prompt (u "dl_" ++ name) /\
  fst r2 = Done tt /\
  calls (snd r2) = calls (snd r) /\
  shown (snd r2)
  = shown (snd r)
    ++ [Info (u "이미 분석된 결과가 있어 캐시를 사용합니다. 재분석하려면 페이지 새로고침.")]
    ++ ontology_events RandomState fruchterman_reingold name d o
    ++ summary_events name summary final_prompt (u "dl_cached_" ++ name).
Proof.
  intros Hnone Hd Hne Ho. cbv zeta. intros Hed Hep.
  destruct (encodable_prompt_parts _ _ _ Hep) as [Hen Hes].
  destruct (displayable_download_button name
              (build_final_prompt_shaped name o (summary_of_run w all_text)) Hen)
    as [_ Hdl].
  assert (Hr : press true name all_text w = analyze name all_text w)
    by (unfold extract_button; cbn [negb]; now rewrite Hnone).
  rewrite Hr, (analyze_and_render_streaming_shaped_run name all_text d o w Hd Hne Ho Hed Hep).
  cbn [fst snd shown calls]. split; [reflexivity|].
  unfold extract_button. cbn [negb analysis].
  rewrite dict_get_set_same. unfold show_cached.
  rewrite !bind_show. cbn [analysis calls generator shown ontology summary final_prompt].
  rewrite (bind_display (JsonCode (PyDict d))) by exact Hed.
  cbn [analysis calls generator shown].
  match goal with
  | |- context [bind (render name (PyDict d)) ?k ?w0] =>
    rewrite (bind_done _ k w0 tt _ (render_relationships_shaped name d o w0 Ho))
  end.
  cbn [analysis calls generator shown].
  rewrite bind_show. cbn [analysis calls generator shown].
  rewrite (bind_display (Write _)) by exact Hes.
  rewrite bind_show. cbn [analysis calls generator shown].
  rewrite (bind_display (Code _ _)) by (apply displayable_code_markdown, Hep).
  rewrite bind_encode_utf8 by exact Hep.
  unfold display. rewrite Hdl.
  cbn [fst snd analysis calls generator shown].
  repeat split.
  unfold ontology_events, summary_events.
  repeat (rewrite <- app_assoc; cbn [app]). reflexivity.
Qed.

(** X21: a non-empty answer that holds a string that cannot be encoded as
    UTF-8 (a lone surrogate, read from an escape such as \ud83d) makes the
    run raise when the JSON of the ontology is displayed: after one call
    of the service, with the cache as it was, so the next press for the
    name runs the analysis again. *)
Theorem analyze_and_render_streaming_raises_on_unencodable
    (name all_text : str) (v : pyval) w :
  run_ontology w all_text = v -> truthy v = true -> encodable_value v = false ->
  let r := analyze name all_text w in
  fst r = Raised /\
  calls (snd r) = S (calls w) /\
  analysis (snd r) = analysis w /\
  shown (snd r)
  = shown w
    ++ [Markdown (u "#### 📡 온톨로지 생성 스트림")]
    ++ snd (stream_generate_text (coord := coord) (generate_content (calls w))
                                 (request_ontology_prompt all_text) (u "json"))
    ++ [Markdown (u "#### 📌 온톨로지 (JSON)"); JsonCode v].
Proof.
  intros Hv Ht He. cbv zeta. unfold analyze_and_render_streaming.
  rewrite bind_show, bind_stream. cbn [analysis calls generator shown].
  unfold ontology_of_run in Hv. rewrite Hv, Ht. cbn [negb].
  rewrite bind_show. cbn [analysis calls generator shown].
  rewrite (bind_display_raises (JsonCode v)) by exact He.
  cbn [fst snd analysis calls generator shown].
  repeat split. repeat (rewrite <- app_assoc; cbn [app]). reflexivity.
Qed.

(** X13: no press of a button removes or changes an entry of the cache:
    whatever the person, the text and the model, an entry that is in
    [st.session_state.analysis] before the press is there, unchanged,
    after it. *)
Theorem extract_button_keeps_entries
    (model : bool) (name all_text n : str) (e : AnalysisResult) w :
  dict_get n (analysis w) = Some e ->
  dict_get n (analysis (snd (press model name all_text w))) = Some e.
Proof.
  intros Hn. unfold extract_button. destruct model; cbn [negb]; [|exact Hn].
  destruct (dict_get name (analysis w)) as [cached|] eqn:Ec.
  - destruct (quiet_cached_view RandomState fruchterman_reingold render_other
                name cached w) as [-> _]. exact Hn.
  - destruct (analyze_and_render_streaming_cache RandomState fruchterman_reingold
                generate_content render_other name all_text w) as [_ H].
    destruct (truthy _).
    + destruct (fst _).
      * destruct H as (entry & _ & ->). rewrite dict_get_set.
        destruct (str_eqb n name) eqn:E; auto.
        apply str_eqb_eq in E. subst. congruence.
      * now rewrite H.
    + destruct H as (_ & -> & _). exact Hn.
Qed.

End RunFacts.

Lemma analyze_and_render_streaming_shaped_witness :
  fst run_kim = Done tt /\
  calls (snd run_kim) = 2%nat /\
  generator (snd run_kim) = tt /\
  build_final_prompt (u "Kim") (PyDict answered_ontology) (u "She runs.")
  = Returns (build_final_prompt_shaped (u "Kim") answered (u "She runs.")) /\
  analysis (snd run_kim)
  = [(u "Kim", {| ontology := PyDict answered_ontology;
                  summary := u "She runs.";
                  final_prompt := build_final_prompt_shaped (u "Kim") answered (u "She runs.") |})].
Proof.
  apply (analyze_and_render_streaming_shaped (fun _ => tt) origin_layout answering_service
           (fun _ _ => None)
           (u "Kim") (u "I love running.") answered_ontology answered empty_page).
  - vm_compute. reflexivity.
  - discriminate.
  - vm_compute. reflexivity.
  - vm_compute. reflexivity.
  - vm_compute. reflexivity.
Defined.

Lemma analyze_and_render_streaming_raises_on_unencodable_witness :
  fst run_surrogate = Raised /\
  calls (snd run_surrogate) = 1%nat /\
  analysis (snd run_surrogate) = [].
Proof.
  destruct (analyze_and_render_streaming_raises_on_unencodable
              (fun _ => tt) origin_layout surrogate_service (fun _ _ => None)
              (u "Kim") (u "I love running.") (PyDict surrogate_ontology) empty_page)
    as (H1 & H2 & H3 & _).
  - vm_compute. reflexivity.
  - reflexivity.
  - reflexivity.
  - repeat split; assumption.
Defined.

Lemma extract_button_keeps_entries_witness :
  dict_get (u "Kim") (analysis (snd press_lee))
  = Some {| ontology := PyDict answered_ontology; summary := u "She runs.";
            final_prompt := u "prompt" |} /\
  dict_mem (u "Lee") (analysis (snd press_lee)) = true.
Proof.
  split; [|vm_compute; reflexivity].
  apply (extract_button_keeps_entries (fun _ => tt) origin_layout answering_service
           (fun _ _ => None) true (u "Lee") (u "I cook.") (u "Kim")).
  vm_compute. reflexivity.
Defined.

(* ================================================================== *)
(** ** Safe JSON Extractor: the fence comes first *)
(* ================================================================== *)

Lemma find_sub_after (p pre r : str) (c : N) :
  ~ In c pre -> find_sub (c :: p) (pre ++ (c :: p) ++ r) = Some (pre, r).
Proof.
  induction pre as [|x pre IH]; intros H.
  - exact (find_sub_prefix (c :: p) r).
  - rewrite find_sub_unfold.
    change ((x :: pre) ++ (c :: p) ++ r) with (x :: (pre ++ (c :: p) ++ r)).
    cbn [starts_with].
    destruct (c =? x) eqn:E.
    + apply N.eqb_eq in E. subst. exfalso. apply H. now left.
    + rewrite IH; [reflexivity|]. intros Hin. apply H. now right.
Qed.

Lemma find_sub_fence_close_then (j post : str) :
  find_sub fence_close j = None ->
  find_sub fence_close (j ++ c_nl :: fence_close ++ post) = Some (j ++ [c_nl], post).
Proof.
  induction j as [|c j IH]; intros H.
  - cbn [app]. rewrite find_sub_unfold.
    change (starts_with fence_close (c_nl :: fence_close ++ post)) with (@None str).
    now rewrite find_sub_prefix.
  - rewrite find_sub_unfold in H.
    destruct (starts_with fence_close (c :: j)) eqn:Es; [discriminate|].
    destruct (find_sub fence_close j) as [[a b]|] eqn:Ef; [discriminate|].
    rewrite find_sub_unfold.
    rewrite (starts_with_fence_close_ext _ _ Es).
    cbn [app]. rewrite IH; auto.
Qed.

(** X14: the fence comes first.  When the answer holds a JSON object
    (without three backticks in a row) in a json fence, whatever follows
    the fence and whatever precedes it (as long as that has no backtick)
    is ignored, braces included: the extractor returns the object. *)
Theorem parse_json_safely_fence_ignores_surroundings
    (pre j post : str) (d : list (str * pyval)) :
  json_loads j = Some (PyDict d) ->
  find_sub fence_close j = None ->
  ~ In c_backtick pre ->
  parse_json_safely (pre ++ wrap_in_fence j ++ post) = PyDict d.
Proof.
  intros Hj Hf Hpre.
  destruct (json_loads_object _ _ Hj) as (w1 & body & w2 & Ej & Hw1 & Hw2 & Hcore).
  unfold parse_json_safely.
  assert (Hne : nonempty (pre ++ wrap_in_fence j ++ post) = true)
    by (destruct pre; reflexivity).
  rewrite Hne. cbn [negb].
  assert (Hfence : re_search_fence (pre ++ wrap_in_fence j ++ post)
                   = Some (c_nl :: j ++ [c_nl])).
  { unfold re_search_fence, wrap_in_fence.
    replace (pre ++ (fence_open ++ [c_nl] ++ j ++ [c_nl] ++ fence_close) ++ post)
      with (pre ++ fence_open ++ ((c_nl :: j) ++ c_nl :: fence_close ++ post))
      by (cbn [app]; repeat (rewrite <- app_assoc; cbn [app]); reflexivity).
    unfold fence_open at 1 2.
    rewrite (find_sub_after _ pre _ c_backtick Hpre).
    rewrite find_sub_fence_close_then; [reflexivity|].
    rewrite find_sub_unfold, Hf. reflexivity. }
  rewrite Hfence. subst j.
  assert (Hs : strip (c_nl :: (w1 ++ (c_lbrace :: body ++ [c_rbrace]) ++ w2) ++ [c_nl])
               = c_lbrace :: body ++ [c_rbrace]).
  { replace (c_nl :: (w1 ++ (c_lbrace :: body ++ [c_rbrace]) ++ w2) ++ [c_nl])
      with ((c_nl :: w1) ++ (c_lbrace :: body ++ [c_rbrace]) ++ (w2 ++ [c_nl]))
      by (cbn [app]; repeat (rewrite <- app_assoc; cbn [app]); reflexivity).
    apply strip_between; try reflexivity.
    - cbn [forallb]. rewrite andb_true_l.
      rewrite forallb_forall in *. intros y Hy. apply json_ws_is_space; auto.
    - rewrite forallb_app. cbn [forallb]. rewrite !andb_true_r.
      rewrite forallb_forall in *. intros y Hy. apply json_ws_is_space; auto. }
  rewrite Hs, re_search_braces_object, Hcore. reflexivity.
Qed.

Lemma parse_json_safely_fence_ignores_surroundings_witness :
  parse_json_safely fenced_in_prose = PyDict [(u "a", PyInt 1)].
Proof.
  apply (parse_json_safely_fence_ignores_surroundings
           (q "Sure {draft}: ") json_a_1 (q " (see {notes}).")).
  - vm_compute. reflexivity.
  - vm_compute. reflexivity.
  - vm_compute. intuition discriminate.
Defined.

(* ================================================================== *)
(** ** Text Aggregator: what the groups depend on *)
(* ================================================================== *)

Lemma groupby_spec (rows : list PersonRecord) :
  StronglySorted str_lt (map fst (groupby rows)) /\
  (forall k, In k (map fst (groupby rows)) <-> In k (map name rows)) /\
  groupby rows = map (fun k => (k, texts_of k rows)) (map fst (groupby rows)).
Proof.
  destruct (split_groups_from_spec rows [] (NoDup_nil _)) as (Hnd & Hin & Hget).
  fold (split_groups rows) in Hnd, Hin, Hget.
  split; [|split].
  - apply StronglySorted_map_fst. unfold groupby. now apply sort_groups_sorted.
  - intros k. unfold groupby. specialize (Hin k). cbn [map In] in Hin.
    split; intros H.
    + apply (Permutation_in _ (Permutation_map fst (sort_groups_perm _))) in H. tauto.
    + apply (Permutation_in _ (Permutation_sym (Permutation_map fst (sort_groups_perm _)))).
      tauto.
  - apply map_fst_rebuild. intros k xs Hg. unfold groupby in Hg.
    apply (Permutation_in _ (sort_groups_perm _)) in Hg.
    apply group_get_In in Hg; auto. rewrite Hget in Hg. now subst xs.
Qed.

Lemma names_texts_of (k : str) (rows : list PersonRecord) :
  In k (map name rows) <-> texts_of k rows <> [].
Proof.
  unfold texts_of. induction rows as [|r rows IH]; cbn [map filter].
  - split; [intros [] | congruence].
  - destruct (str_eqb (name r) k) eqn:E.
    + apply str_eqb_eq in E. cbn [map]. split; [discriminate | intros _; now left].
    + apply str_eqb_neq in E. rewrite <- IH. cbn [In]. tauto.
Qed.

Lemma sorted_same_members (l1 : list str) : forall l2,
  StronglySorted str_lt l1 -> StronglySorted str_lt l2 ->
  (forall k, In k l1 <-> In k l2) -> l1 = l2.
Proof.
  induction l1 as [|a l1 IH]; intros [|b l2] H1 H2 Hm.
  - reflexivity.
  - exfalso. apply (Hm b). now left.
  - exfalso. apply (Hm a). now left.
  - apply StronglySorted_inv in H1, H2.
    destruct H1 as [H1 Ha], H2 as [H2 Hb]. rewrite Forall_forall in Ha, Hb.
    assert (E : a = b).
    { destruct (proj1 (Hm a) (or_introl eq_refl)) as [E|Hin]; [auto|].
      destruct (proj2 (Hm b) (or_introl eq_refl)) as [E|Hin']; [auto|].
      exfalso. apply (str_lt_irrefl a).
      apply (str_lt_trans a b a); auto. }
    subst b. f_equal. apply IH; auto.
    intros k. split; intros Hk.
    + destruct (proj1 (Hm k) (or_intror Hk)) as [E|Hin]; auto.
      subst k. exfalso. apply (str_lt_irrefl a). auto.
    + destruct (proj2 (Hm k) (or_intror Hk)) as [E|Hin]; auto.
      subst k. exfalso. apply (str_lt_irrefl a). auto.
Qed.

(** X15: the corpora depend on the rows only through the sequence of
    texts of each name.  Two inputs in which every name has the same texts
    in the same order give the same [grouped], however the rows of
    different names are interleaved. *)
Theorem grouped_depends_on_texts_per_name (rows1 rows2 : list PersonRecord) :
  (forall k, texts_of k rows1 = texts_of k rows2) ->
  grouped rows1 = grouped rows2.
Proof.
  intros H.
  destruct (groupby_spec rows1) as (Hs1 & Hin1 & Hg1).
  destruct (groupby_spec rows2) as (Hs2 & Hin2 & Hg2).
  assert (Hk : map fst (groupby rows1) = map fst (groupby rows2)).
  { apply sorted_same_members; auto.
    intros k. rewrite Hin1, Hin2, !names_texts_of, H. tauto. }
  assert (Hg : groupby rows1 = groupby rows2).
  { etransitivity; [exact Hg1|]. rewrite Hk.
    symmetry. etransitivity; [exact Hg2|].
    apply map_ext. intros k. now rewrite H. }
  unfold grouped. now rewrite Hg.
Qed.

Lemma grouped_depends_on_texts_per_name_witness :
  grouped rows_interleaved_1 = grouped rows_interleaved_2.
Proof.
  apply (grouped_depends_on_texts_per_name rows_interleaved_1 rows_interleaved_2).
  intros k. unfold texts_of, rows_interleaved_1, rows_interleaved_2.
  cbn [filter name map].
  destruct (str_eqb (u "b") k) eqn:Eb, (str_eqb (u "a") k) eqn:Ea; try reflexivity.
  apply str_eqb_eq in Eb, Ea. subst k. discriminate.
Defined.

Lemma grouped_names (rows : list PersonRecord) (k : str) :
  In k (map fst (grouped rows)) -> In k (map name rows).
Proof.
  rewrite grouped_keys. destruct (groupby_spec rows) as (_ & Hin & _). apply Hin.
Qed.

Lemma as_records_named (rows : list fetched_row) : forall recs,
  as_records rows = Some recs -> Forall row_ok rows ->
  Forall (fun r => nonempty (name r) = true) recs.
Proof.
  unfold as_records.
  induction rows as [|r rows IH]; cbn [map all_some]; intros recs H Hok.
  - injection H as <-. constructor.
  - inversion Hok as [|? ? [Hn _] Hok']; subst.
    destruct (as_record r) as [p|] eqn:Ep; [|discriminate].
    destruct (all_some (map as_record rows)) as [ps|]; [|discriminate].
    injection H as <-. constructor; [|now apply IH].
    unfold as_record in Ep.
    destruct (row_name r); try discriminate. destruct (row_text r); try discriminate.
    injection Ep as <-. exact Hn.
Qed.

(** X16: fetching and grouping compose: when the fetched names and texts
    are strings, every corpus of [grouped] has a non-empty name; the rows
    without a name are all in the corpus of the placeholder. *)
Theorem fetched_corpora_are_named fuel query rows recs :
  fetch_notion_rows fuel query = Fetched rows ->
  as_records rows = Some recs ->
  Forall (fun g => nonempty (fst g) = true) (grouped recs).
Proof.
  intros Hf Hr. unfold fetch_notion_rows in Hf.
  apply fetch_loop_ok in Hf; [|constructor].
  pose proof (as_records_named rows recs Hr Hf) as Hn.
  rewrite Forall_forall in *. intros [k t] Hin.
  apply (in_map fst) in Hin. cbn [fst] in *. apply grouped_names in Hin.
  apply in_map_iff in Hin. destruct Hin as (r & <- & Hin). now apply Hn.
Qed.

Lemma fetched_corpora_are_named_witness :
  exists rows recs,
    fetch_notion_rows 5 two_pages_query = Fetched rows /\
    as_records rows = Some recs /\
    grouped recs = [(u "Kim", u "a"); (u "Lee", []); (unnamed, u "b")] /\
    Forall (fun g => nonempty (fst g) = true) (grouped recs).
Proof.
  eexists. eexists. split; [vm_compute; reflexivity|].
  split; [vm_compute; reflexivity|]. split; [vm_compute; reflexivity|].
  eapply (fetched_corpora_are_named 5 two_pages_query); vm_compute; reflexivity.
Defined.

(* ================================================================== *)
(** ** Request prompts *)
(* ================================================================== *)

(** The shape of the two prompts: a fixed head (the prompt of the empty
    text without its last character), the text, and a newline. *)
Lemma request_ontology_prompt_shape (t : str) :
  request_ontology_prompt t = removelast (request_ontology_prompt []) ++ t ++ [c_nl].
Proof. vm_compute. reflexivity. Qed.

Lemma request_summary_prompt_shape (t : str) :
  request_summary_prompt t = removelast (request_summary_prompt []) ++ t ++ [c_nl].
Proof. vm_compute. reflexivity. Qed.

(** X17: both request prompts carry the analysed text verbatim between a
    fixed head and a fixed tail, so different texts never get the same
    prompt. *)
Theorem request_prompts_injective (a b : str) :
  (request_ontology_prompt a = request_ontology_prompt b <-> a = b) /\
  (request_summary_prompt a = request_summary_prompt b <-> a = b).
Proof.
  split; (split; [|now intros ->]); intros H.
  - rewrite (request_ontology_prompt_shape a), (request_ontology_prompt_shape b) in H.
    apply app_inv_head in H. now apply app_inv_tail in H.
  - rewrite (request_summary_prompt_shape a), (request_summary_prompt_shape b) in H.
    apply app_inv_head in H. now apply app_inv_tail in H.
Qed.

Lemma cached_view_repeats_run_witness :
  fst (press_kim (snd (press_kim empty_page))) = Done tt /\
  calls (snd (press_kim (snd (press_kim empty_page)))) = 2%nat /\
  dict_mem (u "Kim") (analysis (snd (press_kim empty_page))) = true.
Proof.
  destruct (cached_view_repeats_run (fun _ => tt) origin_layout answering_service
              (fun _ _ => None)
              (u "Kim") (u "I love running.") (u "I love running.")
              answered_ontology answered empty_page) as (_ & H2 & H3 & _).
  - reflexivity.
  - vm_compute. reflexivity.
  - discriminate.
  - vm_compute. reflexivity.
  - vm_compute. reflexivity.
  - vm_compute. reflexivity.
  - split; [exact H2|]. split; [|vm_compute; reflexivity].
    unfold press_kim. rewrite H3. vm_compute. reflexivity.
Defined.

Section RunEdge.
Context {coord rng : Type}.
Variable RandomState : N -> rng.
Variable fruchterman_reingold :
  Graph -> nat -> rng -> (str -> coord * coord * coord) * rng.
Variable generate_content : nat -> str -> response.
Variable render_other : str -> dict pyval -> option (list (event coord)).

Local Abbreviation analyze :=
  (analyze_and_render_streaming RandomState fruchterman_reingold generate_content
                                render_other).
Local Abbreviation run_ontology := (ontology_of_run (coord := coord) (rng := rng) generate_content).

Implicit Types (w : world coord rng).

(** X19: an answer that parses to a non-empty value that is not a mapping
    (a list, a string, a number) passes the emptiness test and then makes
    the run raise at [ontology.get]: after one call of the service and the
    display of the JSON, with the cache as it was and no second call. *)
Theorem analyze_and_render_streaming_raises_on_non_mapping
    (name all_text : str) (v : pyval) w :
  run_ontology w all_text = v -> truthy v = true -> is_dict v = false ->
  let r := analyze name all_text w in
  fst r = Raised /\
  calls (snd r) = S (calls w) /\
  analysis (snd r) = analysis w /\
  shown (snd r)
  = shown w
    ++ [Markdown (u "#### 📡 온톨로지 생성 스트림")]
    ++ snd (stream_generate_text (coord := coord) (generate_content (calls w))
                                 (request_ontology_prompt all_text) (u "json"))
    ++ [Markdown (u "#### 📌 온톨로지 (JSON)"); JsonCode v].
Proof.
  intros Hv Ht Hd. cbv zeta. unfold analyze_and_render_streaming.
  rewrite bind_show, bind_stream. cbn [analysis calls generator shown].
  unfold ontology_of_run in Hv. rewrite Hv, Ht. cbn [negb].
  rewrite bind_show. cbn [analysis calls generator shown].
  destruct (displayable (coord := coord) (JsonCode v)) eqn:E.
  - rewrite (bind_display (JsonCode v)) by exact E.
    cbn [analysis calls generator shown]. unfold bind at 1.
    destruct v; try discriminate Hd; unfold render_relationships, raise;
      cbn [fst snd analysis calls generator shown];
      repeat split; repeat (rewrite <- app_assoc; cbn [app]); reflexivity.
  - rewrite (bind_display_raises (JsonCode v)) by exact E.
    cbn [fst snd analysis calls generator shown].
    repeat split. repeat (rewrite <- app_assoc; cbn [app]). reflexivity.
Qed.

End RunEdge.

Lemma analyze_and_render_streaming_raises_on_non_mapping_witness :
  fst run_on_list = Raised /\
  calls (snd run_on_list) = 1%nat /\
  analysis (snd run_on_list) = [].
Proof.
  destruct (analyze_and_render_streaming_raises_on_non_mapping
              (fun _ => tt) origin_layout list_service (fun _ _ => None)
              (u "Kim") (u "I love running.") (PyList [PyInt 1; PyInt 2]) empty_page)
    as (H1 & H2 & H3 & _).
  - vm_compute. reflexivity.
  - reflexivity.
  - reflexivity.
  - repeat split; assumption.
Defined.

Lemma build_final_prompt_on_shaped_mapping_witness :
  exists p, build_final_prompt (u "Kim") (PyDict answered_ontology) (u "She runs.")
            = Returns p.
Proof.
  eexists.
  apply (build_final_prompt_on_shaped_mapping (u "Kim") (u "She runs.")
           answered_ontology answered).
  vm_compute. reflexivity.
Defined.
